(** * SocketChat relay server: a shallow embedding of [server.js]

    The server keeps three [Map]s ([connectedUsers], [chatRooms],
    [groupChats]) and drives the socket.io transport (the table of
    connected sockets and the adapter's room table).  Every event
    handler is embedded as a function from the state before the event to
    the state after it together with the list of emissions the handler
    performs, in program order.  [console.log] output is not modelled.

    JavaScript strings are modelled by [string]; a character stands for
    one code unit in the range 0..255.  Optional payload fields
    ([undefined] in JavaScript) are [option] values; a field that is
    present has the type the client gives it ([string], [boolean], an
    array of member objects), so the handlers' [typeof] tests and the
    [member &&] test hold.  Timestamps ([Date.now()],
    [new Date().toISOString()]) are the clock reading [N] handed to the
    handler. *)

From Stdlib Require Import Ascii.
From stdpp Require Import gmap strings list fin_maps pretty.

(** ** JavaScript string primitives used by the server and the client *)
Module Js.

(** White space removed by [String.prototype.trim], restricted to the
    code units 0..255: TAB, LF, VT, FF, CR, SPACE and NBSP. *)
Definition is_space (c : ascii) : bool :=
  let n := N_of_ascii c in
  ((9 <=? n) && (n <=? 13) || (n =? 32) || (n =? 160))%N.

Fixpoint trimStart (s : string) : string :=
  match s with
  | EmptyString => EmptyString
  | String c s' => if is_space c then trimStart s' else s
  end.

Definition trimEnd (s : string) : string :=
  String.rev (trimStart (String.rev s)).

Definition trim (s : string) : string := trimEnd (trimStart s).

(** Truthiness of a string value: only the empty string is falsy. *)
Definition truthy (s : string) : bool :=
  match s with EmptyString => false | _ => true end.

(** Truthiness of a possibly [undefined] string. *)
Definition truthy_opt (o : option string) : bool :=
  match o with Some s => truthy s | None => false end.

(** [!v || v.trim() === ''] for a possibly [undefined] string. *)
Definition blank (o : option string) : bool :=
  match o with
  | Some s => negb (truthy s) || bool_decide (trim s = EmptyString)
  | None => true
  end.

Fixpoint startsWith (p s : string) : bool :=
  match p, s with
  | EmptyString, _ => true
  | String a p', String b s' => Ascii.eqb a b && startsWith p' s'
  | String _ _, EmptyString => false
  end.

(** [s.includes(c)] for a one-character needle. *)
Fixpoint includes (c : ascii) (s : string) : bool :=
  match s with
  | EmptyString => false
  | String a s' => Ascii.eqb a c || includes c s'
  end.

(** [s.split(c)] for a one-character separator; [cur] is the piece
    being read, reversed. *)
Fixpoint split_go (c : ascii) (cur : string) (s : string) : list string :=
  match s with
  | EmptyString => [String.rev cur]
  | String a s' =>
      if Ascii.eqb a c then String.rev cur :: split_go c EmptyString s'
      else split_go c (String a cur) s'
  end.
Definition split (c : ascii) (s : string) : list string := split_go c EmptyString s.

(** [s.substring(0, n)] *)
Fixpoint take (n : nat) (s : string) : string :=
  match n, s with
  | S n', String a s' => String a (take n' s')
  | _, _ => EmptyString
  end.

(** [xs.join(sep)] on an array of strings. *)
Fixpoint join (sep : string) (xs : list string) : string :=
  match xs with
  | [] => EmptyString
  | [x] => x
  | x :: rest => x +:+ sep +:+ join sep rest
  end.

(** The default comparator of [Array.prototype.sort]: code-unit order. *)
Definition before (x y : string) : bool := String.ltb x y.

(** [Array.prototype.sort()] with the default comparator.  The sort is
    stable; it is embedded as an insertion sort, which places an element
    after the elements it does not precede. *)
Fixpoint insert_sorted (x : string) (xs : list string) : list string :=
  match xs with
  | [] => [x]
  | y :: ys => if before x y then x :: y :: ys else y :: insert_sorted x ys
  end.
Definition sort (xs : list string) : list string :=
  foldl (fun acc x => insert_sorted x acc) [] xs.

(** Rendering of an [undefined]-able string inside a template literal. *)
Definition show (o : option string) : string := from_option id "undefined" o.

End Js.

Global Arguments Js.startsWith : simpl never.
Global Arguments Js.includes : simpl never.
Global Arguments Js.split : simpl never.
Global Arguments Js.trim : simpl never.
Global Arguments Js.blank : simpl never.

(** ** The JavaScript [Map]: keyed, iterated in insertion order *)
Module JsMap.
Section Ops.
Context {V : Type}.

Fixpoint get (k : string) (m : list (string * V)) : option V :=
  match m with
  | [] => None
  | (k', v) :: m' => if decide (k' = k) then Some v else get k m'
  end.

Definition has (k : string) (m : list (string * V)) : bool :=
  match get k m with Some _ => true | None => false end.

(** [m.set(k, v)]: an existing key keeps its position, a new key goes
    to the end. *)
Fixpoint set (k : string) (v : V) (m : list (string * V)) : list (string * V) :=
  match m with
  | [] => [(k, v)]
  | (k', v') :: m' =>
      if decide (k' = k) then (k, v) :: m' else (k', v') :: set k v m'
  end.

Fixpoint delete (k : string) (m : list (string * V)) : list (string * V) :=
  match m with
  | [] => []
  | (k', v') :: m' =>
      if decide (k' = k) then delete k m' else (k', v') :: delete k m'
  end.

Definition values (m : list (string * V)) : list V := m.*2.
End Ops.
End JsMap.

(** ** Data held by the server *)

(** A value of [connectedUsers]: [{id, username, socketId, joinedAt}]. *)
Record User := mkUser {
  u_id : string;
  u_username : string;
  u_socketId : string;
  u_joinedAt : N
}.

(** A member as a client sends it inside [members]. *)
Record MemberData := mkMemberData {
  md_id : string;
  md_username : option string
}.

(** A member as [groupChats] stores it: [{id, username}], name trimmed. *)
Record Member := mkMember {
  m_id : string;
  m_username : string
}.

(** A value of [groupChats]. *)
Record Group := mkGroup {
  g_id : string;
  g_name : string;
  g_createdBy : option string;
  g_createdAt : N;
  g_members : list Member
}.

(** The payload of a [message] event; the server forwards it as received,
    after the sender-identity repair. *)
Record MessageData := mkMessageData {
  msg_id : option string;
  msg_text : option string;
  msg_userId : option string;
  msg_username : option string;
  msg_timestamp : option N;
  msg_type : option string;
  msg_chatId : option string;
  msg_platform : option string
}.

(** A value of [chatRooms]; [messages] is absent until the first message
    is stored. *)
Record ChatRoom := mkChatRoom {
  r_id : string;
  r_isGroup : bool;
  r_name : option string;
  r_createdAt : N;
  r_members : option (list MemberData);
  r_messages : option (list MessageData)
}.

(** ** Payloads of the inbound events *)

Record JoinData := mkJoinData {
  j_userId : option string;
  j_username : option string
}.

Record JoinChatData := mkJoinChatData {
  jc_chatId : string;
  jc_userId : option string;
  jc_username : option string;
  jc_isGroup : bool;
  jc_groupName : option string;
  jc_members : option (list MemberData)
}.

Record TypingData := mkTypingData {
  t_username : option string;
  t_isTyping : bool;
  t_chatId : option string;
  t_platform : option string
}.

Record UsernameChangeData := mkUsernameChangeData {
  uc_oldUsername : option string;
  uc_newUsername : option string
}.

Record DeleteGroupData := mkDeleteGroupData {
  dg_chatId : string;
  dg_userId : option string;
  dg_username : option string
}.

(** ** Emissions *)

(** An entry of the [onlineUsers] list: [{id, username, isOnline: true}]. *)
Record OnlineUser := mkOnlineUser {
  ou_id : string;
  ou_username : string
}.

(** An entry of the [availableGroups] list. *)
Record GroupSummary := mkGroupSummary {
  gs_chatId : string;
  gs_name : string;
  gs_members : list Member;
  gs_createdBy : option string
}.

(** Event name and payload of an emission. *)
Inductive Payload :=
| PError (message : string) (type : option string)
| PUserJoined (username : option string) (chatId : option string)
| PUserLeft (username : string)
| POnlineUsers (users : list OnlineUser)
| PAvailableGroups (groups : list GroupSummary)
| PNewGroupChat (chatId name : string) (createdBy : option string)
    (members : list Member)
| PGroupChatCreated (chatId groupName : string) (createdBy : option string)
    (members : list Member)
| PMessage (m : MessageData)
| PUserTyping (username : string) (isTyping : bool) (chatId : string)
    (platform : string)
| PGroupInfo (chatId name : string) (members : list Member)
    (createdBy : option string) (createdAt : N)
| PGroupDeleted (chatId groupName : string) (deletedBy : option string)
| PGroupDeleteSuccess (chatId groupName : string).

(** The work handed to [setTimeout] by [joinChat]: the second look at
    the room [chatId] with the valid members captured by the closure. *)
Inductive Deferred :=
| Recheck (chatId : string) (validMembers : list MemberData).

(** What a handler does to the outside, in program order. *)
Inductive Effect :=
| Emit (to : string) (p : Payload)
    (* socket.emit / memberSocket.emit: one recipient *)
| Broadcast (from : string) (p : Payload)
    (* socket.broadcast.emit: every socket but [from] *)
| EmitAll (p : Payload)
    (* io.emit: every socket *)
| ToRoom (from room : string) (p : Payload)
    (* socket.to(room).emit: the room's sockets but [from] *)
| ForceDisconnect (sid : string)
    (* oldSocket.disconnect(true) *)
| SetTimeout (ms : N) (task : Deferred).

(** ** Server state *)

Record State := mkState {
  connectedUsers : list (string * User);
  chatRooms : list (string * ChatRoom);
  groupChats : list (string * Group);
  sockets : gset string;
    (* io.sockets.sockets: the ids of the connected sockets *)
  rooms : gmap string (gset string)
    (* io.sockets.adapter.rooms: room name -> ids of the joined sockets *)
}.

Definition initialState : State :=
  mkState [] [] [] ∅ ∅.

Definition with_connectedUsers (cu : list (string * User)) (st : State) : State :=
  mkState cu (chatRooms st) (groupChats st) (sockets st) (rooms st).
Definition with_chatRooms (cr : list (string * ChatRoom)) (st : State) : State :=
  mkState (connectedUsers st) cr (groupChats st) (sockets st) (rooms st).
Definition with_groupChats (gc : list (string * Group)) (st : State) : State :=
  mkState (connectedUsers st) (chatRooms st) gc (sockets st) (rooms st).
Definition with_sockets (ss : gset string) (st : State) : State :=
  mkState (connectedUsers st) (chatRooms st) (groupChats st) ss (rooms st).
Definition with_rooms (rs : gmap string (gset string)) (st : State) : State :=
  mkState (connectedUsers st) (chatRooms st) (groupChats st) (sockets st) rs.

(** ** The transport (socket.io) operations the server calls *)

(** [socket.join(room)]: the adapter adds the socket to the room's set,
    creating the room when it has none. *)
Definition joinRoom (sid room : string) (st : State) : State :=
  with_rooms (<[room := {[sid]} ∪ default ∅ (rooms st !! room)]> (rooms st)) st.

(** The adapter's [delAll]: the socket leaves every room, and a room
    that becomes empty is removed from the table. *)
Definition leaveAll (sid : string) (rs : gmap string (gset string))
  : gmap string (gset string) :=
  filter (fun kv => kv.2 ≠ ∅) ((fun s => s ∖ {[sid]}) <$> rs).

(** The subscribers of a room; [rooms.get(room)] is [undefined] exactly
    when the room has none. *)
Definition subscribersOf (room : string) (st : State) : gset string :=
  default ∅ (rooms st !! room).

(** The transport side of a closing connection. *)
Definition dropSocket (sid : string) (st : State) : State :=
  with_rooms (leaveAll sid (rooms st)) (with_sockets (sockets st ∖ {[sid]}) st).

(** The transport side of a new connection: the socket is registered and
    joins the room named by its own id. *)
Definition addSocket (sid : string) (st : State) : State :=
  joinRoom sid sid (with_sockets ({[sid]} ∪ sockets st) st).

(** ** Lookups shared by the handlers *)

(** The scan
    [connectedUsers.forEach((user, socketId) => { if (user.id === uid) found = socketId })]:
    the last socket registered for [uid], in iteration order. *)
Definition findSocketId (uid : string) (cu : list (string * User)) : option string :=
  foldl (fun found kv => if decide (u_id kv.2 = uid) then Some kv.1 else found)
        None cu.

(** [if (memberSocketId) { const s = io.sockets.sockets.get(memberSocketId); if (s) ... }]:
    the socket a member is reached on, when there is one. *)
Definition memberSocket (uid : string) (st : State) : option string :=
  match findSocketId uid (connectedUsers st) with
  | Some sid =>
      if Js.truthy sid && bool_decide (sid ∈ sockets st) then Some sid else None
  | None => None
  end.

(** The [onlineUsers] list sent after every registry change. *)
Definition onlineUsers (st : State) : list OnlineUser :=
  (fun u => mkOnlineUser (u_id u) (Js.trim (u_username u))) <$>
  filter (fun u => Js.blank (Some (u_username u)) = false)
         (JsMap.values (connectedUsers st)).

(** The subscribe pass every reconciliation makes: each listed user who
    is reached on a socket joins the room [chatId]. *)
Definition addMembersToRoom (chatId : string) (uids : list string) (st : State)
  : State :=
  foldl (fun s uid =>
           match memberSocket uid s with
           | Some ms => joinRoom ms chatId s
           | None => s
           end) st uids.

(** [ensureGroupMembersInRoom(chatId)] *)
Definition ensureGroupMembersInRoom (chatId : string) (st : State) : State :=
  if negb (Js.startsWith "group-" chatId) then st
  else
    match JsMap.get chatId (groupChats st) with
    | None => st
    | Some group => addMembersToRoom chatId (m_id <$> g_members group) st
    end.

(** ** Handlers *)

(** [socket.on('disconnect')], run once the transport has dropped the
    socket. *)
Definition onDisconnect (sid : string) (st : State) : State * list Effect :=
  let st' := with_connectedUsers (JsMap.delete sid (connectedUsers st)) st in
  match JsMap.get sid (connectedUsers st) with
  | Some user =>
      if Js.blank (Some (u_username user)) then (st', [])
      else (st', [Broadcast sid (PUserLeft (Js.trim (u_username user)));
                  EmitAll (POnlineUsers (onlineUsers st'))])
  | None => (st', [])
  end.

(** [oldSocket.disconnect(true)]: the connection is closed at once; the
    socket leaves its rooms and the table of sockets, and its
    ['disconnect'] listener runs before the call returns. *)
Definition forceDisconnect (sid : string) (st : State) : State * list Effect :=
  let '(st', fx) := onDisconnect sid (dropSocket sid st) in
  (st', ForceDisconnect sid :: fx).

(** The groups handed to a user who registers. *)
Definition userGroupsOf (uid : string) (gc : list (string * Group))
  : list GroupSummary :=
  (fun kv =>
     mkGroupSummary kv.1 (g_name kv.2)
       (filter (fun m => Js.blank (Some (m_username m)) = false) (g_members kv.2))
       (g_createdBy kv.2)) <$>
  filter (fun kv => existsb (fun m => bool_decide (m_id m = uid)) (g_members kv.2) = true)
         gc.

(** The takeover at the head of [join]: a socket other than [sid] on
    which [userId] is already registered loses its entry and, when still
    connected, is disconnected. *)
Definition takeOver (userId sid : string) (st : State) : State * list Effect :=
  match findSocketId userId (connectedUsers st) with
  | Some existingSocketId =>
      if Js.truthy existingSocketId
         && negb (bool_decide (existingSocketId = sid))
      then
        let st' :=
          with_connectedUsers
            (JsMap.delete existingSocketId (connectedUsers st)) st in
        if bool_decide (existingSocketId ∈ sockets st')
        then forceDisconnect existingSocketId st'
        else (st', [])
      else (st, [])
  | None => (st, [])
  end.

(** [socket.on('join')] *)
Definition onJoin (now : N) (sid : string) (d : JoinData) (st : State)
  : State * list Effect :=
  let invalid := (st, [Emit sid (PError "Invalid user data" None)]) in
  match j_userId d, j_username d with
  | Some userId, Some username =>
      if negb (Js.truthy userId) || Js.blank (Some username) then invalid
      else
        let '(st1, fx1) := takeOver userId sid st in
        let name := Js.trim username in
        let st2 :=
          with_connectedUsers
            (JsMap.set sid (mkUser userId name sid now) (connectedUsers st1)) st1 in
        let fx2 := [Broadcast sid (PUserJoined (Some name) None);
                    EmitAll (POnlineUsers (onlineUsers st2))] in
        let userGroups := userGroupsOf userId (groupChats st2) in
        match userGroups with
        | [] => (st2, fx1 ++ fx2)
        | _ :: _ =>
            (foldl (fun s g => joinRoom sid (gs_chatId g) s) st2 userGroups,
             fx1 ++ fx2 ++ [Emit sid (PAvailableGroups userGroups)])
        end
  | _, _ => invalid
  end.

(** [members.filter(member => member && member.username && ... trim() !== '')] *)
Definition validMembersOf (members : list MemberData) : list MemberData :=
  filter (fun m => Js.blank (md_username m) = false) members.

(** [{id: member.id, username: member.username.trim()}]; the name is
    present on every valid member. *)
Definition storedMember (m : MemberData) : Member :=
  mkMember (md_id m) (Js.trim (default EmptyString (md_username m))).

(** Emissions to the members of a new group other than the caller, one
    per member reached on a socket. *)
Definition notifyOthers (userId : option string) (p : Payload)
    (members : list MemberData) (st : State) : list Effect :=
  flat_map (fun m =>
              if decide (Some (md_id m) = userId) then []
              else match memberSocket (md_id m) st with
                   | Some ms => [Emit ms p]
                   | None => []
                   end) members.

(** The direct-chat branch of [joinChat]: the sockets of the users whose
    id is a piece of the chat id all join the room. *)
Definition joinDirectPeers (chatId : string) (st : State) : State :=
  let userIds := Js.split "-"%char chatId in
  let socketIds :=
    (fun kv => kv.1) <$>
    filter (fun kv => u_id kv.2 ∈ userIds) (connectedUsers st) in
  foldl (fun s sid' =>
           if bool_decide (sid' ∈ sockets s) then joinRoom sid' chatId s else s)
        st socketIds.

(** [socket.on('joinChat')] *)
Definition onJoinChat (now : N) (sid : string) (d : JoinChatData) (st : State)
  : State * list Effect :=
  let chatId := jc_chatId d in
  let st1 := joinRoom sid chatId st in
  let st2 :=
    if JsMap.has chatId (chatRooms st1) then st1
    else
      with_chatRooms
        (JsMap.set chatId
           (mkChatRoom chatId (jc_isGroup d)
              (if jc_isGroup d then jc_groupName d else Some "Direct Chat")
              now
              (if jc_isGroup d then jc_members d else Some [])
              None)
           (chatRooms st1)) st1 in
  let tail (s : State) (fx : list Effect) :=
    let s' :=
      if negb (jc_isGroup d) && Js.includes "-"%char chatId
      then joinDirectPeers chatId s else s in
    (s', fx ++ [ToRoom sid chatId (PUserJoined (jc_username d) (Some chatId))]) in
  match jc_isGroup d, jc_members d with
  | true, Some (m0 :: ms) =>
      let members := m0 :: ms in
      if Js.blank (jc_groupName d)
      then (st2, [Emit sid (PError "Invalid group name" None)])
      else
        let groupName := Js.trim (default EmptyString (jc_groupName d)) in
        let validMembers := validMembersOf members in
        match validMembers with
        | [] => (st2, [Emit sid (PError "No valid members for group" None)])
        | _ :: _ =>
            let isNewGroup := negb (JsMap.has chatId (groupChats st2)) in
            let stored := storedMember <$> validMembers in
            let st3 :=
              with_groupChats
                (JsMap.set chatId
                   (mkGroup chatId groupName (jc_userId d) now stored)
                   (groupChats st2)) st2 in
            let st4 := addMembersToRoom chatId (md_id <$> validMembers) st3 in
            let fxNew :=
              if isNewGroup
              then notifyOthers (jc_userId d)
                     (PNewGroupChat chatId groupName (jc_username d) stored)
                     validMembers st3
              else [] in
            let fxCreated :=
              if isNewGroup
              then notifyOthers (jc_userId d)
                     (PGroupChatCreated chatId groupName (jc_username d) stored)
                     validMembers st4
              else [] in
            tail st4
              (fxNew ++ [SetTimeout 500 (Recheck chatId validMembers)] ++ fxCreated)
        end
  | _, _ => tail st2 []
  end.

(** The callback of the [setTimeout] in [joinChat]. *)
Definition runDeferred (task : Deferred) (st : State) : State * list Effect :=
  match task with
  | Recheck chatId validMembers =>
      match rooms st !! chatId with
      | Some roomSockets =>
          if bool_decide (size roomSockets < length validMembers)
          then (addMembersToRoom chatId (md_id <$> validMembers) st, [])
          else (st, [])
      | None => (st, [])
      end
  end.

(** [messageData.username = name; messageData.userId = uid] *)
Definition withSender (md : MessageData) (name uid : option string)
  : MessageData :=
  mkMessageData (msg_id md) (msg_text md) uid name (msg_timestamp md)
    (msg_type md) (msg_chatId md) (msg_platform md).

(** The identity made up for a sender nobody knows:
    [username || 'Unknown User'] and [userId || `unknown-${Date.now()}`]. *)
Definition withPlaceholder (now : N) (md : MessageData) : MessageData :=
  withSender md
    (if Js.truthy_opt (msg_username md) then msg_username md
     else Some "Unknown User")
    (if Js.truthy_opt (msg_userId md) then msg_userId md
     else Some ("unknown-" +:+ pretty now)).

(** The sender-identity repair at the head of [socket.on('message')].
    [None] is the early [return]: the message goes nowhere. *)
Definition repairSender (now : N) (sid : string) (md : MessageData) (st : State)
  : option MessageData :=
  if Js.blank (msg_username md) then
    match JsMap.get sid (connectedUsers st) with
    | Some user =>
        if Js.truthy (u_username user)
        then Some (withSender md (Some (u_username user)) (Some (u_id user)))
        else
          if Js.truthy_opt (msg_chatId md)
          then Some (withPlaceholder now md) else None
    | None =>
        if Js.truthy_opt (msg_chatId md)
        then Some (withPlaceholder now md) else None
    end
  else Some md.

(** The per-member delivery of a group message: one [emit] to every
    member other than the sender who is reached on a socket. *)
Definition unicastToMembers (m : MessageData) (members : list Member) (st : State)
  : list Effect :=
  flat_map (fun member =>
              if decide (Some (m_id member) = msg_userId m) then []
              else match memberSocket (m_id member) st with
                   | Some ms => [Emit ms (PMessage m)]
                   | None => []
                   end) members.

(** [chatRoom.messages.push(messageData)] when the room is recorded. *)
Definition storeMessage (chatId : string) (m : MessageData) (st : State) : State :=
  match JsMap.get chatId (chatRooms st) with
  | Some chatRoom =>
      with_chatRooms
        (JsMap.set chatId
           (mkChatRoom (r_id chatRoom) (r_isGroup chatRoom) (r_name chatRoom)
              (r_createdAt chatRoom) (r_members chatRoom)
              (Some (default [] (r_messages chatRoom) ++ [m])))
           (chatRooms st)) st
  | None => st
  end.

(** The routing half of [socket.on('message')], from [if (chatId)] on,
    for the repaired message [m].  [chatId] is the value destructured at
    the head of the handler. *)
Definition routeMessage (sid : string) (chatId : option string) (m : MessageData)
    (st : State) : State * list Effect :=
  match chatId with
  | Some chatId =>
      if Js.truthy chatId then
        let st1 :=
          if Js.startsWith "group-" chatId then
            match rooms st !! chatId with
            | Some _ => ensureGroupMembersInRoom chatId st
            | None =>
                if JsMap.has chatId (groupChats st)
                then ensureGroupMembersInRoom chatId st
                else st
            end
          else st in
        let fx :=
          match JsMap.get chatId (groupChats st1) with
          | Some group =>
              if Js.startsWith "group-" chatId
              then unicastToMembers m (g_members group) st1
              else [ToRoom sid chatId (PMessage m)]
          | None => [ToRoom sid chatId (PMessage m)]
          end in
        (storeMessage chatId m st1, fx)
      else (st, [Broadcast sid (PMessage m)])
  | None => (st, [Broadcast sid (PMessage m)])
  end.

(** [socket.on('message')] *)
Definition onMessage (now : N) (sid : string) (md : MessageData) (st : State)
  : State * list Effect :=
  match repairSender now sid md st with
  | None => (st, [])
  | Some m => routeMessage sid (msg_chatId md) m st
  end.

(** [socket.on('typing')] *)
Definition onTyping (sid : string) (d : TypingData) (st : State)
  : State * list Effect :=
  let username :=
    if Js.blank (t_username d) || bool_decide (t_username d = Some "Unknown User")
    then
      match JsMap.get sid (connectedUsers st) with
      | Some user =>
          if Js.truthy (u_username user) then u_username user
          else "User-" +:+ Js.take 5 sid
      | None => "User-" +:+ Js.take 5 sid
      end
    else default EmptyString (t_username d) in
  let platform :=
    if Js.truthy_opt (t_platform d) then default EmptyString (t_platform d) else "unknown" in
  match t_chatId d with
  | Some chatId =>
      if Js.truthy chatId then
        let st1 :=
          if Js.startsWith "group-" chatId && JsMap.has chatId (groupChats st)
          then ensureGroupMembersInRoom chatId st else st in
        (st1, [ToRoom sid chatId (PUserTyping username (t_isTyping d) chatId platform)])
      else (st, [Broadcast sid (PUserTyping username (t_isTyping d) "global" platform)])
  | None => (st, [Broadcast sid (PUserTyping username (t_isTyping d) "global" platform)])
  end.

(** [socket.on('usernameChange')] *)
Definition onUsernameChange (now : N) (sid : string) (d : UsernameChangeData)
    (st : State) : State * list Effect :=
  if Js.blank (uc_newUsername d)
  then (st, [Emit sid (PError "Invalid username" None)])
  else
    let newName := Js.trim (default EmptyString (uc_newUsername d)) in
    let st1 :=
      match JsMap.get sid (connectedUsers st) with
      | Some user =>
          with_connectedUsers
            (JsMap.set sid
               (mkUser (u_id user) newName (u_socketId user) (u_joinedAt user))
               (connectedUsers st)) st
      | None => st
      end in
    (st1,
     [Broadcast sid
        (PMessage
           (mkMessageData (Some ("system-" +:+ pretty now))
              (Some (Js.show (uc_oldUsername d) +:+ " changed their name to "
                     +:+ newName))
              (Some "system") (Some "System") (Some now) (Some "system")
              None None));
      EmitAll (POnlineUsers (onlineUsers st1))]).

(** [socket.on('getGroupInfo')] *)
Definition onGetGroupInfo (sid : string) (chatId : string) (st : State)
  : State * list Effect :=
  match JsMap.get chatId (groupChats st) with
  | Some group =>
      (joinRoom sid chatId st,
       [Emit sid (PGroupInfo chatId (g_name group) (g_members group)
                    (g_createdBy group) (g_createdAt group))])
  | None => (st, [])
  end.

(** The [groupDeleted] notices: one per member of the removed record who
    is reached on a socket. *)
Definition notifyDeleted (p : Payload) (members : list Member) (st : State)
  : list Effect :=
  flat_map (fun member =>
              match memberSocket (m_id member) st with
              | Some ms => [Emit ms p]
              | None => []
              end) members.

(** [socket.on('deleteGroup')] *)
Definition onDeleteGroup (sid : string) (d : DeleteGroupData) (st : State)
  : State * list Effect :=
  let chatId := dg_chatId d in
  match JsMap.get chatId (groupChats st) with
  | Some group =>
      if decide (g_createdBy group = dg_userId d) then
        let st1 :=
          with_chatRooms (JsMap.delete chatId (chatRooms st))
            (with_groupChats (JsMap.delete chatId (groupChats st)) st) in
        (st1,
         notifyDeleted (PGroupDeleted chatId (g_name group) (dg_username d))
           (g_members group) st1
         ++ [Emit sid (PGroupDeleteSuccess chatId (g_name group))])
      else
        (st, [Emit sid (PError "You are not authorized to delete this group"
                          (Some "unauthorized_delete"))])
  | None =>
      (st, [Emit sid (PError "Group not found" (Some "group_not_found"))])
  end.

(** ** The event loop *)

(** What can happen to the server: the transport opens or closes a
    connection, a connected socket delivers one of the inbound events, or
    a timer set by [joinChat] fires. *)
Inductive Event :=
| Connect (sid : string)
| Close (sid : string)
| Join (now : N) (sid : string) (d : JoinData)
| JoinChat (now : N) (sid : string) (d : JoinChatData)
| Message (now : N) (sid : string) (d : MessageData)
| Typing (sid : string) (d : TypingData)
| UsernameChange (now : N) (sid : string) (d : UsernameChangeData)
| GetGroupInfo (sid : string) (chatId : string)
| DeleteGroup (sid : string) (d : DeleteGroupData)
| Timer (task : Deferred).

(** Only a connected socket delivers events. *)
Definition whenConnected (sid : string) (st : State)
    (k : State -> State * list Effect) : State * list Effect :=
  if bool_decide (sid ∈ sockets st) then k st else (st, []).

(** One turn of the loop.  The transport gives every connection a fresh,
    non-empty id. *)
Definition step (e : Event) (st : State) : State * list Effect :=
  match e with
  | Connect sid =>
      if Js.truthy sid && negb (bool_decide (sid ∈ sockets st))
      then (addSocket sid st, []) else (st, [])
  | Close sid => whenConnected sid st (fun s => onDisconnect sid (dropSocket sid s))
  | Join now sid d => whenConnected sid st (onJoin now sid d)
  | JoinChat now sid d => whenConnected sid st (onJoinChat now sid d)
  | Message now sid d => whenConnected sid st (onMessage now sid d)
  | Typing sid d => whenConnected sid st (onTyping sid d)
  | UsernameChange now sid d => whenConnected sid st (onUsernameChange now sid d)
  | GetGroupInfo sid chatId => whenConnected sid st (onGetGroupInfo sid chatId)
  | DeleteGroup sid d => whenConnected sid st (onDeleteGroup sid d)
  | Timer task => runDeferred task st
  end.

(** The state after a sequence of events, oldest first. *)
Definition run (evs : list Event) (st : State) : State :=
  foldl (fun s e => (step e s).1) st evs.

(** ** The client's direct-chat id ([handleStartChat], [ChatScreen]) *)

(** [[userId, targetUser.id].sort().join('-')] *)
Definition directChatId (userId targetId : string) : string :=
  Js.join "-" (Js.sort [userId; targetId]).

(** ** A session with two clients, used by the examples below *)
Module Scenario.

Definition ann : MemberData := mkMemberData "uA" (Some "Ann").
Definition bob : MemberData := mkMemberData "uB" (Some "Bob").

(** Ann and Bob are connected on [sA] and [sB] and registered. *)
Definition online : list Event :=
  [Connect "sA"; Connect "sB";
   Join 10 "sA" (mkJoinData (Some "uA") (Some "Ann"));
   Join 11 "sB" (mkJoinData (Some "uB") (Some "Bob"))].

(** The payload a client sends when it opens the group chat "Team" of
    Ann and Bob. *)
Definition teamPayload (chatId userId username : string) : JoinChatData :=
  mkJoinChatData chatId (Some userId) (Some username) true (Some "Team")
    (Some [ann; bob]).

(** Ann creates the group [chatId] with herself and Bob as members. *)
Definition createTeam (chatId : string) : Event :=
  JoinChat 20 "sA" (teamPayload chatId "uA" "Ann").

(** Ann, the creator, deletes the group. *)
Definition annDeletes (chatId : string) : DeleteGroupData :=
  mkDeleteGroupData chatId (Some "uA") (Some "Ann").

Definition text (chatId username userId : option string) : MessageData :=
  mkMessageData (Some "m1") (Some "hi") userId username (Some 40%N)
    (Some "text") chatId None.

End Scenario.

(** ** Vocabulary of the properties *)

(** The registry: who is registered on which socket, and which sockets
    are connected. *)
Definition registry (st : State) : list (string * User) * gset string :=
  (connectedUsers st, sockets st).

(** What every state the event loop reaches satisfies: the [Map] has one
    entry per key, no two entries carry the same user id, every entry
    belongs to a connected socket and has a non-empty name, and socket
    ids are non-empty. *)
Record wellFormed (st : State) : Prop := mkWellFormed {
  wf_keys : NoDup (connectedUsers st).*1;
  wf_unique : ∀ s1 u1 s2 u2,
    JsMap.get s1 (connectedUsers st) = Some u1 →
    JsMap.get s2 (connectedUsers st) = Some u2 →
    u_id u1 = u_id u2 → s1 = s2;
  wf_live : ∀ s u, JsMap.get s (connectedUsers st) = Some u → s ∈ sockets st;
  wf_named : ∀ s u,
    JsMap.get s (connectedUsers st) = Some u → Js.truthy (u_username u) = true;
  wf_truthy : ∀ s, s ∈ sockets st → Js.truthy s = true
}.

(** The entries of the registry that carry the user id [uid]. *)
Definition sessionsOf (uid : string) (cu : list (string * User))
  : list (string * User) :=
  filter (fun kv => u_id kv.2 = uid) cu.

(** The timers an effect list sets, as (delay, task). *)
Definition timers (fx : list Effect) : list (N * Deferred) :=
  omap (fun e => match e with
                 | SetTimeout ms task => Some (ms, task)
                 | _ => None
                 end) fx.

(** The adapter keeps no empty room. *)
Definition noEmptyRoom (st : State) : Prop :=
  ∀ room S, rooms st !! room = Some S → S ≠ ∅.

(** The user [uid] is registered on the socket [sid]. *)
Definition registeredOn (st : State) (uid sid : string) : Prop :=
  ∃ u, JsMap.get sid (connectedUsers st) = Some u ∧ u_id u = uid.

(** ** The client: the users screen ([UsersScreen.tsx]) and the chat
    screen ([ChatScreen] in [UsernameScreen.tsx]) *)
Module Client.

(** [interface User]: [{id, username, isOnline}]. *)
Record ClientUser := mkClientUser {
  c_id : string;
  c_username : string;
  c_isOnline : bool
}.

(** [interface GroupChat] *)
Record GroupChat := mkGroupChat {
  gc_chatId : string;
  gc_name : string;
  gc_members : list ClientUser;
  gc_createdBy : option string
}.

(** An entry of the server's [onlineUsers] list as the client reads it. *)
Definition ofOnlineUser (o : OnlineUser) : ClientUser :=
  mkClientUser (ou_id o) (ou_username o) true.

(** A member object as the server reads it out of a [joinChat] payload. *)
Definition toMemberData (u : ClientUser) : MemberData :=
  mkMemberData (c_id u) (Some (c_username u)).

(** The [onlineUsers] listener:
    [users.reduce((acc, current) => { if (!acc.find(user => user.id === current.id)) acc.push(current); return acc }, [])] *)
Definition uniqueUsers (users : list ClientUser) : list ClientUser :=
  foldl (fun acc current =>
           if existsb (fun user => bool_decide (c_id user = c_id current)) acc
           then acc else acc ++ [current])
        [] users.

(** The [newGroupChat] listener's update of [availableGroups]. *)
Definition onNewGroupChat (groupData : GroupChat) (prev : list GroupChat)
  : list GroupChat :=
  if existsb (fun g => bool_decide (gc_chatId g = gc_chatId groupData)) prev
  then prev else prev ++ [groupData].

(** The [groupChatCreated] listener's update of [availableGroups], for the
    event [{chatId, groupName, members, createdBy}]. *)
Definition onGroupChatCreated (userId : string)
    (chatId groupName : string) (members : list ClientUser)
    (createdBy : option string) (prev : list GroupChat) : list GroupChat :=
  if existsb (fun g => bool_decide (gc_chatId g = chatId)) prev then prev
  else if existsb (fun member => bool_decide (c_id member = userId)) members
       then prev ++ [mkGroupChat chatId groupName members createdBy]
       else prev.

(** The [groupDeleted] listener's update of [availableGroups]. *)
Definition onGroupDeleted (chatId : string) (prev : list GroupChat)
  : list GroupChat :=
  filter (fun group => gc_chatId group ≠ chatId) prev.

(** [toggleUserSelection] *)
Definition toggleUserSelection (userId : string) (prev : list string)
  : list string :=
  if bool_decide (userId ∈ prev) then filter (fun id => id ≠ userId) prev
  else prev ++ [userId].

(** [s.toLowerCase()] on the code units 0..255. *)
Definition lowerChar (c : ascii) : ascii :=
  let n := N_of_ascii c in
  if ((65 <=? n) && (n <=? 90)
      || (192 <=? n) && (n <=? 222) && negb (n =? 215))%N
  then ascii_of_N (n + 32) else c.

Fixpoint toLowerCase (s : string) : string :=
  match s with
  | EmptyString => EmptyString
  | String c s' => String (lowerChar c) (toLowerCase s')
  end.

(** [s.replace(/\s+/g, '-')]: every run of white space becomes one dash;
    [inRun] tells that the previous character was white space. *)
Fixpoint replaceSpaceRuns (inRun : bool) (s : string) : string :=
  match s with
  | EmptyString => EmptyString
  | String c s' =>
      if Js.is_space c
      then if inRun then replaceSpaceRuns true s'
           else String "-" (replaceSpaceRuns true s')
      else String c (replaceSpaceRuns false s')
  end.

(** [groupName.replace(/\s+/g, '-').toLowerCase()] *)
Definition slug (groupName : string) : string :=
  toLowerCase (replaceSpaceRuns false groupName).

(** The chat id both screens make up for a new group,
    [`group-${slug}-${Date.now()}-${Math.random().toString(36).substr(2, 9)}`];
    [rnd] stands for the random part. *)
Definition newGroupChatId (now : N) (rnd slugText : string) : string :=
  "group-" +:+ slugText +:+ "-" +:+ pretty now +:+ "-" +:+ rnd.

(** The route parameters of the chat screen. *)
Record ChatParams := mkChatParams {
  p_userId : string;
  p_username : string;
  p_targetUserId : option string;
  p_isDirectChat : bool;
  p_isGroupChat : bool;
  p_groupName : option string;
  p_groupMembers : option (list ClientUser);
  p_chatId : option string
}.

(** What [handleCreateGroup] does: an alert, or a new group added to
    [availableGroups] and a navigation to the chat screen. *)
Inductive CreateGroup :=
| CreateGroupAlert (message : string)
| CreateGroupDone (newGroup : GroupChat) (params : ChatParams).

(** The member objects [handleCreateGroup] builds for the chosen ids. *)
Definition memberFor (userId username : string) (onlineUsers : list ClientUser)
    (id : string) : ClientUser :=
  match find (fun user => bool_decide (c_id user = id)) onlineUsers with
  | Some user => mkClientUser id (c_username user) (c_isOnline user)
  | None =>
      if bool_decide (id = userId) then mkClientUser id username true
      else mkClientUser id "Unknown" false
  end.

(** [handleCreateGroup] *)
Definition handleCreateGroup (now : N) (rnd : string)
    (userId username groupName : string) (selectedUsers : list string)
    (onlineUsers : list ClientUser) : CreateGroup :=
  if negb (Js.truthy (Js.trim groupName))
  then CreateGroupAlert "Please enter a group name"
  else
    match selectedUsers with
    | [] => CreateGroupAlert "Please select at least one user"
    | _ :: _ =>
        if bool_decide (50 < String.length (Js.trim groupName))
        then CreateGroupAlert
               "Group name is too long. Maximum 50 characters allowed."
        else
          let groupMembers :=
            if bool_decide (userId ∈ selectedUsers) then selectedUsers
            else selectedUsers ++ [userId] in
          let chatId := newGroupChatId now rnd (slug groupName) in
          let members := memberFor userId username onlineUsers <$> groupMembers in
          CreateGroupDone
            (mkGroupChat chatId (Js.trim groupName) members (Some username))
            (mkChatParams userId username None false true (Some groupName)
               (Some members) (Some chatId))
    end.

(** [handleStartChat]: the parameters handed to the chat screen. *)
Definition handleStartChat (userId username : string) (targetUser : ClientUser)
  : ChatParams :=
  mkChatParams userId username (Some (c_id targetUser)) true false None None None.

(** [isActuallyGroupChat] of the chat screen. *)
Definition isActuallyGroupChat (p : ChatParams) : bool :=
  p_isGroupChat p
  || negb (Js.blank (p_groupName p))
  || match p_groupMembers p with Some (_ :: _) => true | _ => false end
  || match p_chatId p with
     | Some c => Js.truthy c && Js.startsWith "group-" c
     | None => false
     end.

(** The chat id of the chat screen; [groupName?.replace(..).toLowerCase()]
    is [undefined] without a group name. *)
Definition chatIdOf (now : N) (rnd : string) (p : ChatParams) : string :=
  match p_chatId p with
  | Some existingChatId =>
      if Js.truthy existingChatId then existingChatId else
      if p_isDirectChat p && Js.truthy_opt (p_targetUserId p)
      then directChatId (p_userId p) (default EmptyString (p_targetUserId p))
      else if isActuallyGroupChat p
           then newGroupChatId now rnd (Js.show (slug <$> p_groupName p))
           else "global"
  | None =>
      if p_isDirectChat p && Js.truthy_opt (p_targetUserId p)
      then directChatId (p_userId p) (default EmptyString (p_targetUserId p))
      else if isActuallyGroupChat p
           then newGroupChatId now rnd (Js.show (slug <$> p_groupName p))
           else "global"
  end.

(** The [joinChat] payload the chat screen sends for the chat it opens,
    as the server reads it.  With a user id and a user name in the route
    parameters it sends them; with one of them missing it falls back on
    [stored], what [AsyncStorage.getItem] gives for ['userId'] and
    ['username'] ([None] for [null]), and sends nothing (an alert is
    shown) unless both are found.  [None] is no emission. *)
Definition joinChatPayload (now : N) (rnd : string)
    (stored : option string * option string) (p : ChatParams)
  : option JoinChatData :=
  let payload (userId username : string) :=
    mkJoinChatData (chatIdOf now rnd p) (Some userId) (Some username)
      (isActuallyGroupChat p)
      (if isActuallyGroupChat p then p_groupName p else None)
      (if isActuallyGroupChat p
       then (fun ms : list ClientUser => toMemberData <$> ms) <$> p_groupMembers p
       else None) in
  if p_isDirectChat p || isActuallyGroupChat p then
    if negb (Js.truthy (p_userId p)) || negb (Js.truthy (p_username p)) then
      match stored with
      | (Some storedUserId, Some storedUsername) =>
          if Js.truthy storedUserId && Js.truthy storedUsername
          then Some (payload storedUserId storedUsername)
          else None
      | _ => None
      end
    else Some (payload (p_userId p) (p_username p))
  else None.

(** The chat screen's [userTyping] listener, for the event
    [{username, isTyping, chatId}] received in the chat [chatId]: the new
    value of [typingUsers]. *)
Definition onUserTyping (chatId : string) (username : string)
    (isTyping : bool) (dataChatId : option string) (prev : list string)
  : list string :=
  if bool_decide (dataChatId = Some chatId) then
    if isTyping
    then if bool_decide (username ∈ prev) then prev else prev ++ [username]
    else filter (fun user => user ≠ username) prev
  else prev.

End Client.

(** ** The health endpoint *)

(** The body of the answer of [app.get('/')]; [timestamp] is the clock
    reading. *)
Record Health := mkHealth {
  h_message : string;
  h_connectedUsers : nat;
  h_chatRooms : nat;
  h_groupChats : nat;
  h_timestamp : N
}.

(** [app.get('/', ...)]: the sizes of the three [Map]s. *)
Definition healthCheck (now : N) (st : State) : Health :=
  mkHealth "Socket Chat Server is running!"
    (length (connectedUsers st)) (length (chatRooms st))
    (length (groupChats st)) now.

(** ** Further vocabulary *)

(** The payload an emission carries, when it carries one. *)
Definition payloadOf (e : Effect) : option Payload :=
  match e with
  | Emit _ p | Broadcast _ p | EmitAll p | ToRoom _ _ p => Some p
  | ForceDisconnect _ | SetTimeout _ _ => None
  end.

(** [st'] has the registry of [st]; every subscription of [st] is still
    there, and every new subscriber is a connected socket. *)
Definition extends (st st' : State) : Prop :=
  registry st' = registry st ∧
  (∀ room s, s ∈ subscribersOf room st → s ∈ subscribersOf room st') ∧
  (∀ room s, s ∈ subscribersOf room st' →
             s ∈ subscribersOf room st ∨ s ∈ sockets st).

(** Every member of a recorded group who is registered is subscribed to
    the group's room. *)
Definition converged (st : State) : Prop :=
  ∀ chatId group member ms,
    JsMap.get chatId (groupChats st) = Some group →
    member ∈ g_members group →
    registeredOn st (m_id member) ms →
    ms ∈ subscribersOf chatId st.

(** Every subscriber of every room is a connected socket. *)
Definition subscribersConnected (st : State) : Prop :=
  ∀ room s, s ∈ subscribersOf room st → s ∈ sockets st.

(** A name as the server stores it: trimmed and not empty. *)
Definition storedName (name : string) : Prop :=
  Js.trim name = name ∧ name ≠ EmptyString.

(** Every registered user has a stored name. *)
Definition namesStored (st : State) : Prop :=
  ∀ s u, JsMap.get s (connectedUsers st) = Some u → storedName (u_username u).

(** A well-formed group record: filed under its own id, with a stored
    name and at least one member, every member with a stored name. *)
Definition groupValid (chatId : string) (g : Group) : Prop :=
  g_id g = chatId ∧ storedName (g_name g) ∧ g_members g ≠ [] ∧
  ∀ m, m ∈ g_members g → storedName (m_username m).

(** The directories are proper maps, every group has a chat-room record,
    and every chat-room record is filed under its own id. *)
Record directoriesOk (st : State) : Prop := mkDirectoriesOk {
  dir_groups : NoDup (groupChats st).*1;
  dir_rooms : NoDup (chatRooms st).*1;
  dir_paired : ∀ k g, JsMap.get k (groupChats st) = Some g →
                      is_Some (JsMap.get k (chatRooms st));
  dir_ids : ∀ k r, JsMap.get k (chatRooms st) = Some r → r_id r = k
}.

(** The stored history of every chat room holds only messages addressed
    to that room. *)
Definition historyAddressed (st : State) : Prop :=
  ∀ k r msgs m,
    JsMap.get k (chatRooms st) = Some r →
    r_messages r = Some msgs → m ∈ msgs →
    msg_chatId m = Some k ∧ Js.truthy_opt (msg_username m) = true.

(** The group payloads [joinChat] accepts: [isGroup], a non-empty
    [members], a name that is not blank and a member with a usable
    name. *)
Definition groupAccepted (d : JoinChatData) : bool :=
  jc_isGroup d &&
  match jc_members d with
  | Some (m0 :: ms) =>
      negb (Js.blank (jc_groupName d)) &&
      match validMembersOf (m0 :: ms) with [] => false | _ :: _ => true end
  | _ => false
  end.

(** The state in which [joinChat] looks at a group payload: the caller
    has joined the room and the chat room is recorded. *)
Definition roomOpened (now : N) (sid : string) (d : JoinChatData) (st : State)
  : State :=
  let st1 := joinRoom sid (jc_chatId d) st in
  if JsMap.has (jc_chatId d) (chatRooms st1) then st1
  else
    with_chatRooms
      (JsMap.set (jc_chatId d)
         (mkChatRoom (jc_chatId d) (jc_isGroup d)
            (if jc_isGroup d then jc_groupName d else Some "Direct Chat")
            now
            (if jc_isGroup d then jc_members d else Some [])
            None)
         (chatRooms st1)) st1.

(** The record an accepted group payload stores. *)
Definition groupOf (now : N) (d : JoinChatData) : Group :=
  mkGroup (jc_chatId d) (Js.trim (default EmptyString (jc_groupName d)))
    (jc_userId d) now
    (storedMember <$> validMembersOf (default [] (jc_members d))).

(** The events that write group records. *)
Definition writesGroups (e : Event) : bool :=
  match e with
  | JoinChat _ _ _ | DeleteGroup _ _ => true
  | _ => false
  end.

(** The events that write the registry. *)
Definition writesRegistry (e : Event) : bool :=
  match e with
  | Join _ _ _ | UsernameChange _ _ _ | Close _ => true
  | _ => false
  end.

Global Arguments addMembersToRoom : simpl never.
Global Arguments ensureGroupMembersInRoom : simpl never.
Global Arguments joinDirectPeers : simpl never.
Global Arguments memberSocket : simpl never.
Global Arguments validMembersOf : simpl never.
Global Arguments onlineUsers : simpl never.
Global Arguments notifyOthers : simpl never.

(** * Properties *)

Example trim_example : Js.trim "  Team 1 " = "Team 1".
Proof. reflexivity. Qed.

Example split_example : Js.split "-"%char "u1-u2" = ["u1"; "u2"].
Proof. reflexivity. Qed.

Example sort_example : Js.sort ["b"; "a"; "c"] = ["a"; "b"; "c"].
Proof. reflexivity. Qed.

(** ** Facts about the [Map] operations *)
Section JsMapFacts.
Context {V : Type}.
Implicit Types (m : list (string * V)) (k : string) (v : V).

Lemma get_set k k' v m :
  JsMap.get k' (JsMap.set k v m)
  = if decide (k = k') then Some v else JsMap.get k' m.
Proof.
  induction m as [|[k0 v0] m IH]; simpl.
  - repeat case_decide; congruence.
  - destruct (decide (k0 = k)) as [->|Hne]; simpl.
    + repeat case_decide; congruence.
    + rewrite IH. repeat case_decide; congruence.
Qed.

Lemma get_delete k k' m :
  JsMap.get k' (JsMap.delete k m)
  = if decide (k = k') then None else JsMap.get k' m.
Proof.
  induction m as [|[k0 v0] m IH]; simpl.
  - by case_decide.
  - destruct (decide (k0 = k)) as [->|Hne]; simpl.
    + rewrite IH. repeat case_decide; congruence.
    + rewrite IH. repeat case_decide; congruence.
Qed.

Lemma get_elem_of k v m : JsMap.get k m = Some v → (k, v) ∈ m.
Proof.
  induction m as [|[k0 v0] m IH]; simpl; [done|].
  case_decide as Hk.
  - intros [= ->]. subst. left.
  - intros H. right. by apply IH.
Qed.

Lemma get_None_keys k m : JsMap.get k m = None → k ∉ m.*1.
Proof.
  induction m as [|[k0 v0] m IH]; simpl.
  - intros _. apply not_elem_of_nil.
  - case_decide as Hk; [done|].
    intros H. apply not_elem_of_cons. split; [congruence|by apply IH].
Qed.

Lemma elem_of_get k v m : NoDup m.*1 → (k, v) ∈ m → JsMap.get k m = Some v.
Proof.
  induction m as [|[k0 v0] m IH]; simpl; intros Hnd Hin.
  - by apply elem_of_nil in Hin.
  - apply NoDup_cons in Hnd as [Hk0 Hnd].
    apply elem_of_cons in Hin as [[= -> ->]|Hin].
    + by rewrite decide_True.
    + rewrite decide_False; [by apply IH|].
      intros ->. apply Hk0. apply list_elem_of_fmap. by exists (k, v).
Qed.

Lemma keys_delete k m :
  (JsMap.delete k m).*1 = filter (fun x => x ≠ k) m.*1.
Proof.
  induction m as [|[k0 v0] m IH]; simpl; [done|].
  destruct (decide (k0 = k)) as [->|Hne].
  - rewrite filter_cons_False; [exact IH|]. by intros ?.
  - rewrite filter_cons_True; [|done]. simpl. f_equal. exact IH.
Qed.

Lemma keys_set_elem x k v m : x ∈ (JsMap.set k v m).*1 → x = k ∨ x ∈ m.*1.
Proof.
  induction m as [|[k0 v0] m IH]; simpl.
  - intros ?%list_elem_of_singleton. by left.
  - destruct (decide (k0 = k)) as [->|Hne]; simpl.
    + intros H. by right.
    + intros [->|H]%elem_of_cons.
      * right. left.
      * destruct (IH H) as [->|?]; [by left|]. right. by right.
Qed.

Lemma NoDup_keys_delete k m : NoDup m.*1 → NoDup (JsMap.delete k m).*1.
Proof. intros H. rewrite keys_delete. by apply NoDup_filter. Qed.

Lemma NoDup_keys_set k v m : NoDup m.*1 → NoDup (JsMap.set k v m).*1.
Proof.
  induction m as [|[k0 v0] m IH]; simpl; intros Hnd.
  - apply NoDup_singleton.
  - apply NoDup_cons in Hnd as [Hk0 Hnd].
    destruct (decide (k0 = k)) as [->|Hne]; simpl.
    + by apply NoDup_cons.
    + apply NoDup_cons. split; [|by apply IH].
      intros [->|?]%keys_set_elem; [done|]. by apply Hk0.
Qed.

Lemma has_true k m : JsMap.has k m = true ↔ is_Some (JsMap.get k m).
Proof.
  unfold JsMap.has. destruct (JsMap.get k m); split; try done.
Qed.

Lemma has_false k m : JsMap.has k m = false ↔ JsMap.get k m = None.
Proof. unfold JsMap.has. by destruct (JsMap.get k m). Qed.
End JsMapFacts.

(** ** The session registry is touched by three handlers only *)

Lemma memberSocket_registry uid st st' :
  registry st = registry st' → memberSocket uid st = memberSocket uid st'.
Proof. unfold registry, memberSocket. by intros [= -> ->]. Qed.

Lemma addMembersToRoom_registry chatId uids st :
  registry (addMembersToRoom chatId uids st) = registry st.
Proof.
  unfold addMembersToRoom. revert st.
  induction uids as [|uid uids IH]; intros st; simpl; [done|].
  rewrite IH. by destruct (memberSocket uid st).
Qed.

Lemma addMembersToRoom_groupChats chatId uids st :
  groupChats (addMembersToRoom chatId uids st) = groupChats st.
Proof.
  unfold addMembersToRoom. revert st.
  induction uids as [|uid uids IH]; intros st; simpl; [done|].
  rewrite IH. by destruct (memberSocket uid st).
Qed.

Lemma addMembersToRoom_chatRooms chatId uids st :
  chatRooms (addMembersToRoom chatId uids st) = chatRooms st.
Proof.
  unfold addMembersToRoom. revert st.
  induction uids as [|uid uids IH]; intros st; simpl; [done|].
  rewrite IH. by destruct (memberSocket uid st).
Qed.

Lemma ensureGroupMembersInRoom_registry chatId st :
  registry (ensureGroupMembersInRoom chatId st) = registry st.
Proof.
  unfold ensureGroupMembersInRoom.
  destruct (Js.startsWith _ _); simpl; [|done].
  destruct (JsMap.get _ _); [|done]. apply addMembersToRoom_registry.
Qed.

Lemma ensureGroupMembersInRoom_groupChats chatId st :
  groupChats (ensureGroupMembersInRoom chatId st) = groupChats st.
Proof.
  unfold ensureGroupMembersInRoom.
  destruct (Js.startsWith _ _); simpl; [|done].
  destruct (JsMap.get _ _); [|done]. apply addMembersToRoom_groupChats.
Qed.

Lemma ensureGroupMembersInRoom_chatRooms chatId st :
  chatRooms (ensureGroupMembersInRoom chatId st) = chatRooms st.
Proof.
  unfold ensureGroupMembersInRoom.
  destruct (Js.startsWith _ _); simpl; [|done].
  destruct (JsMap.get _ _); [|done]. apply addMembersToRoom_chatRooms.
Qed.

Lemma joinDirectPeers_registry chatId st :
  registry (joinDirectPeers chatId st) = registry st.
Proof.
  unfold joinDirectPeers.
  generalize ((fun kv : string * User => kv.1) <$>
              filter (fun kv => u_id kv.2 ∈ Js.split "-"%char chatId)
                     (connectedUsers st)).
  intros l. revert st. induction l as [|s l IH]; intros st; simpl; [done|].
  rewrite IH. by case_bool_decide.
Qed.

Lemma storeMessage_registry chatId m st :
  registry (storeMessage chatId m st) = registry st.
Proof. unfold storeMessage. by destruct (JsMap.get _ _). Qed.

Lemma onJoinChat_registry now sid d st :
  registry (onJoinChat now sid d st).1 = registry st.
Proof.
  unfold onJoinChat.
  set (st2 := if JsMap.has _ _ then _ else _).
  assert (registry st2 = registry st) as H2.
  { subst st2. by destruct (JsMap.has _ _). }
  assert (∀ s fx, registry s = registry st →
    registry (if negb (jc_isGroup d) && Js.includes "-"%char (jc_chatId d)
              then joinDirectPeers (jc_chatId d) s else s,
              fx ++ [ToRoom sid (jc_chatId d)
                       (PUserJoined (jc_username d) (Some (jc_chatId d)))]).1
    = registry st) as Htail.
  { intros s fx Hs. simpl. destruct (_ && _); [|done].
    by rewrite joinDirectPeers_registry. }
  destruct (jc_isGroup d); [|by apply Htail].
  destruct (jc_members d) as [[|m0 ms]|]; try by apply Htail.
  destruct (Js.blank (jc_groupName d)); [done|].
  destruct (validMembersOf (m0 :: ms)) as [|v vs]; [done|].
  apply Htail. by rewrite addMembersToRoom_registry.
Qed.

Lemma routeMessage_registry sid chatId m st :
  registry (routeMessage sid chatId m st).1 = registry st.
Proof.
  unfold routeMessage. destruct chatId as [chatId|]; [|done].
  destruct (Js.truthy chatId); [|done]. simpl.
  rewrite storeMessage_registry.
  destruct (Js.startsWith _ _); [|done].
  destruct (rooms st !! chatId);
    [|destruct (JsMap.has _ _); [|done]];
    apply ensureGroupMembersInRoom_registry.
Qed.

Lemma onMessage_registry now sid md st :
  registry (onMessage now sid md st).1 = registry st.
Proof.
  unfold onMessage. destruct (repairSender _ _ _ _); [|done].
  apply routeMessage_registry.
Qed.

Lemma onTyping_registry sid d st :
  registry (onTyping sid d st).1 = registry st.
Proof.
  unfold onTyping. destruct (t_chatId d) as [chatId|]; [|done].
  destruct (Js.truthy chatId); [|done]. simpl.
  destruct (_ && _); [|done]. apply ensureGroupMembersInRoom_registry.
Qed.

Lemma onGetGroupInfo_registry sid chatId st :
  registry (onGetGroupInfo sid chatId st).1 = registry st.
Proof. unfold onGetGroupInfo. by destruct (JsMap.get _ _). Qed.

Lemma onDeleteGroup_registry sid d st :
  registry (onDeleteGroup sid d st).1 = registry st.
Proof.
  unfold onDeleteGroup. destruct (JsMap.get _ _); [|done]. by case_decide.
Qed.

Lemma runDeferred_registry task st :
  registry (runDeferred task st).1 = registry st.
Proof.
  destruct task as [chatId vm]. simpl.
  destruct (rooms st !! chatId); [|done].
  case_bool_decide; [|done]. apply addMembersToRoom_registry.
Qed.

(** ** The scan for a user's socket *)

Lemma findSocketId_snoc uid cu kv :
  findSocketId uid (cu ++ [kv])
  = if decide (u_id kv.2 = uid) then Some kv.1 else findSocketId uid cu.
Proof. unfold findSocketId. by rewrite foldl_app. Qed.

Lemma findSocketId_Some uid cu s :
  findSocketId uid cu = Some s → ∃ u, (s, u) ∈ cu ∧ u_id u = uid.
Proof.
  induction cu as [|[s0 u0] cu IH] using rev_ind; [done|].
  rewrite findSocketId_snoc. simpl. case_decide as Hid.
  - intros [= ->]. exists u0. split; [|done].
    apply elem_of_app. right. left.
  - intros H. destruct (IH H) as (u & Hin & Hu).
    exists u. split; [|done]. apply elem_of_app. by left.
Qed.

Lemma findSocketId_None uid cu s u :
  findSocketId uid cu = None → (s, u) ∈ cu → u_id u ≠ uid.
Proof.
  induction cu as [|[s0 u0] cu IH] using rev_ind.
  - intros _ Hin. by apply elem_of_nil in Hin.
  - rewrite findSocketId_snoc. simpl. case_decide as Hid; [done|].
    intros H [Hin|Hin]%elem_of_app; [by apply IH|].
    apply list_elem_of_singleton in Hin as [= -> ->]. done.
Qed.

(** ** Well-formed registries *)

Lemma wellFormed_registry st st' :
  registry st' = registry st → wellFormed st → wellFormed st'.
Proof.
  unfold registry. intros [= Hcu Hss] [H1 H2 H3 H5 H4].
  split; rewrite ?Hcu, ?Hss; done.
Qed.

Lemma wellFormed_initial : wellFormed initialState.
Proof.
  split; simpl; try done.
  apply NoDup_nil_2.
Qed.

(** On a well-formed state the scan finds the one socket a user is
    registered on. *)
Lemma findSocketId_registered st uid s u :
  wellFormed st →
  JsMap.get s (connectedUsers st) = Some u → u_id u = uid →
  findSocketId uid (connectedUsers st) = Some s.
Proof.
  intros Hwf Hget Hu.
  destruct (findSocketId uid (connectedUsers st)) as [s'|] eqn:Hfind.
  - apply findSocketId_Some in Hfind as (u' & Hin & Hu').
    apply elem_of_get in Hin; [|by apply wf_keys].
    f_equal. eapply wf_unique; eauto. congruence.
  - exfalso. eapply findSocketId_None; eauto. by apply get_elem_of.
Qed.

Lemma memberSocket_Some st uid ms :
  wellFormed st →
  memberSocket uid st = Some ms ↔
  ∃ u, JsMap.get ms (connectedUsers st) = Some u ∧ u_id u = uid.
Proof.
  intros Hwf. unfold memberSocket. split.
  - destruct (findSocketId uid (connectedUsers st)) as [s|] eqn:Hfind; [|done].
    destruct (Js.truthy s && bool_decide (s ∈ sockets st)); [|done].
    intros [= ->].
    apply findSocketId_Some in Hfind as (u & Hin & Hu).
    exists u. split; [|done]. apply elem_of_get; [by apply wf_keys|done].
  - intros (u & Hget & Hu).
    rewrite (findSocketId_registered st uid ms u) by done.
    assert (ms ∈ sockets st) as Hlive by (by eapply wf_live).
    rewrite (wf_truthy st Hwf ms Hlive).
    by rewrite bool_decide_eq_true_2.
Qed.

Lemma wellFormed_delete sid st :
  wellFormed st →
  wellFormed (with_connectedUsers (JsMap.delete sid (connectedUsers st)) st).
Proof.
  intros [H1 H2 H3 H5 H4]. split; simpl.
  - by apply NoDup_keys_delete.
  - intros s1 u1 s2 u2. rewrite !get_delete.
    repeat case_decide; try done. apply H2.
  - intros s u. rewrite get_delete. case_decide; [done|]. apply H3.
  - intros s u. rewrite get_delete. case_decide; [done|]. apply H5.
  - done.
Qed.

Lemma wellFormed_dropSocket sid st :
  wellFormed st →
  wellFormed (with_connectedUsers (JsMap.delete sid (connectedUsers st))
                (dropSocket sid st)).
Proof.
  intros [H1 H2 H3 H5 H4]. split; simpl.
  - by apply NoDup_keys_delete.
  - intros s1 u1 s2 u2. rewrite !get_delete.
    repeat case_decide; try done. apply H2.
  - intros s u. rewrite get_delete. case_decide as Hs; [done|].
    intros Hget. apply elem_of_difference. split; [by eapply H3|].
    by intros ?%elem_of_singleton.
  - intros s u. rewrite get_delete. case_decide; [done|]. apply H5.
  - intros s [Hs _]%elem_of_difference. by apply H4.
Qed.

Lemma onDisconnect_connectedUsers sid st :
  (onDisconnect sid st).1
  = with_connectedUsers (JsMap.delete sid (connectedUsers st)) st.
Proof.
  unfold onDisconnect. destruct (JsMap.get _ _) as [user|]; [|done].
  by destruct (Js.blank _).
Qed.

Lemma forceDisconnect_state sid st :
  (forceDisconnect sid st).1
  = with_connectedUsers (JsMap.delete sid (connectedUsers st)) (dropSocket sid st).
Proof.
  unfold forceDisconnect.
  pose proof (onDisconnect_connectedUsers sid (dropSocket sid st)) as H.
  destruct (onDisconnect sid (dropSocket sid st)) as [st' fx]. by simpl in *.
Qed.

Lemma forceDisconnect_effects sid st :
  ForceDisconnect sid ∈ (forceDisconnect sid st).2.
Proof.
  unfold forceDisconnect.
  destruct (onDisconnect sid (dropSocket sid st)) as [st' fx]. simpl. left.
Qed.

(** ** Registration keeps the registry well formed *)

Lemma truthy_trim name :
  Js.blank (Some name) = false → Js.truthy (Js.trim name) = true.
Proof.
  unfold Js.blank. intros [_ Hne]%orb_false_iff.
  apply bool_decide_eq_false in Hne. by destruct (Js.trim name).
Qed.

Lemma wellFormed_register st sid usr :
  wellFormed st → sid ∈ sockets st →
  Js.truthy (u_username usr) = true →
  (∀ s u, JsMap.get s (connectedUsers st) = Some u →
          u_id u = u_id usr → s = sid) →
  wellFormed (with_connectedUsers (JsMap.set sid usr (connectedUsers st)) st).
Proof.
  intros [H1 H2 H3 H5 H4] Hsid Hname Hfresh. split; simpl.
  - by apply NoDup_keys_set.
  - intros s1 u1 s2 u2. rewrite !get_set.
    destruct (decide (sid = s1)) as [<-|Hn1], (decide (sid = s2)) as [<-|Hn2];
      try done.
    + intros [= <-] Hget Hid. symmetry. eapply Hfresh; eauto.
    + intros Hget [= <-] Hid. eapply Hfresh; eauto.
    + apply H2.
  - intros s u. rewrite get_set. case_decide as Hs; [by subst|]. apply H3.
  - intros s u. rewrite get_set. case_decide as Hs; [by intros [= <-]|].
    apply H5.
  - done.
Qed.

Lemma delete_delete {V} k (m : list (string * V)) :
  JsMap.delete k (JsMap.delete k m) = JsMap.delete k m.
Proof.
  induction m as [|[k0 v0] m IH]; simpl; [done|].
  case_decide; simpl; [done|]. rewrite decide_False by done. by rewrite IH.
Qed.

Lemma takeOver_spec st userId sid :
  wellFormed st → sid ∈ sockets st →
  let st1 := (takeOver userId sid st).1 in
  wellFormed st1 ∧ sid ∈ sockets st1 ∧
  (∀ s u, JsMap.get s (connectedUsers st1) = Some u → u_id u = userId → s = sid) ∧
  (∀ old u, JsMap.get old (connectedUsers st) = Some u → u_id u = userId →
            old ≠ sid →
            JsMap.get old (connectedUsers st1) = None ∧ (old ∉ sockets st1) ∧
            ForceDisconnect old ∈ (takeOver userId sid st).2).
Proof.
  intros Hwf Hsid. unfold takeOver.
  destruct (findSocketId userId (connectedUsers st)) as [old|] eqn:Hfind.
  - destruct (findSocketId_Some _ _ _ Hfind) as (uo & Hino & Huo).
    apply elem_of_get in Hino; [|by apply wf_keys].
    assert (old ∈ sockets st) as Hlive by (by eapply wf_live).
    assert (∀ s u, JsMap.get s (connectedUsers st) = Some u →
                   u_id u = userId → s = old) as Honly.
    { intros s u Hget Hu. eapply wf_unique; eauto. congruence. }
    rewrite (wf_truthy st Hwf old Hlive). simpl.
    case_bool_decide as Hold; simpl.
    + (* the user registers again on the same socket *)
      subst old. split; [done|]. split; [done|]. split; [done|].
      intros s u Hget Hu Hne. by destruct (Hne (Honly s u Hget Hu)).
    + rewrite bool_decide_eq_true_2 by done.
      rewrite forceDisconnect_state. simpl. rewrite delete_delete.
      split; [apply (wellFormed_dropSocket old st Hwf)|].
      split.
      { apply elem_of_difference. split; [done|].
        intros ?%elem_of_singleton. by subst. }
      split.
      { intros s u. rewrite get_delete. case_decide as Hs; [done|].
        intros Hget Hu. by destruct (Hs (eq_sym (Honly s u Hget Hu))). }
      intros s u Hget Hu Hne. rewrite (Honly s u Hget Hu).
      split; [by rewrite get_delete, decide_True|].
      split; [|apply forceDisconnect_effects].
      intros [_ Hn]%elem_of_difference. apply Hn. by apply elem_of_singleton.
  - assert (∀ s u, JsMap.get s (connectedUsers st) = Some u → u_id u ≠ userId)
      as Hnone.
    { intros s u Hget. eapply findSocketId_None; eauto. by apply get_elem_of. }
    simpl. split; [done|]. split; [done|]. split.
    + intros s u Hget Hu. by destruct (Hnone s u Hget).
    + intros s u Hget Hu. by destruct (Hnone s u Hget).
Qed.

Lemma joinGroupRooms_registry sid (groups : list GroupSummary) st :
  registry (foldl (fun s g => joinRoom sid (gs_chatId g) s) st groups)
  = registry st.
Proof.
  revert st. induction groups as [|g groups IH]; intros st; simpl; [done|].
  by rewrite IH.
Qed.

(** The registry a valid [join] leaves behind. *)
Lemma onJoin_registry now sid userId username st :
  Js.truthy userId = true → Js.blank (Some username) = false →
  registry (onJoin now sid (mkJoinData (Some userId) (Some username)) st).1
  = (JsMap.set sid (mkUser userId (Js.trim username) sid now)
       (connectedUsers (takeOver userId sid st).1),
     sockets (takeOver userId sid st).1)
  ∧ ∀ e, e ∈ (takeOver userId sid st).2 →
         e ∈ (onJoin now sid (mkJoinData (Some userId) (Some username)) st).2.
Proof.
  intros Hu Hn. unfold onJoin. simpl. rewrite Hu, Hn. simpl.
  destruct (takeOver userId sid st) as [st1 fx1]. simpl.
  destruct (userGroupsOf _ _) as [|g gs]; simpl.
  - split; [done|]. intros e He. apply elem_of_app. by left.
  - split.
    + by rewrite (joinGroupRooms_registry sid gs).
    + intros e He. apply elem_of_app. by left.
Qed.

Lemma onJoin_invalid_registry now sid d st :
  (match j_userId d, j_username d with
   | Some userId, Some username =>
       negb (Js.truthy userId) || Js.blank (Some username)
   | _, _ => true
   end) = true →
  onJoin now sid d st = (st, [Emit sid (PError "Invalid user data" None)]).
Proof.
  unfold onJoin. destruct (j_userId d), (j_username d); try done.
  by intros ->.
Qed.

Lemma onJoin_wellFormed now sid d st :
  wellFormed st → sid ∈ sockets st → wellFormed (onJoin now sid d st).1.
Proof.
  intros Hwf Hsid.
  destruct (match j_userId d, j_username d with
            | Some userId, Some username =>
                negb (Js.truthy userId) || Js.blank (Some username)
            | _, _ => true
            end) eqn:Hvalid.
  { by rewrite onJoin_invalid_registry. }
  destruct d as [[userId|] [username|]]; simpl in Hvalid; try done.
  apply orb_false_iff in Hvalid as [Hu%negb_false_iff Hn].
  destruct (onJoin_registry now sid userId username st Hu Hn) as [Hreg _].
  destruct (takeOver_spec st userId sid Hwf Hsid) as (Hwf1 & Hsid1 & Honly & _).
  eapply wellFormed_registry;
    [|apply (wellFormed_register _ sid
               (mkUser userId (Js.trim username) sid now) Hwf1 Hsid1
               (truthy_trim username Hn) Honly)].
  by rewrite Hreg.
Qed.

Lemma onUsernameChange_wellFormed now sid d st :
  wellFormed st → sid ∈ sockets st →
  wellFormed (onUsernameChange now sid d st).1.
Proof.
  intros Hwf Hsid. unfold onUsernameChange.
  destruct (Js.blank (uc_newUsername d)) eqn:Hb; [done|]. simpl.
  destruct (JsMap.get sid (connectedUsers st)) as [user|] eqn:Hget; [|done].
  destruct (uc_newUsername d) as [newName|]; [|done].
  apply wellFormed_register; [done..|by apply truthy_trim|]. simpl.
  intros s u Hs Hu. eapply wf_unique; eauto.
Qed.

(** Every turn of the loop keeps the registry well formed. *)
Lemma step_wellFormed e st : wellFormed st → wellFormed (step e st).1.
Proof.
  intros Hwf.
  destruct e as [sid|sid|now sid d|now sid d|now sid d|sid d|now sid d
                |sid chatId|sid d|task]; simpl.
  - (* Connect *)
    destruct (Js.truthy sid) eqn:Ht; simpl; [|done].
    destruct (bool_decide (sid ∈ sockets st)); simpl; [done|].
    destruct Hwf as [H1 H2 H3 H5 H4]. split; simpl; try done.
    + intros s u Hget. apply elem_of_union. right. by eapply H3.
    + intros s [->%elem_of_singleton|Hs]%elem_of_union; [done|by apply H4].
  - (* Close *)
    unfold whenConnected. case_bool_decide; [|done].
    rewrite onDisconnect_connectedUsers. exact (wellFormed_dropSocket sid st Hwf).
  - unfold whenConnected. case_bool_decide; [|done].
    by apply onJoin_wellFormed.
  - unfold whenConnected. case_bool_decide; [|done].
    eapply wellFormed_registry; [apply onJoinChat_registry|done].
  - unfold whenConnected. case_bool_decide; [|done].
    eapply wellFormed_registry; [apply onMessage_registry|done].
  - unfold whenConnected. case_bool_decide; [|done].
    eapply wellFormed_registry; [apply onTyping_registry|done].
  - unfold whenConnected. case_bool_decide; [|done].
    by apply onUsernameChange_wellFormed.
  - unfold whenConnected. case_bool_decide; [|done].
    eapply wellFormed_registry; [apply onGetGroupInfo_registry|done].
  - unfold whenConnected. case_bool_decide; [|done].
    eapply wellFormed_registry; [apply onDeleteGroup_registry|done].
  - eapply wellFormed_registry; [apply runDeferred_registry|done].
Qed.

Lemma run_snoc evs e st : run (evs ++ [e]) st = (step e (run evs st)).1.
Proof. unfold run. by rewrite foldl_app. Qed.

Lemma run_wellFormed evs : wellFormed (run evs initialState).
Proof.
  induction evs as [|e evs IH] using rev_ind.
  - apply wellFormed_initial.
  - rewrite run_snoc. by apply step_wellFormed.
Qed.

(** A registered session is a live one: its socket is connected. *)
Lemma registered_is_connected evs uid sid :
  let st := run evs initialState in
  registeredOn st uid sid → sid ∈ sockets st.
Proof.
  intros st (u & Hget & _). eapply wf_live; [apply run_wellFormed|done].
Qed.

(** ** Sessions per user *)

Lemma sessionsOf_nil uid cu :
  (∀ s u, (s, u) ∈ cu → u_id u ≠ uid) → sessionsOf uid cu = [].
Proof.
  unfold sessionsOf. induction cu as [|[k v] cu IH]; intros Hno; [done|].
  rewrite filter_cons_False.
  - apply IH. intros s u Hin. apply (Hno s u). by right.
  - simpl. apply (Hno k v). left.
Qed.

Lemma sessionsOf_singleton uid cu sid usr :
  NoDup cu.*1 →
  JsMap.get sid cu = Some usr → u_id usr = uid →
  (∀ s u, JsMap.get s cu = Some u → u_id u = uid → s = sid) →
  sessionsOf uid cu = [(sid, usr)].
Proof.
  unfold sessionsOf.
  induction cu as [|[k v] cu IH]; intros Hnd Hget Hu Honly; [done|].
  apply NoDup_cons in Hnd as [Hk Hnd]. simpl in Hget.
  assert (∀ s u, (s, u) ∈ cu → JsMap.get s ((k, v) :: cu) = Some u) as Hlater.
  { intros s u Hin. simpl. rewrite decide_False; [by apply elem_of_get|].
    intros ->. apply Hk. apply list_elem_of_fmap. by exists (s, u). }
  destruct (decide (k = sid)) as [->|Hne].
  - injection Hget as ->. rewrite filter_cons_True by done. f_equal.
    apply sessionsOf_nil. intros s u Hin Hid.
    assert (s = sid) as -> by (eapply Honly; eauto).
    apply Hk. apply list_elem_of_fmap. by exists (sid, u).
  - rewrite filter_cons_False.
    + apply IH; try done. intros s u Hs Hid.
      apply (Honly s u); [|done]. apply Hlater. by apply get_elem_of.
    + simpl. intros Hv. apply Hne. apply (Honly k v); [|done].
      simpl. by rewrite decide_True.
Qed.

Lemma sessionsOf_bound st uid :
  wellFormed st → length (sessionsOf uid (connectedUsers st)) ≤ 1.
Proof.
  intros Hwf.
  destruct (findSocketId uid (connectedUsers st)) as [s|] eqn:Hfind.
  - destruct (findSocketId_Some _ _ _ Hfind) as (u & Hin & Hu).
    apply elem_of_get in Hin; [|by apply wf_keys].
    rewrite (sessionsOf_singleton uid _ s u); [simpl; lia|by apply wf_keys|done..|].
    intros s' u' Hget Hu'. eapply wf_unique; eauto. congruence.
  - rewrite sessionsOf_nil; [simpl; lia|].
    intros s u Hin. by eapply findSocketId_None.
Qed.

(** C2.  Whatever events the server has handled, no user id is
    registered on more than one socket.  A valid [join] for a user id on
    the socket [sid] leaves exactly one session for that user, the new
    one; a session the user had on another socket is removed from the
    registry and its socket is disconnected. *)
Theorem one_session_per_user (evs : list Event) :
  let st := run evs initialState in
  (∀ uid, length (sessionsOf uid (connectedUsers st)) ≤ 1) ∧
  (∀ now sid userId username,
     sid ∈ sockets st →
     Js.truthy userId = true → Js.blank (Some username) = false →
     let res := onJoin now sid (mkJoinData (Some userId) (Some username)) st in
     sessionsOf userId (connectedUsers res.1)
     = [(sid, mkUser userId (Js.trim username) sid now)] ∧
     (∀ old, old ≠ sid → registeredOn st userId old →
             JsMap.get old (connectedUsers res.1) = None ∧
             (old ∉ sockets res.1) ∧
             ForceDisconnect old ∈ res.2)).
Proof.
  intros st. pose proof (run_wellFormed evs) as Hwf. fold st in Hwf.
  split; [intros uid; by apply sessionsOf_bound|].
  intros now sid userId username Hsid Hu Hn res.
  destruct (onJoin_registry now sid userId username st Hu Hn) as [Hreg Hfx].
  fold res in Hreg, Hfx. unfold registry in Hreg.
  injection Hreg as Hcu Hss.
  destruct (takeOver_spec st userId sid Hwf Hsid) as (Hwf1 & Hsid1 & Honly & Hold).
  split.
  - rewrite Hcu. apply sessionsOf_singleton.
    + apply NoDup_keys_set. by apply wf_keys.
    + by rewrite get_set, decide_True.
    + done.
    + intros s u. rewrite get_set. case_decide as Hs; [done|]. apply Honly.
  - intros old Hne (u & Hget & Hid).
    destruct (Hold old u Hget Hid Hne) as (Hgone & Hdead & Heff).
    rewrite Hcu, Hss, get_set. rewrite decide_False by done.
    split; [done|]. split; [done|]. by apply Hfx.
Qed.

(** Bob, registered on [sB], registers again from the new socket [sB2]:
    the session on [sB] is gone. *)
Lemma one_session_per_user_witness :
  let st := run (Scenario.online ++ [Connect "sB2"]) initialState in
  let res := onJoin 12 "sB2" (mkJoinData (Some "uB") (Some "Bob")) st in
  sessionsOf "uB" (connectedUsers res.1) = [("sB2", mkUser "uB" "Bob" "sB2" 12)] ∧
  JsMap.get "sB" (connectedUsers res.1) = None ∧
  ("sB" ∉ sockets res.1) ∧
  ForceDisconnect "sB" ∈ res.2.
Proof.
  intros st res.
  destruct (one_session_per_user (Scenario.online ++ [Connect "sB2"]))
    as [_ Hjoin].
  destruct (Hjoin 12%N "sB2" "uB" "Bob") as [Hnew Hold];
    [by vm_compute | reflexivity | reflexivity |].
  split; [exact Hnew|].
  apply (Hold "sB"); [discriminate|].
  exists (mkUser "uB" "Bob" "sB" 11). split; reflexivity.
Defined.

(** ** The direct-chat id *)

Lemma sort_pair a b :
  Js.sort [a; b] = if Js.before b a then [b; a] else [a; b].
Proof. reflexivity. Qed.

(** C9.  The direct-chat id does not depend on which of the two users
    starts the chat: the two ids are sorted before they are joined. *)
Theorem directChatId_symmetric (a b : string) :
  directChatId a b = directChatId b a.
Proof.
  unfold directChatId. rewrite !sort_pair. unfold Js.before, String.ltb.
  rewrite (String.compare_antisym b a).
  destruct (String.compare a b) eqn:Hab; simpl; try reflexivity.
  apply String.compare_eq_iff in Hab. by subst.
Qed.

Example directChatId_example :
  directChatId "uB" "uA" = "uA-uB" ∧ directChatId "uA" "uB" = "uA-uB".
Proof. split; reflexivity. Qed.

(** ** Deleting a group *)

(** C4.  A [deleteGroup] request from someone other than the recorded
    creator changes nothing and answers the requester alone with the
    [unauthorized_delete] error; a request naming a chat id without a
    group record changes nothing and answers the requester alone with
    the [group_not_found] error. *)
Theorem deleteGroup_refused (sid : string) (d : DeleteGroupData) (st : State) :
  (∀ group,
     JsMap.get (dg_chatId d) (groupChats st) = Some group →
     g_createdBy group ≠ dg_userId d →
     onDeleteGroup sid d st
     = (st, [Emit sid (PError "You are not authorized to delete this group"
                         (Some "unauthorized_delete"))])) ∧
  (JsMap.get (dg_chatId d) (groupChats st) = None →
   onDeleteGroup sid d st
   = (st, [Emit sid (PError "Group not found" (Some "group_not_found"))])).
Proof.
  unfold onDeleteGroup. split.
  - intros group -> Hne. by rewrite decide_False.
  - by intros ->.
Qed.

(** Bob asks to delete the group Ann created; then he asks to delete a
    group that does not exist. *)
Lemma deleteGroup_refused_witness :
  let st := run (Scenario.online ++ [Scenario.createTeam "group-1"]) initialState in
  onDeleteGroup "sB" (mkDeleteGroupData "group-1" (Some "uB") (Some "Bob")) st
  = (st, [Emit "sB" (PError "You are not authorized to delete this group"
                       (Some "unauthorized_delete"))]) ∧
  onDeleteGroup "sB" (mkDeleteGroupData "group-2" (Some "uB") (Some "Bob")) st
  = (st, [Emit "sB" (PError "Group not found" (Some "group_not_found"))]).
Proof.
  intros st. split.
  - apply (proj1 (deleteGroup_refused "sB"
                    (mkDeleteGroupData "group-1" (Some "uB") (Some "Bob")) st)
             (mkGroup "group-1" "Team" (Some "uA") 20
                [mkMember "uA" "Ann"; mkMember "uB" "Bob"])).
    + reflexivity.
    + discriminate.
  - apply (proj2 (deleteGroup_refused "sB"
                    (mkDeleteGroupData "group-2" (Some "uB") (Some "Bob")) st)).
    reflexivity.
Defined.

(** ** Validation of a group payload *)



(** ** Creating and updating a group *)

(** What an accepted group payload stores: the record is written anew,
    with the caller as [createdBy] and the current time as [createdAt],
    whether or not a record was there before. *)
Lemma joinChat_stores_group
    (now : N) (sid : string) (d : JoinChatData) (st : State)
    (m0 : MemberData) (ms : list MemberData) (groupName : string) :
  jc_isGroup d = true →
  jc_members d = Some (m0 :: ms) →
  jc_groupName d = Some groupName → Js.blank (Some groupName) = false →
  validMembersOf (m0 :: ms) ≠ [] →
  JsMap.get (jc_chatId d) (groupChats (onJoinChat now sid d st).1)
  = Some (mkGroup (jc_chatId d) (Js.trim groupName) (jc_userId d) now
            (storedMember <$> validMembersOf (m0 :: ms))).
Proof.
  intros Hg Hm Hname Hb Hv. unfold onJoinChat. rewrite Hg, Hm, Hname, Hb.
  destruct (validMembersOf (m0 :: ms)) as [|v vs] eqn:Hvm; [done|].
  simpl. rewrite addMembersToRoom_groupChats. simpl.
  by rewrite get_set, decide_True.
Qed.

(** C1.  The code at an input where it departs from the specification: Ann
    created the group; Bob opens it, his client sending the group payload
    under his own id.  The record's [createdBy] changes from Ann's id to
    Bob's, and Bob's request to delete the group is then accepted. *)
Theorem joinChat_update_overwrites_creator :
  let st := run (Scenario.online ++ [Scenario.createTeam "group-1"]) initialState in
  let res := onJoinChat 30 "sB" (Scenario.teamPayload "group-1" "uB" "Bob") st in
  g_createdBy <$> JsMap.get "group-1" (groupChats st) = Some (Some "uA") ∧
  g_createdBy <$> JsMap.get "group-1" (groupChats res.1) = Some (Some "uB") ∧
  g_createdAt <$> JsMap.get "group-1" (groupChats res.1) = Some 30%N ∧
  (onDeleteGroup "sB" (mkDeleteGroupData "group-1" (Some "uB") (Some "Bob")) res.1).2
  = [Emit "sA" (PGroupDeleted "group-1" "Team" (Some "Bob"));
     Emit "sB" (PGroupDeleted "group-1" "Team" (Some "Bob"));
     Emit "sB" (PGroupDeleteSuccess "group-1" "Team")].
Proof. vm_compute. repeat split. Qed.

(** ** Asking for a group's record *)

(** A request naming a recorded group is answered with the record, and
    the requester's socket joins the room. *)
Lemma getGroupInfo_known (sid chatId : string) (st : State) (group : Group) :
  JsMap.get chatId (groupChats st) = Some group →
  (onGetGroupInfo sid chatId st).2
  = [Emit sid (PGroupInfo chatId (g_name group) (g_members group)
                 (g_createdBy group) (g_createdAt group))] ∧
  sid ∈ subscribersOf chatId (onGetGroupInfo sid chatId st).1.
Proof.
  intros Hget. unfold onGetGroupInfo. rewrite Hget. simpl. split; [done|].
  unfold subscribersOf. simpl. rewrite lookup_insert_eq. simpl.
  apply elem_of_union. left. by apply elem_of_singleton.
Qed.

(** C7.  The code at an input where it departs from the specification: Ann
    created a group and deleted it; Bob then asks for its record.  The
    handler changes nothing and emits nothing, so Bob gets no answer at
    all, while the sibling [deleteGroup] answers the same situation with
    [group_not_found]. *)
Theorem getGroupInfo_unknown_is_silent :
  let st := run (Scenario.online
                 ++ [Scenario.createTeam "group-1";
                     DeleteGroup "sA" (Scenario.annDeletes "group-1")])
                initialState in
  JsMap.get "group-1" (groupChats st) = None ∧
  onGetGroupInfo "sB" "group-1" st = (st, []) ∧
  (onDeleteGroup "sB" (mkDeleteGroupData "group-1" (Some "uB") (Some "Bob")) st).2
  = [Emit "sB" (PError "Group not found" (Some "group_not_found"))].
Proof. repeat split. Qed.

(** ** Notices to the members of a group *)

Lemma registeredOn_registry st st' uid ms :
  registry st' = registry st → registeredOn st' uid ms ↔ registeredOn st uid ms.
Proof. unfold registry, registeredOn. by intros [= -> _]. Qed.

Lemma notifyDeleted_elem st p members e :
  wellFormed st →
  e ∈ notifyDeleted p members st ↔
  ∃ member ms, member ∈ members ∧ registeredOn st (m_id member) ms ∧ e = Emit ms p.
Proof.
  intros Hwf. unfold notifyDeleted.
  rewrite list_elem_of_In, in_flat_map. split.
  - intros (member & Hin & He). apply list_elem_of_In in Hin.
    destruct (memberSocket (m_id member) st) as [ms|] eqn:Hms.
    + apply list_elem_of_In, list_elem_of_singleton in He.
      exists member, ms. split; [done|]. split; [|done].
      by apply memberSocket_Some.
    + by apply list_elem_of_In, elem_of_nil in He.
  - intros (member & ms & Hin & Hreg & ->).
    exists member. split; [by apply list_elem_of_In|].
    apply (memberSocket_Some st _ _ Hwf) in Hreg. rewrite Hreg.
    apply list_elem_of_In. left.
Qed.

(** C3, as the code has it.  A [deleteGroup] request by the recorded
    creator removes the group record and the chat-room record, leaves
    every room subscription as it was, sends [groupDeleted] to the socket
    of every member of the removed record who is registered, and ends by
    acknowledging to the requester; nothing else is emitted. *)
Theorem deleteGroup_by_creator
    (evs : list Event) (sid : string) (d : DeleteGroupData) (group : Group) :
  let st := run evs initialState in
  JsMap.get (dg_chatId d) (groupChats st) = Some group →
  g_createdBy group = dg_userId d →
  let res := onDeleteGroup sid d st in
  let notice := PGroupDeleted (dg_chatId d) (g_name group) (dg_username d) in
  let ack := Emit sid (PGroupDeleteSuccess (dg_chatId d) (g_name group)) in
  JsMap.get (dg_chatId d) (groupChats res.1) = None ∧
  JsMap.get (dg_chatId d) (chatRooms res.1) = None ∧
  rooms res.1 = rooms st ∧
  registry res.1 = registry st ∧
  (∀ member ms, member ∈ g_members group → registeredOn st (m_id member) ms →
                Emit ms notice ∈ res.2) ∧
  last res.2 = Some ack ∧
  (∀ e, e ∈ res.2 →
        e = ack ∨
        ∃ member ms, member ∈ g_members group ∧
                     registeredOn st (m_id member) ms ∧ e = Emit ms notice).
Proof.
  intros st Hget Hcreator res notice ack.
  pose proof (run_wellFormed evs) as Hwf. fold st in Hwf.
  set (st1 := with_chatRooms (JsMap.delete (dg_chatId d) (chatRooms st))
                (with_groupChats (JsMap.delete (dg_chatId d) (groupChats st)) st)).
  assert (res = (st1, notifyDeleted notice (g_members group) st1 ++ [ack]))
    as Hres.
  { subst res. unfold onDeleteGroup. rewrite Hget. by rewrite decide_True. }
  assert (wellFormed st1) as Hwf1
    by (apply (wellFormed_registry st st1); [reflexivity|exact Hwf]).
  rewrite Hres. simpl.
  split; [by rewrite get_delete, decide_True|].
  split; [by rewrite get_delete, decide_True|].
  split; [done|]. split; [done|]. split; [|split].
  - intros member ms Hin Hreg. apply elem_of_app. left.
    apply notifyDeleted_elem; [done|]. by exists member, ms.
  - apply last_snoc.
  - intros e [He|He]%elem_of_app.
    + right. by apply notifyDeleted_elem in He.
    + left. by apply list_elem_of_singleton in He.
Qed.

(** Ann deletes the group she created while Bob is registered. *)
Lemma deleteGroup_by_creator_witness :
  let st := run (Scenario.online ++ [Scenario.createTeam "group-1"]) initialState in
  let res := onDeleteGroup "sA" (Scenario.annDeletes "group-1") st in
  JsMap.get "group-1" (groupChats res.1) = None ∧
  JsMap.get "group-1" (chatRooms res.1) = None ∧
  rooms res.1 = rooms st ∧
  Emit "sB" (PGroupDeleted "group-1" "Team" (Some "Ann")) ∈ res.2 ∧
  last res.2 = Some (Emit "sA" (PGroupDeleteSuccess "group-1" "Team")).
Proof.
  intros st res.
  destruct (deleteGroup_by_creator
              (Scenario.online ++ [Scenario.createTeam "group-1"]) "sA"
              (Scenario.annDeletes "group-1")
              (mkGroup "group-1" "Team" (Some "uA") 20
                 [mkMember "uA" "Ann"; mkMember "uB" "Bob"]))
    as (Hgroup & Hroom & Hrooms & _ & Hnotice & Hack & _).
  - reflexivity.
  - reflexivity.
  - split; [exact Hgroup|]. split; [exact Hroom|]. split; [exact Hrooms|].
    split; [|exact Hack].
    apply (Hnotice (mkMember "uB" "Bob") "sB").
    + right. left.
    + exists (mkUser "uB" "Bob" "sB" 11). split; reflexivity.
Defined.

(** C3, as the specification states it, fails on the subscriptions:
    after Ann deletes the group she created, the sockets of Ann and Bob
    are still subscribed to its room. *)
Lemma deleteGroup_keeps_subscribers :
  let st := run (Scenario.online ++ [Scenario.createTeam "group-1"]) initialState in
  let res := onDeleteGroup "sA" (Scenario.annDeletes "group-1") st in
  g_createdBy <$> JsMap.get "group-1" (groupChats st) = Some (Some "uA") ∧
  JsMap.get "group-1" (groupChats res.1) = None ∧
  "sA" ∈ subscribersOf "group-1" res.1 ∧
  "sB" ∈ subscribersOf "group-1" res.1.
Proof. repeat split; by vm_compute. Qed.

(** ** The subscribe pass *)

Lemma subscribersOf_joinRoom sid room room' st :
  subscribersOf room' (joinRoom sid room st)
  = if decide (room = room') then {[sid]} ∪ subscribersOf room' st
    else subscribersOf room' st.
Proof.
  unfold subscribersOf, joinRoom. simpl. case_decide as Hr.
  - subst. by rewrite lookup_insert_eq.
  - by rewrite lookup_insert_ne.
Qed.

Lemma addMembersToRoom_cons chatId uid uids st :
  addMembersToRoom chatId (uid :: uids) st
  = addMembersToRoom chatId uids
      (match memberSocket uid st with
       | Some ms => joinRoom ms chatId st
       | None => st
       end).
Proof. reflexivity. Qed.

Lemma addMembersToRoom_mono chatId uids st room s :
  s ∈ subscribersOf room st →
  s ∈ subscribersOf room (addMembersToRoom chatId uids st).
Proof.
  revert st. induction uids as [|uid uids IH]; intros st Hs; [done|].
  rewrite addMembersToRoom_cons. apply IH.
  destruct (memberSocket uid st) as [ms|]; [|done].
  rewrite subscribersOf_joinRoom. case_decide; [|done].
  apply elem_of_union. by right.
Qed.

(** After the pass every listed user who is registered is subscribed. *)
Lemma addMembersToRoom_subscribes chatId uids st uid ms :
  wellFormed st → uid ∈ uids → registeredOn st uid ms →
  ms ∈ subscribersOf chatId (addMembersToRoom chatId uids st).
Proof.
  revert st. induction uids as [|uid0 uids IH]; intros st Hwf Hin Hreg.
  - by apply elem_of_nil in Hin.
  - rewrite addMembersToRoom_cons.
    apply elem_of_cons in Hin as [->|Hin].
    + apply addMembersToRoom_mono.
      apply (memberSocket_Some st _ _ Hwf) in Hreg. rewrite Hreg.
      rewrite subscribersOf_joinRoom, decide_True by done.
      apply elem_of_union. left. by apply elem_of_singleton.
    + apply IH; [|done|].
      * destruct (memberSocket uid0 st); [|done].
        by apply (wellFormed_registry st).
      * destruct (memberSocket uid0 st); [|done].
        by apply (registeredOn_registry st).
Qed.

(** The pass only ever adds sockets of the listed users. *)
Lemma addMembersToRoom_adds chatId uids st room s :
  wellFormed st →
  s ∈ subscribersOf room (addMembersToRoom chatId uids st) →
  s ∈ subscribersOf room st ∨
  (room = chatId ∧ ∃ uid, uid ∈ uids ∧ registeredOn st uid s).
Proof.
  revert st. induction uids as [|uid0 uids IH]; intros st Hwf Hs; [by left|].
  rewrite addMembersToRoom_cons in Hs.
  destruct (memberSocket uid0 st) as [ms|] eqn:Hms.
  - apply IH in Hs; [|by apply (wellFormed_registry st)].
    destruct Hs as [Hs|(-> & uid & Hin & Hreg)].
    + rewrite subscribersOf_joinRoom in Hs. case_decide as Hr; [|by left].
      apply elem_of_union in Hs as [->%elem_of_singleton|Hs]; [|by left].
      right. split; [done|]. exists uid0. split; [left|].
      by apply memberSocket_Some.
    + right. split; [done|]. exists uid. split; [by right|].
      by apply (registeredOn_registry st) in Hreg.
  - apply IH in Hs; [|done].
    destruct Hs as [Hs|(-> & uid & Hin & Hreg)]; [by left|].
    right. split; [done|]. exists uid. split; [by right|done].
Qed.

Lemma storeMessage_rooms chatId m st : rooms (storeMessage chatId m st) = rooms st.
Proof. unfold storeMessage. by destruct (JsMap.get _ _). Qed.

Lemma startsWith_truthy a p s :
  Js.startsWith (String a p) s = true → Js.truthy s = true.
Proof. by destruct s. Qed.

Lemma unicastToMembers_elem st m members e :
  wellFormed st →
  e ∈ unicastToMembers m members st ↔
  ∃ member ms, member ∈ members ∧ Some (m_id member) ≠ msg_userId m ∧
               registeredOn st (m_id member) ms ∧ e = Emit ms (PMessage m).
Proof.
  intros Hwf. unfold unicastToMembers.
  rewrite list_elem_of_In, in_flat_map. split.
  - intros (member & Hin & He). apply list_elem_of_In in Hin.
    case_decide as Hsender; [by apply list_elem_of_In, elem_of_nil in He|].
    destruct (memberSocket (m_id member) st) as [ms|] eqn:Hms.
    + apply list_elem_of_In, list_elem_of_singleton in He.
      exists member, ms. split; [done|]. split; [done|]. split; [|done].
      by apply memberSocket_Some.
    + by apply list_elem_of_In, elem_of_nil in He.
  - intros (member & ms & Hin & Hsender & Hreg & ->).
    exists member. split; [by apply list_elem_of_In|].
    rewrite decide_False by done.
    apply (memberSocket_Some st _ _ Hwf) in Hreg. rewrite Hreg.
    apply list_elem_of_In. left.
Qed.

Lemma repairSender_routed now sid md st :
  Js.truthy_opt (msg_chatId md) = true →
  ∃ m, repairSender now sid md st = Some m.
Proof.
  intros Hchat. unfold repairSender. rewrite Hchat.
  destruct (Js.blank (msg_username md)); [|by eexists].
  destruct (JsMap.get sid (connectedUsers st)) as [user|]; [|by eexists].
  destruct (Js.truthy (u_username user)); by eexists.
Qed.

(** ** Repairing the sender's identity *)

(** C6, as the code has it.  For a message whose name is absent or
    blank: a registered sender gets the name and id of the registry
    entry and the message is routed; an unregistered sender of a message
    that names a chat gets the placeholder name when the name is absent
    or empty and keeps a name of white space as sent, keeps a user id it
    sent or else gets a made-up one, and the message is routed under
    that name, which is not empty (to a chat without group record, as
    one room broadcast); an unregistered sender of a message that names
    no chat has the message dropped. *)
Theorem sender_identity_repair
    (evs : list Event) (now : N) (sid : string) (md : MessageData) :
  let st := run evs initialState in
  Js.blank (msg_username md) = true →
  (∀ user, JsMap.get sid (connectedUsers st) = Some user →
     onMessage now sid md st
     = routeMessage sid (msg_chatId md)
         (withSender md (Some (u_username user)) (Some (u_id user))) st) ∧
  (JsMap.get sid (connectedUsers st) = None →
   Js.truthy_opt (msg_chatId md) = true →
   ∃ name uid,
     onMessage now sid md st
     = routeMessage sid (msg_chatId md)
         (withSender md (Some name) (Some uid)) st ∧
     Js.truthy name = true ∧
     (Js.truthy_opt (msg_username md) = false → name = "Unknown User") ∧
     (Js.truthy_opt (msg_username md) = true → msg_username md = Some name) ∧
     (Js.truthy_opt (msg_userId md) = false → uid = "unknown-" +:+ pretty now) ∧
     (Js.truthy_opt (msg_userId md) = true → msg_userId md = Some uid) ∧
     (∀ chatId, msg_chatId md = Some chatId →
        JsMap.get chatId (groupChats st) = None →
        (onMessage now sid md st).2
        = [ToRoom sid chatId
             (PMessage (withSender md (Some name) (Some uid)))])) ∧
  (JsMap.get sid (connectedUsers st) = None →
   Js.truthy_opt (msg_chatId md) = false →
     onMessage now sid md st = (st, [])).
Proof.
  intros st Hblank.
  pose proof (run_wellFormed evs) as Hwf. fold st in Hwf.
  split; [|split].
  - unfold onMessage, repairSender. rewrite Hblank.
    intros user Hget. rewrite Hget.
    by rewrite (wf_named st Hwf sid user Hget).
  - intros Hnone Hchat.
    exists (if Js.truthy_opt (msg_username md)
            then default EmptyString (msg_username md) else "Unknown User"),
           (if Js.truthy_opt (msg_userId md)
            then default EmptyString (msg_userId md)
            else "unknown-" +:+ pretty now).
    assert (onMessage now sid md st
            = routeMessage sid (msg_chatId md)
                (withSender md
                   (Some (if Js.truthy_opt (msg_username md)
                          then default EmptyString (msg_username md)
                          else "Unknown User"))
                   (Some (if Js.truthy_opt (msg_userId md)
                          then default EmptyString (msg_userId md)
                          else "unknown-" +:+ pretty now))) st) as Hroute.
    { unfold onMessage, repairSender. rewrite Hblank, Hnone, Hchat.
      unfold withPlaceholder. do 2 f_equal.
      - by destruct (msg_username md) as [[|a n]|].
      - by destruct (msg_userId md) as [[|a u]|]. }
    split; [exact Hroute|]. split; [|split; [|split; [|split; [|split]]]].
    + by destruct (msg_username md) as [[|a n]|].
    + by intros ->.
    + intros Hn. rewrite Hn. by destruct (msg_username md).
    + by intros ->.
    + intros Hu. rewrite Hu. by destruct (msg_userId md).
    + intros chatId Hc Hgroup. rewrite Hroute. unfold routeMessage.
      rewrite Hc in Hchat |- *. simpl in Hchat. rewrite Hchat.
      assert (JsMap.has chatId (groupChats st) = false) as Hhas
        by (apply has_false; by rewrite Hgroup).
      destruct (Js.startsWith "group-" chatId) eqn:Hprefix.
      * rewrite Hhas.
        assert ((match rooms st !! chatId with
                 | Some _ => ensureGroupMembersInRoom chatId st
                 | None => st
                 end) = st) as ->.
        { unfold ensureGroupMembersInRoom. rewrite Hprefix, Hgroup. simpl.
          by destruct (rooms st !! chatId). }
        by rewrite Hgroup.
      * by rewrite Hgroup.
  - unfold onMessage, repairSender. rewrite Hblank. by intros -> ->.
Qed.

(** A socket that never registered sends to the room [lobby] a message
    without a name and one with a name of white space; Ann, registered,
    sends a message with a name of white space to the same room. *)
Lemma sender_identity_repair_witness :
  let st := run (Scenario.online ++ [Connect "sC"]) initialState in
  (onMessage 40 "sC" (Scenario.text (Some "lobby") None None) st).2
  = [ToRoom "sC" "lobby"
       (PMessage (Scenario.text (Some "lobby") (Some "Unknown User")
                    (Some "unknown-40")))] ∧
  (onMessage 40 "sC" (Scenario.text (Some "lobby") (Some " ") None) st).2
  = [ToRoom "sC" "lobby"
       (PMessage (Scenario.text (Some "lobby") (Some " ")
                    (Some "unknown-40")))] ∧
  (onMessage 40 "sA" (Scenario.text (Some "lobby") (Some " ") None) st).2
  = [ToRoom "sA" "lobby"
       (PMessage (Scenario.text (Some "lobby") (Some "Ann") (Some "uA")))].
Proof.
  intros st.
  destruct (sender_identity_repair (Scenario.online ++ [Connect "sC"]) 40 "sC"
              (Scenario.text (Some "lobby") None None)) as (_ & Hplace & _);
    [reflexivity|].
  destruct (sender_identity_repair (Scenario.online ++ [Connect "sC"]) 40 "sC"
              (Scenario.text (Some "lobby") (Some " ") None))
    as (_ & Hspace & _); [reflexivity|].
  destruct (sender_identity_repair (Scenario.online ++ [Connect "sC"]) 40 "sA"
              (Scenario.text (Some "lobby") (Some " ") None)) as (Hreg & _ & _);
    [reflexivity|].
  split; [|split].
  - destruct Hplace as (name & uid & _ & _ & Hname & _ & Huid & _ & Hfx);
      [reflexivity..|].
    fold st in Hfx. rewrite (Hfx "lobby" eq_refl eq_refl).
    by rewrite (Hname eq_refl), (Huid eq_refl).
  - destruct Hspace as (name & uid & _ & _ & _ & Hname & Huid & _ & Hfx);
      [reflexivity..|].
    fold st in Hfx. rewrite (Hfx "lobby" eq_refl eq_refl).
    injection (Hname eq_refl) as <-. by rewrite (Huid eq_refl).
  - fold st in Hreg.
    rewrite (Hreg (mkUser "uA" "Ann" "sA" 10)); reflexivity.
Defined.

(** C6, as the specification states it, fails when the message names no
    chat: the nameless message of a socket that never registered is
    dropped, with Ann and Bob connected and nothing emitted to them. *)
Lemma nameless_global_message_is_dropped :
  let st := run (Scenario.online ++ [Connect "sC"]) initialState in
  let md := Scenario.text None None None in
  Js.blank (msg_username md) = true ∧
  JsMap.get "sC" (connectedUsers st) = None ∧
  onMessage 40 "sC" md st = (st, []).
Proof. repeat split. Qed.

(** ** Rooms are never empty *)

Lemma noEmptyRoom_rooms st st' :
  rooms st' = rooms st → noEmptyRoom st → noEmptyRoom st'.
Proof. unfold noEmptyRoom. by intros ->. Qed.

Lemma noEmptyRoom_joinRoom sid room st :
  noEmptyRoom st → noEmptyRoom (joinRoom sid room st).
Proof.
  intros H r S. unfold joinRoom. simpl. rewrite lookup_insert.
  case_decide; [|apply H]. intros [= <-]. set_solver.
Qed.

Lemma noEmptyRoom_dropSocket sid st : noEmptyRoom (dropSocket sid st).
Proof.
  intros r S. unfold dropSocket, leaveAll. simpl.
  intros [_ HS]%map_lookup_filter_Some. exact HS.
Qed.

Lemma noEmptyRoom_addMembersToRoom chatId uids st :
  noEmptyRoom st → noEmptyRoom (addMembersToRoom chatId uids st).
Proof.
  revert st. induction uids as [|uid uids IH]; intros st H; [done|].
  rewrite addMembersToRoom_cons. apply IH.
  destruct (memberSocket uid st); [by apply noEmptyRoom_joinRoom|done].
Qed.

Lemma noEmptyRoom_ensureGroupMembersInRoom chatId st :
  noEmptyRoom st → noEmptyRoom (ensureGroupMembersInRoom chatId st).
Proof.
  intros H. unfold ensureGroupMembersInRoom.
  destruct (Js.startsWith _ _); simpl; [|done].
  destruct (JsMap.get _ _); [|done]. by apply noEmptyRoom_addMembersToRoom.
Qed.

Lemma noEmptyRoom_joinDirectPeers chatId st :
  noEmptyRoom st → noEmptyRoom (joinDirectPeers chatId st).
Proof.
  unfold joinDirectPeers.
  generalize ((fun kv : string * User => kv.1) <$>
              filter (fun kv => u_id kv.2 ∈ Js.split "-"%char chatId)
                     (connectedUsers st)).
  intros l. revert st. induction l as [|s l IH]; intros st H; simpl; [done|].
  apply IH. case_bool_decide; [by apply noEmptyRoom_joinRoom|done].
Qed.

Lemma noEmptyRoom_joinGroupRooms sid (groups : list GroupSummary) st :
  noEmptyRoom st →
  noEmptyRoom (foldl (fun s g => joinRoom sid (gs_chatId g) s) st groups).
Proof.
  revert st. induction groups as [|g groups IH]; intros st H; simpl; [done|].
  apply IH. by apply noEmptyRoom_joinRoom.
Qed.

Lemma noEmptyRoom_takeOver userId sid st :
  noEmptyRoom st → noEmptyRoom (takeOver userId sid st).1.
Proof.
  intros H. unfold takeOver.
  destruct (findSocketId _ _) as [old|]; [|done].
  destruct (_ && _); [|done]. simpl.
  case_bool_decide; [|done].
  rewrite forceDisconnect_state.
  eapply noEmptyRoom_rooms; [|apply (noEmptyRoom_dropSocket old st)]. done.
Qed.

Lemma noEmptyRoom_onJoin now sid d st :
  noEmptyRoom st → noEmptyRoom (onJoin now sid d st).1.
Proof.
  intros H. unfold onJoin.
  destruct (j_userId d) as [userId|]; [|done].
  destruct (j_username d) as [username|]; [|done].
  destruct (_ || _); [done|].
  pose proof (noEmptyRoom_takeOver userId sid st H) as H1.
  destruct (takeOver userId sid st) as [st1 fx1]. simpl in H1.
  destruct (userGroupsOf _ _) as [|g gs] eqn:Hgroups; simpl; [done|].
  apply noEmptyRoom_joinGroupRooms. by apply noEmptyRoom_joinRoom.
Qed.

Lemma noEmptyRoom_onJoinChat now sid d st :
  noEmptyRoom st → noEmptyRoom (onJoinChat now sid d st).1.
Proof.
  intros H. unfold onJoinChat.
  set (st2 := if JsMap.has _ _ then _ else _).
  assert (noEmptyRoom st2) as H2.
  { subst st2. destruct (JsMap.has _ _); by apply noEmptyRoom_joinRoom. }
  assert (∀ s fx, noEmptyRoom s →
    noEmptyRoom (if negb (jc_isGroup d) && Js.includes "-"%char (jc_chatId d)
                 then joinDirectPeers (jc_chatId d) s else s,
                 fx ++ [ToRoom sid (jc_chatId d)
                          (PUserJoined (jc_username d) (Some (jc_chatId d)))]).1)
    as Htail.
  { intros s fx Hs. simpl. destruct (_ && _); [|done].
    by apply noEmptyRoom_joinDirectPeers. }
  destruct (jc_isGroup d); [|by apply Htail].
  destruct (jc_members d) as [[|m0 ms]|]; try by apply Htail.
  destruct (Js.blank (jc_groupName d)); [done|].
  destruct (validMembersOf (m0 :: ms)) as [|v vs]; [done|].
  apply Htail. by apply noEmptyRoom_addMembersToRoom.
Qed.

Lemma noEmptyRoom_onMessage now sid md st :
  noEmptyRoom st → noEmptyRoom (onMessage now sid md st).1.
Proof.
  intros H. unfold onMessage. destruct (repairSender _ _ _ _); [|done].
  unfold routeMessage. destruct (msg_chatId md) as [chatId|]; [|done].
  destruct (Js.truthy chatId); [|done]. simpl.
  apply (noEmptyRoom_rooms _ _ (storeMessage_rooms _ _ _)).
  destruct (Js.startsWith _ _); [|done].
  destruct (rooms st !! chatId);
    [|destruct (JsMap.has _ _); [|done]];
    by apply noEmptyRoom_ensureGroupMembersInRoom.
Qed.

Lemma noEmptyRoom_step e st : noEmptyRoom st → noEmptyRoom (step e st).1.
Proof.
  intros H.
  destruct e as [sid|sid|now sid d|now sid d|now sid d|sid d|now sid d
                |sid chatId|sid d|task]; simpl.
  - destruct (_ && _); [|done]. by apply noEmptyRoom_joinRoom.
  - unfold whenConnected. case_bool_decide; [|done].
    rewrite onDisconnect_connectedUsers.
    eapply noEmptyRoom_rooms; [|apply (noEmptyRoom_dropSocket sid st)]. done.
  - unfold whenConnected. case_bool_decide; [|done].
    by apply noEmptyRoom_onJoin.
  - unfold whenConnected. case_bool_decide; [|done].
    by apply noEmptyRoom_onJoinChat.
  - unfold whenConnected. case_bool_decide; [|done].
    by apply noEmptyRoom_onMessage.
  - unfold whenConnected. case_bool_decide; [|done].
    unfold onTyping. destruct (t_chatId d) as [chatId|]; [|done].
    destruct (Js.truthy chatId); [|done]. simpl.
    destruct (_ && _); [|done]. by apply noEmptyRoom_ensureGroupMembersInRoom.
  - unfold whenConnected. case_bool_decide; [|done].
    unfold onUsernameChange. destruct (Js.blank _); [done|]. simpl.
    by destruct (JsMap.get _ _).
  - unfold whenConnected. case_bool_decide; [|done].
    unfold onGetGroupInfo. destruct (JsMap.get _ _); [|done].
    by apply noEmptyRoom_joinRoom.
  - unfold whenConnected. case_bool_decide; [|done].
    unfold onDeleteGroup. destruct (JsMap.get _ _); [|done]. by case_decide.
  - destruct task as [chatId vm]. simpl.
    destruct (rooms st !! chatId); [|done].
    case_bool_decide; [|done]. by apply noEmptyRoom_addMembersToRoom.
Qed.

Lemma run_noEmptyRoom evs : noEmptyRoom (run evs initialState).
Proof.
  induction evs as [|e evs IH] using rev_ind.
  - intros r S. simpl. by rewrite lookup_empty.
  - rewrite run_snoc. by apply noEmptyRoom_step.
Qed.

(** On a reachable state a room without subscribers is a room the
    adapter does not have. *)
Lemma no_subscribers_no_room evs room :
  let st := run evs initialState in
  size (subscribersOf room st) = 0 ↔ rooms st !! room = None.
Proof.
  intros st. unfold subscribersOf.
  destruct (rooms st !! room) as [S|] eqn:HS; simpl.
  - split; [|done]. intros Hsize. apply size_empty_inv in Hsize.
    destruct (run_noEmptyRoom evs room S HS). by apply leibniz_equiv.
  - split; [done|]. intros _. reflexivity.
Qed.

(** ** The deferred second look at a group's room *)

Lemma timers_app fx1 fx2 : timers (fx1 ++ fx2) = timers fx1 ++ timers fx2.
Proof. apply omap_app. Qed.

Lemma timers_cons_timer ms task fx :
  timers (SetTimeout ms task :: fx) = (ms, task) :: timers fx.
Proof. reflexivity. Qed.

Lemma timers_notifyOthers userId p members st :
  timers (notifyOthers userId p members st) = [].
Proof.
  unfold notifyOthers. induction members as [|m members IH]; [done|].
  simpl. rewrite timers_app, IH, app_nil_r.
  case_decide; [done|]. by destruct (memberSocket (md_id m) st).
Qed.

(** C8, as the code has it.  An accepted group payload sets exactly one
    timer, of 500 ms, for a second look at the room with the valid
    members of the payload.  When the timer fires, the subscribe pass
    over those members is made again if the room has at least one
    subscriber and fewer subscribers than there are valid members; if
    the room has no subscriber, or has as many subscribers as valid
    members, nothing is done.  The callback sets no further timer and
    emits nothing. *)
Theorem deferred_recheck_once
    (now : N) (sid : string) (d : JoinChatData) (st : State)
    (m0 : MemberData) (ms : list MemberData) (evs : list Event) :
  jc_isGroup d = true →
  jc_members d = Some (m0 :: ms) →
  Js.blank (jc_groupName d) = false →
  validMembersOf (m0 :: ms) ≠ [] →
  let chatId := jc_chatId d in
  let valid := validMembersOf (m0 :: ms) in
  timers (onJoinChat now sid d st).2 = [(500%N, Recheck chatId valid)] ∧
  (let st' := run evs initialState in
   let n := size (subscribersOf chatId st') in
   let fired := runDeferred (Recheck chatId valid) st' in
   fired.2 = [] ∧
   (0 < n → n < length valid →
    fired.1 = addMembersToRoom chatId (md_id <$> valid) st') ∧
   (n = 0 ∨ length valid ≤ n → fired.1 = st')).
Proof.
  intros Hg Hm Hname Hv chatId valid. split.
  - unfold onJoinChat. rewrite Hg, Hm, Hname. fold chatId. fold valid.
    destruct valid as [|v vs] eqn:Hvalid; [done|]. simpl.
    rewrite !timers_app.
    destruct (negb (JsMap.has chatId (groupChats _)));
      by rewrite ?timers_notifyOthers, timers_cons_timer, ?timers_notifyOthers.
  - intros st' n fired.
    pose proof (no_subscribers_no_room evs chatId) as Hzero.
    fold st' in Hzero. fold n in Hzero.
    subst fired n. unfold subscribersOf in *. simpl.
    destruct (rooms st' !! chatId) as [S|] eqn:HS; simpl in *.
    + case_bool_decide as Hlt; simpl.
      * split; [done|]. split; [done|].
        intros [Hn|Hn]; [|lia]. by apply Hzero in Hn.
      * split; [done|]. split; [lia|done].
    + split; [done|]. split; [|done].
      intros Hpos. exfalso. destruct Hzero as [_ Hz].
      specialize (Hz eq_refl). lia.
Qed.

(** Ann creates the group; when the timer fires Bob's socket is gone and
    the room holds Ann's socket only, so the pass is made again.  It is
    not made for a room nobody is subscribed to. *)
Lemma deferred_recheck_once_witness :
  let d := Scenario.teamPayload "group-1" "uA" "Ann" in
  let task := Recheck "group-1" [Scenario.ann; Scenario.bob] in
  let st := run Scenario.online initialState in
  let st' := run (Scenario.online ++ [Scenario.createTeam "group-1"; Close "sB"])
                 initialState in
  timers (onJoinChat 20 "sA" d st).2 = [(500%N, task)] ∧
  (runDeferred task st').1 = addMembersToRoom "group-1" ["uA"; "uB"] st' ∧
  (runDeferred task st).1 = st.
Proof.
  intros d task st st'.
  destruct (deferred_recheck_once 20 "sA" d st Scenario.ann [Scenario.bob]
              (Scenario.online ++ [Scenario.createTeam "group-1"; Close "sB"]))
    as (Htimer & _ & Hpass & _); [reflexivity|reflexivity|reflexivity|discriminate|].
  destruct (deferred_recheck_once 20 "sA" d st Scenario.ann [Scenario.bob]
              Scenario.online)
    as (_ & _ & _ & Hskip); [reflexivity|reflexivity|reflexivity|discriminate|].
  split; [exact Htimer|]. split.
  - apply Hpass; vm_compute; lia.
  - apply Hskip. left. reflexivity.
Defined.

(** C8, as the specification states it, fails for a room without
    subscribers.  Ann creates the group with Bob, then updates it to
    herself alone; both leave, and Bob comes back on a new socket.  When
    the first timer fires the group record has one member and the room
    has no subscriber, yet the callback changes nothing, although the
    pass over the members it captured would have subscribed Bob's
    socket. *)
Lemma empty_room_is_not_rechecked :
  let update :=
    mkJoinChatData "group-1" (Some "uA") (Some "Ann") true (Some "Team")
      (Some [Scenario.ann]) in
  let evs :=
    Scenario.online
    ++ [Scenario.createTeam "group-1"; JoinChat 21 "sA" update;
        Close "sA"; Close "sB"; Connect "sB2";
        Join 50 "sB2" (mkJoinData (Some "uB") (Some "Bob"))] in
  let st := run evs initialState in
  let task := Recheck "group-1" [Scenario.ann; Scenario.bob] in
  timers (step (Scenario.createTeam "group-1") (run Scenario.online initialState)).2
  = [(500%N, task)] ∧
  length <$> (g_members <$> JsMap.get "group-1" (groupChats st)) = Some 1 ∧
  size (subscribersOf "group-1" st) = 0 ∧
  runDeferred task st = (st, []) ∧
  "sB2" ∈ subscribersOf "group-1" (addMembersToRoom "group-1" ["uA"; "uB"] st).
Proof. repeat split; by vm_compute. Qed.

(** * Further properties of the server *)

(** ** Trimming *)

Lemma app_cons a s t : String a s +:+ t = String a (s +:+ t).
Proof. reflexivity. Qed.

Lemma app_empty_r s : s +:+ EmptyString = s.
Proof. induction s as [|a s IH]; [done|]. by rewrite app_cons, IH. Qed.

Lemma app_assoc_string s t u : (s +:+ t) +:+ u = s +:+ (t +:+ u).
Proof. induction s as [|a s IH]; [done|]. by rewrite !app_cons, IH. Qed.

Lemma rev_app_append s1 s2 : String.rev_app s1 s2 = String.rev s1 +:+ s2.
Proof.
  unfold String.rev. revert s2.
  induction s1 as [|a s1 IH]; intros s2; simpl; [done|].
  rewrite (IH (String a s2)), (IH (String a EmptyString)).
  by rewrite app_assoc_string.
Qed.

Lemma rev_cons a s : String.rev (String a s) = String.rev s +:+ String a EmptyString.
Proof. unfold String.rev at 1. simpl. apply rev_app_append. Qed.

Lemma rev_snoc s a : String.rev (s +:+ String a EmptyString) = String a (String.rev s).
Proof.
  induction s as [|b s IH]; [done|].
  by rewrite app_cons, !rev_cons, IH.
Qed.

Lemma rev_involutive s : String.rev (String.rev s) = s.
Proof.
  induction s as [|a s IH]; [done|]. by rewrite rev_cons, rev_snoc, IH.
Qed.

Lemma trimStart_fixed a s : Js.is_space a = false → Js.trimStart (String a s) = String a s.
Proof. intros Ha. simpl. by rewrite Ha. Qed.

Lemma trimStart_head s a t : Js.trimStart s = String a t → Js.is_space a = false.
Proof.
  induction s as [|b s IH]; [done|]. simpl.
  destruct (Js.is_space b) eqn:Hb; [done|]. by intros [= <- _].
Qed.

Lemma trimStart_idem s : Js.trimStart (Js.trimStart s) = Js.trimStart s.
Proof.
  destruct (Js.trimStart s) as [|a t] eqn:Hs; [done|].
  apply trimStart_fixed. by eapply trimStart_head.
Qed.

Lemma trimStart_snoc u a :
  Js.is_space a = false →
  Js.trimStart (u +:+ String a EmptyString)
  = Js.trimStart u +:+ String a EmptyString.
Proof.
  intros Ha. induction u as [|b u IH].
  - simpl. by rewrite Ha.
  - rewrite app_cons. simpl. by destruct (Js.is_space b).
Qed.

(** Trimming the end leaves a first character that is not white space
    in place. *)
Lemma trimEnd_head a t :
  Js.is_space a = false → ∃ t', Js.trimEnd (String a t) = String a t'.
Proof.
  intros Ha. unfold Js.trimEnd.
  rewrite rev_cons, trimStart_snoc, rev_snoc by done. by eexists.
Qed.

Lemma trimEnd_idem s : Js.trimEnd (Js.trimEnd s) = Js.trimEnd s.
Proof. unfold Js.trimEnd. by rewrite rev_involutive, trimStart_idem. Qed.

Lemma trim_idem s : Js.trim (Js.trim s) = Js.trim s.
Proof.
  unfold Js.trim.
  destruct (Js.trimStart s) as [|a t] eqn:Hs; [done|].
  pose proof (trimStart_head _ _ _ Hs) as Ha.
  destruct (trimEnd_head a t Ha) as [t' Ht'].
  rewrite Ht', (trimStart_fixed a t' Ha), <- Ht'. apply trimEnd_idem.
Qed.

Lemma storedName_trim name :
  Js.blank (Some name) = false → storedName (Js.trim name).
Proof.
  intros Hb. split; [apply trim_idem|].
  apply orb_false_iff in Hb as [_ Hne]. by apply bool_decide_eq_false in Hne.
Qed.

Lemma storedName_not_blank name :
  storedName name → Js.blank (Some name) = false.
Proof.
  intros [Htrim Hne]. unfold Js.blank. rewrite Htrim.
  apply orb_false_iff. split; [by destruct name|].
  by apply bool_decide_eq_false.
Qed.

(** ** What the handlers leave alone *)

Lemma takeOver_directories userId sid st :
  groupChats (takeOver userId sid st).1 = groupChats st ∧
  chatRooms (takeOver userId sid st).1 = chatRooms st.
Proof.
  unfold takeOver. destruct (findSocketId _ _) as [old|]; [|done].
  destruct (_ && _); [|done]. simpl.
  case_bool_decide; [|done]. by rewrite forceDisconnect_state.
Qed.

Lemma joinGroupRooms_directories sid (groups : list GroupSummary) st :
  groupChats (foldl (fun s g => joinRoom sid (gs_chatId g) s) st groups)
  = groupChats st ∧
  chatRooms (foldl (fun s g => joinRoom sid (gs_chatId g) s) st groups)
  = chatRooms st.
Proof.
  revert st. induction groups as [|g groups IH]; intros st; simpl; [done|].
  destruct (IH (joinRoom sid (gs_chatId g) st)) as [-> ->]. done.
Qed.

Lemma onJoin_directories now sid d st :
  groupChats (onJoin now sid d st).1 = groupChats st ∧
  chatRooms (onJoin now sid d st).1 = chatRooms st.
Proof.
  unfold onJoin.
  destruct (j_userId d) as [userId|]; [|done].
  destruct (j_username d) as [username|]; [|done].
  destruct (_ || _); [done|].
  pose proof (takeOver_directories userId sid st) as [Hg Hr].
  destruct (takeOver userId sid st) as [st1 fx1]. simpl in Hg, Hr.
  destruct (userGroupsOf _ _) as [|g gs]; simpl; [done|].
  destruct (joinGroupRooms_directories sid gs
              (joinRoom sid (gs_chatId g)
                 (with_connectedUsers
                    (JsMap.set sid
                       (mkUser userId (Js.trim username) sid now)
                       (connectedUsers st1)) st1))) as [-> ->].
  done.
Qed.

Lemma joinDirectPeers_directories chatId st :
  groupChats (joinDirectPeers chatId st) = groupChats st ∧
  chatRooms (joinDirectPeers chatId st) = chatRooms st.
Proof.
  unfold joinDirectPeers.
  generalize ((fun kv : string * User => kv.1) <$>
              filter (fun kv => u_id kv.2 ∈ Js.split "-"%char chatId)
                     (connectedUsers st)).
  intros l. revert st. induction l as [|s l IH]; intros st; simpl; [done|].
  destruct (IH (if bool_decide (s ∈ sockets st)
                then joinRoom s chatId st else st)) as [-> ->].
  by case_bool_decide.
Qed.

Lemma onDisconnect_directories sid st :
  groupChats (onDisconnect sid st).1 = groupChats st ∧
  chatRooms (onDisconnect sid st).1 = chatRooms st.
Proof. by rewrite onDisconnect_connectedUsers. Qed.

Lemma routeMessage_groupChats sid chatId m st :
  groupChats (routeMessage sid chatId m st).1 = groupChats st.
Proof.
  unfold routeMessage. destruct chatId as [chatId|]; [|done].
  destruct (Js.truthy chatId); [|done]. simpl.
  assert (∀ s, groupChats (storeMessage chatId m s) = groupChats s) as ->.
  { intros s. unfold storeMessage. by destruct (JsMap.get _ _). }
  destruct (Js.startsWith _ _); [|done].
  destruct (rooms st !! chatId);
    [|destruct (JsMap.has _ _); [|done]];
    apply ensureGroupMembersInRoom_groupChats.
Qed.

Lemma onTyping_directories sid d st :
  groupChats (onTyping sid d st).1 = groupChats st ∧
  chatRooms (onTyping sid d st).1 = chatRooms st.
Proof.
  unfold onTyping. destruct (t_chatId d) as [chatId|]; [|done].
  destruct (Js.truthy chatId); [|done]. simpl.
  destruct (_ && _); [|done].
  by rewrite ensureGroupMembersInRoom_groupChats,
             ensureGroupMembersInRoom_chatRooms.
Qed.

Lemma onUsernameChange_directories now sid d st :
  groupChats (onUsernameChange now sid d st).1 = groupChats st ∧
  chatRooms (onUsernameChange now sid d st).1 = chatRooms st ∧
  rooms (onUsernameChange now sid d st).1 = rooms st ∧
  sockets (onUsernameChange now sid d st).1 = sockets st.
Proof.
  unfold onUsernameChange. destruct (Js.blank _); [done|]. simpl.
  by destruct (JsMap.get _ _).
Qed.

Lemma onGetGroupInfo_directories sid chatId st :
  groupChats (onGetGroupInfo sid chatId st).1 = groupChats st ∧
  chatRooms (onGetGroupInfo sid chatId st).1 = chatRooms st.
Proof. unfold onGetGroupInfo. by destruct (JsMap.get _ _). Qed.

Lemma runDeferred_directories task st :
  groupChats (runDeferred task st).1 = groupChats st ∧
  chatRooms (runDeferred task st).1 = chatRooms st.
Proof.
  destruct task as [chatId vm]. simpl.
  destruct (rooms st !! chatId); [|done].
  case_bool_decide; [|done]. simpl.
  by rewrite addMembersToRoom_groupChats, addMembersToRoom_chatRooms.
Qed.

(** Events other than [joinChat] and [deleteGroup] leave the group
    records alone. *)
Lemma step_groupChats e st :
  writesGroups e = false → groupChats (step e st).1 = groupChats st.
Proof.
  destruct e as [sid|sid|now sid d|now sid d|now sid d|sid d|now sid d
                |sid chatId|sid d|task]; simpl; try done; intros _;
    unfold whenConnected; try (case_bool_decide; [|done]).
  - by destruct (_ && _).
  - by rewrite onDisconnect_connectedUsers.
  - apply onJoin_directories.
  - unfold onMessage. destruct (repairSender _ _ _ _); [|done].
    apply routeMessage_groupChats.
  - apply onTyping_directories.
  - apply onUsernameChange_directories.
  - apply onGetGroupInfo_directories.
  - apply runDeferred_directories.
Qed.

(** Events other than [join], [usernameChange] and a closing connection
    leave the registered users alone. *)
Lemma step_connectedUsers e st :
  writesRegistry e = false → connectedUsers (step e st).1 = connectedUsers st.
Proof.
  assert (∀ s s', registry s' = registry s → connectedUsers s' = connectedUsers s)
    as Hreg by (unfold registry; by intros s s' [= -> _]).
  destruct e as [sid|sid|now sid d|now sid d|now sid d|sid d|now sid d
                |sid chatId|sid d|task]; simpl; try done; intros _;
    unfold whenConnected; try (case_bool_decide; [|done]).
  - by destruct (_ && _).
  - apply Hreg, onJoinChat_registry.
  - apply Hreg, onMessage_registry.
  - apply Hreg, onTyping_registry.
  - apply Hreg, onGetGroupInfo_registry.
  - apply Hreg, onDeleteGroup_registry.
  - apply Hreg, runDeferred_registry.
Qed.

(** ** Subscriptions only grow while a socket stays connected *)

Lemma extends_refl st : extends st st.
Proof. split; [done|]. split; [done|]. intros room s Hs. by left. Qed.

Lemma extends_trans st1 st2 st3 :
  extends st1 st2 → extends st2 st3 → extends st1 st3.
Proof.
  intros (Hr1 & Hg1 & Hn1) (Hr2 & Hg2 & Hn2). split; [congruence|]. split.
  - intros room s Hs. by apply Hg2, Hg1.
  - intros room s Hs. destruct (Hn2 room s Hs) as [Hs'|Hs'].
    + by apply Hn1.
    + right. unfold registry in Hr1. injection Hr1 as _ Hss. by rewrite <- Hss.
Qed.

Lemma extends_same_rooms st st' :
  registry st' = registry st → rooms st' = rooms st → extends st st'.
Proof.
  intros Hr Hrooms. split; [done|]. unfold subscribersOf. rewrite Hrooms.
  split; [done|]. intros room s Hs. by left.
Qed.

Lemma extends_joinRoom sid room st :
  sid ∈ sockets st → extends st (joinRoom sid room st).
Proof.
  intros Hsid. split; [done|]. split.
  - intros room' s Hs. rewrite subscribersOf_joinRoom. case_decide; [|done].
    apply elem_of_union. by right.
  - intros room' s. rewrite subscribersOf_joinRoom. case_decide; [|by left].
    intros [->%elem_of_singleton|Hs]%elem_of_union; [by right|by left].
Qed.

Lemma memberSocket_connected uid st ms :
  memberSocket uid st = Some ms → ms ∈ sockets st.
Proof.
  unfold memberSocket. destruct (findSocketId _ _) as [s|]; [|done].
  destruct (Js.truthy s); simpl; [|done].
  case_bool_decide; [|done]. by intros [= <-].
Qed.

Lemma extends_addMembersToRoom chatId uids st :
  extends st (addMembersToRoom chatId uids st).
Proof.
  revert st. induction uids as [|uid uids IH]; intros st;
    [apply extends_refl|].
  rewrite addMembersToRoom_cons.
  eapply extends_trans; [|apply IH].
  destruct (memberSocket uid st) as [ms|] eqn:Hms; [|apply extends_refl].
  apply extends_joinRoom. by eapply memberSocket_connected.
Qed.

Lemma extends_ensureGroupMembersInRoom chatId st :
  extends st (ensureGroupMembersInRoom chatId st).
Proof.
  unfold ensureGroupMembersInRoom.
  destruct (Js.startsWith _ _); simpl; [|apply extends_refl].
  destruct (JsMap.get _ _); [|apply extends_refl].
  apply extends_addMembersToRoom.
Qed.

Lemma extends_joinDirectPeers chatId st :
  extends st (joinDirectPeers chatId st).
Proof.
  unfold joinDirectPeers.
  generalize ((fun kv : string * User => kv.1) <$>
              filter (fun kv => u_id kv.2 ∈ Js.split "-"%char chatId)
                     (connectedUsers st)).
  intros l. revert st. induction l as [|s l IH]; intros st; simpl;
    [apply extends_refl|].
  eapply extends_trans; [|apply IH].
  case_bool_decide; [by apply extends_joinRoom|apply extends_refl].
Qed.

Lemma extends_onJoinChat now sid d st :
  sid ∈ sockets st → extends st (onJoinChat now sid d st).1.
Proof.
  intros Hsid. unfold onJoinChat.
  set (st2 := if JsMap.has _ _ then _ else _).
  assert (extends st st2) as H2.
  { eapply extends_trans; [by apply (extends_joinRoom sid (jc_chatId d))|].
    subst st2. destruct (JsMap.has _ _); [apply extends_refl|].
    by apply extends_same_rooms. }
  assert (∀ s fx, extends st s →
    extends st (if negb (jc_isGroup d) && Js.includes "-"%char (jc_chatId d)
                then joinDirectPeers (jc_chatId d) s else s,
                fx ++ [ToRoom sid (jc_chatId d)
                         (PUserJoined (jc_username d) (Some (jc_chatId d)))]).1)
    as Htail.
  { intros s fx Hs. simpl. destruct (_ && _); [|done].
    eapply extends_trans; [done|apply extends_joinDirectPeers]. }
  destruct (jc_isGroup d); [|by apply Htail].
  destruct (jc_members d) as [[|m0 ms]|]; try by apply Htail.
  destruct (Js.blank (jc_groupName d)); [done|].
  destruct (validMembersOf (m0 :: ms)) as [|v vs]; [done|].
  apply Htail.
  eapply extends_trans; [|apply extends_addMembersToRoom].
  eapply extends_trans; [exact H2|]. by apply extends_same_rooms.
Qed.

Lemma extends_onMessage now sid md st :
  extends st (onMessage now sid md st).1.
Proof.
  unfold onMessage. destruct (repairSender _ _ _ _); [|apply extends_refl].
  unfold routeMessage. destruct (msg_chatId md) as [chatId|];
    [|apply extends_refl].
  destruct (Js.truthy chatId); [|apply extends_refl]. simpl.
  eapply extends_trans;
    [|apply extends_same_rooms;
      [apply storeMessage_registry|apply storeMessage_rooms]].
  destruct (Js.startsWith _ _); [|apply extends_refl].
  destruct (rooms st !! chatId);
    [|destruct (JsMap.has _ _); [|apply extends_refl]];
    apply extends_ensureGroupMembersInRoom.
Qed.

Lemma extends_onTyping sid d st : extends st (onTyping sid d st).1.
Proof.
  unfold onTyping. destruct (t_chatId d) as [chatId|]; [|apply extends_refl].
  destruct (Js.truthy chatId); [|apply extends_refl]. simpl.
  destruct (_ && _); [|apply extends_refl].
  apply extends_ensureGroupMembersInRoom.
Qed.

Lemma extends_onGetGroupInfo sid chatId st :
  sid ∈ sockets st → extends st (onGetGroupInfo sid chatId st).1.
Proof.
  intros Hsid. unfold onGetGroupInfo.
  destruct (JsMap.get _ _); [|apply extends_refl]. by apply extends_joinRoom.
Qed.

Lemma extends_onDeleteGroup sid d st : extends st (onDeleteGroup sid d st).1.
Proof.
  unfold onDeleteGroup. destruct (JsMap.get _ _); [|apply extends_refl].
  case_decide; [|apply extends_refl]. by apply extends_same_rooms.
Qed.

Lemma extends_runDeferred task st : extends st (runDeferred task st).1.
Proof.
  destruct task as [chatId vm]. simpl.
  destruct (rooms st !! chatId); [|apply extends_refl].
  case_bool_decide; [|apply extends_refl]. apply extends_addMembersToRoom.
Qed.

(** A socket that is dropped leaves every room; the others stay. *)
Lemma subscribersOf_dropSocket sid room st s :
  s ∈ subscribersOf room (dropSocket sid st) ↔
  s ∈ subscribersOf room st ∧ s ≠ sid.
Proof.
  unfold subscribersOf, dropSocket, leaveAll. simpl.
  destruct (rooms st !! room) as [S|] eqn:HS; simpl.
  - destruct (decide (S ∖ {[sid]} = ∅)) as [Hempty|Hne].
    + rewrite (proj2 (map_lookup_filter_None _ _ room)).
      * simpl. split; [by intros ?%not_elem_of_empty|].
        intros [Hs Hn]. exfalso.
        assert (s ∈ S ∖ {[sid]}) as Hin.
        { apply elem_of_difference. split; [done|].
          by intros ?%elem_of_singleton. }
        rewrite Hempty in Hin. by apply not_elem_of_empty in Hin.
      * right. intros x. rewrite lookup_fmap, HS. simpl.
        intros [= <-]. simpl. by intros ?.
    + rewrite (proj2 (map_lookup_filter_Some _ _ room (S ∖ {[sid]}))).
      * simpl. rewrite elem_of_difference, elem_of_singleton. done.
      * split; [by rewrite lookup_fmap, HS|done].
  - rewrite (proj2 (map_lookup_filter_None _ _ room)).
    + simpl. split; [by intros ?%not_elem_of_empty|].
      by intros [?%not_elem_of_empty _].
    + left. by rewrite lookup_fmap, HS.
Qed.

(** ** What a valid [join] leaves behind *)

Lemma takeOver_cases userId sid st :
  (takeOver userId sid st).1 = st ∨
  ∃ old, old ≠ sid ∧
    ((takeOver userId sid st).1
     = with_connectedUsers (JsMap.delete old (connectedUsers st)) st ∨
     (takeOver userId sid st).1
     = with_connectedUsers (JsMap.delete old (connectedUsers st))
         (dropSocket old st)).
Proof.
  unfold takeOver. destruct (findSocketId _ _) as [old|]; [|by left].
  destruct (Js.truthy old); simpl; [|by left].
  case_bool_decide as Hold; simpl; [by left|].
  right. exists old. split; [done|].
  case_bool_decide; [|by left]. right.
  rewrite forceDisconnect_state. simpl. by rewrite delete_delete.
Qed.

Lemma onJoin_valid_state now sid userId username st :
  Js.truthy userId = true → Js.blank (Some username) = false →
  let st1 := (takeOver userId sid st).1 in
  (onJoin now sid (mkJoinData (Some userId) (Some username)) st).1
  = foldl (fun s g => joinRoom sid (gs_chatId g) s)
      (with_connectedUsers
         (JsMap.set sid (mkUser userId (Js.trim username) sid now)
            (connectedUsers st1)) st1)
      (userGroupsOf userId (groupChats st1)).
Proof.
  intros Hu Hn. unfold onJoin. simpl. rewrite Hu, Hn. simpl.
  destruct (takeOver userId sid st) as [st1 fx1]. simpl.
  by destruct (userGroupsOf _ _).
Qed.

Lemma subscribersOf_joinGroupRooms sid (groups : list GroupSummary) st room s :
  s ∈ subscribersOf room (foldl (fun s g => joinRoom sid (gs_chatId g) s) st groups)
  ↔ s ∈ subscribersOf room st ∨ (s = sid ∧ room ∈ gs_chatId <$> groups).
Proof.
  revert st. induction groups as [|g groups IH]; intros st; simpl.
  - split; [by left|]. intros [?|[_ ?%elem_of_nil]]; done.
  - rewrite IH, subscribersOf_joinRoom. rewrite elem_of_cons.
    case_decide as Hroom.
    + rewrite elem_of_union, elem_of_singleton. subst room. tauto.
    + split; [tauto|]. intros [?|[? [?|?]]]; subst; tauto.
Qed.

Lemma userGroupsOf_elem uid gc chatId group member :
  JsMap.get chatId gc = Some group →
  member ∈ g_members group → m_id member = uid →
  chatId ∈ gs_chatId <$> userGroupsOf uid gc.
Proof.
  intros Hget Hin Hid. apply get_elem_of in Hget.
  unfold userGroupsOf. rewrite <- list_fmap_compose.
  apply list_elem_of_fmap. exists (chatId, group). split; [done|].
  apply list_elem_of_filter. split; [|done]. simpl.
  apply existsb_exists. exists member. split; [by apply list_elem_of_In|].
  by apply bool_decide_eq_true.
Qed.

(** The groups handed to a user all list that user as a member. *)
Lemma userGroupsOf_member uid gc g :
  g ∈ userGroupsOf uid gc →
  ∃ group, (gs_chatId g, group) ∈ gc ∧ gs_name g = g_name group ∧
           gs_createdBy g = g_createdBy group ∧
           ∃ member, member ∈ g_members group ∧ m_id member = uid.
Proof.
  unfold userGroupsOf.
  intros ([k group] & -> & [Hsome Hin]%list_elem_of_filter)%list_elem_of_fmap.
  simpl in *. exists group. split; [done|]. split; [done|]. split; [done|].
  apply existsb_exists in Hsome as (member & Hm & Hid).
  exists member. split; [by apply list_elem_of_In|].
  by apply bool_decide_eq_true in Hid.
Qed.

(** ** Rooms hold connected sockets only *)

Lemma extends_sockets st st' : extends st st' → sockets st' = sockets st.
Proof. intros [Hr _]. unfold registry in Hr. by injection Hr. Qed.

Lemma subscribersConnected_extends st st' :
  extends st st' → subscribersConnected st → subscribersConnected st'.
Proof.
  intros Hext Hst room s Hs. rewrite (extends_sockets _ _ Hext).
  destruct Hext as (_ & _ & Hnew).
  destruct (Hnew room s Hs) as [Hold|Hconn]; [by eapply Hst|done].
Qed.

Lemma subscribersConnected_dropSocket sid cu st :
  subscribersConnected st →
  subscribersConnected (with_connectedUsers cu (dropSocket sid st)).
Proof.
  intros Hst room s Hs.
  apply (subscribersOf_dropSocket sid room st s) in Hs as [Hs Hne].
  simpl. apply elem_of_difference. split; [by eapply Hst|].
  by intros ?%elem_of_singleton.
Qed.

Lemma subscribersConnected_joinGroupRooms sid (groups : list GroupSummary) st :
  sid ∈ sockets st → subscribersConnected st →
  subscribersConnected (foldl (fun s g => joinRoom sid (gs_chatId g) s) st groups).
Proof.
  intros Hsid Hst room s Hs.
  assert (sockets (foldl (fun s g => joinRoom sid (gs_chatId g) s) st groups)
          = sockets st) as ->.
  { pose proof (joinGroupRooms_registry sid groups st) as Hr.
    unfold registry in Hr. by injection Hr. }
  apply subscribersOf_joinGroupRooms in Hs as [Hs|[-> _]]; [by eapply Hst|done].
Qed.

Lemma subscribersConnected_onJoin now sid d st :
  wellFormed st → sid ∈ sockets st →
  subscribersConnected st → subscribersConnected (onJoin now sid d st).1.
Proof.
  intros Hwf Hsid Hst.
  destruct (match j_userId d, j_username d with
            | Some userId, Some username =>
                negb (Js.truthy userId) || Js.blank (Some username)
            | _, _ => true
            end) eqn:Hvalid.
  { by rewrite onJoin_invalid_registry. }
  destruct d as [[userId|] [username|]]; simpl in Hvalid; try done.
  apply orb_false_iff in Hvalid as [Hu%negb_false_iff Hn].
  rewrite onJoin_valid_state by done.
  destruct (takeOver_spec st userId sid Hwf Hsid) as (_ & Hsid1 & _).
  apply subscribersConnected_joinGroupRooms; [done|].
  destruct (takeOver_cases userId sid st) as [->|(old & _ & [->| ->])].
  - done.
  - done.
  - intros room s Hs. by apply (subscribersConnected_dropSocket old _ st Hst room s).
Qed.

Lemma subscribersConnected_step e st :
  wellFormed st → subscribersConnected st → subscribersConnected (step e st).1.
Proof.
  intros Hwf Hst.
  destruct e as [sid|sid|now sid d|now sid d|now sid d|sid d|now sid d
                |sid chatId|sid d|task]; simpl;
    unfold whenConnected; try (case_bool_decide; [|done]).
  - destruct (_ && _); [|done]. simpl. intros room s.
    unfold addSocket. rewrite subscribersOf_joinRoom. simpl.
    case_decide.
    + intros [->%elem_of_singleton|Hs]%elem_of_union;
        apply elem_of_union; [left; by apply elem_of_singleton|].
      right. by eapply Hst.
    + intros Hs. apply elem_of_union. right. by eapply Hst.
  - rewrite onDisconnect_connectedUsers.
    intros room s Hs.
    by apply (subscribersConnected_dropSocket sid _ st Hst room s).
  - by apply subscribersConnected_onJoin.
  - eapply subscribersConnected_extends; [by apply extends_onJoinChat|done].
  - eapply subscribersConnected_extends; [apply extends_onMessage|done].
  - eapply subscribersConnected_extends; [apply extends_onTyping|done].
  - destruct (onUsernameChange_directories now sid d st) as (_ & _ & Hr & Hs).
    intros room s. unfold subscribersOf. rewrite Hr, Hs. apply Hst.
  - eapply subscribersConnected_extends; [by apply extends_onGetGroupInfo|done].
  - eapply subscribersConnected_extends; [apply extends_onDeleteGroup|done].
  - eapply subscribersConnected_extends; [apply extends_runDeferred|done].
Qed.

Lemma run_subscribersConnected evs : subscribersConnected (run evs initialState).
Proof.
  induction evs as [|e evs IH] using rev_ind.
  - intros room s Hs. unfold subscribersOf in Hs. simpl in Hs.
    rewrite lookup_empty in Hs. by apply not_elem_of_empty in Hs.
  - rewrite run_snoc. apply subscribersConnected_step; [apply run_wellFormed|done].
Qed.

(** ** Registered members are subscribed *)

Lemma converged_extends st st' :
  extends st st' →
  (∀ k g, JsMap.get k (groupChats st') = Some g →
          JsMap.get k (groupChats st) = Some g) →
  converged st → converged st'.
Proof.
  intros (Hr & Hgrow & _) Hgroups Hst chatId group member ms Hget Hin Hreg.
  apply Hgrow. eapply Hst; [by apply Hgroups|done|].
  by apply (registeredOn_registry st st').
Qed.

Lemma converged_dropSocket sid st :
  converged st →
  converged (with_connectedUsers (JsMap.delete sid (connectedUsers st))
               (dropSocket sid st)).
Proof.
  intros Hst chatId group member ms Hget Hin (u & Hu & Hid).
  simpl in Hget, Hu. rewrite get_delete in Hu. case_decide as Hne; [done|].
  apply (subscribersOf_dropSocket sid chatId st ms). split; [|congruence].
  eapply Hst; [done..|]. by exists u.
Qed.

Lemma converged_unregister sid st :
  converged st →
  converged (with_connectedUsers (JsMap.delete sid (connectedUsers st)) st).
Proof.
  intros Hst chatId group member ms Hget Hin (u & Hu & Hid).
  simpl in Hget, Hu. rewrite get_delete in Hu. case_decide as Hne; [done|].
  eapply (Hst chatId group member ms); [done..|]. by exists u.
Qed.

Lemma converged_onJoin now sid d st :
  wellFormed st → sid ∈ sockets st →
  converged st → converged (onJoin now sid d st).1.
Proof.
  intros Hwf Hsid Hst.
  destruct (match j_userId d, j_username d with
            | Some userId, Some username =>
                negb (Js.truthy userId) || Js.blank (Some username)
            | _, _ => true
            end) eqn:Hvalid.
  { by rewrite onJoin_invalid_registry. }
  destruct d as [[userId|] [username|]]; simpl in Hvalid; try done.
  apply orb_false_iff in Hvalid as [Hu%negb_false_iff Hn].
  rewrite onJoin_valid_state by done.
  set (st1 := (takeOver userId sid st).1).
  assert (converged st1) as H1.
  { subst st1. destruct (takeOver_cases userId sid st) as [->|(old & _ & [->| ->])];
      [done|by apply converged_unregister|by apply converged_dropSocket]. }
  intros chatId group member ms Hget Hin (u & Hget' & Hid).
  destruct (joinGroupRooms_directories sid (userGroupsOf userId (groupChats st1))
              (with_connectedUsers
                 (JsMap.set sid (mkUser userId (Js.trim username) sid now)
                    (connectedUsers st1)) st1)) as [Hg _].
  rewrite Hg in Hget. simpl in Hget.
  pose proof (joinGroupRooms_registry sid (userGroupsOf userId (groupChats st1))
                (with_connectedUsers
                   (JsMap.set sid (mkUser userId (Js.trim username) sid now)
                      (connectedUsers st1)) st1)) as Hr.
  unfold registry in Hr. injection Hr as Hcu _. rewrite Hcu in Hget'.
  simpl in Hget'. rewrite get_set in Hget'.
  apply subscribersOf_joinGroupRooms.
  case_decide as Hms.
  - right. split; [done|]. injection Hget' as <-. simpl in Hid.
    by eapply userGroupsOf_elem.
  - left. apply (H1 chatId group member ms); [done..|]. by exists u.
Qed.

Lemma onJoinChat_accepted_state now sid d st :
  groupAccepted d = true →
  (onJoinChat now sid d st).1
  = addMembersToRoom (jc_chatId d)
      (md_id <$> validMembersOf (default [] (jc_members d)))
      (with_groupChats
         (JsMap.set (jc_chatId d) (groupOf now d)
            (groupChats (roomOpened now sid d st)))
         (roomOpened now sid d st)).
Proof.
  unfold groupAccepted, onJoinChat, groupOf, roomOpened.
  destruct (jc_isGroup d); [|done]. simpl.
  destruct (jc_members d) as [[|m0 ms]|]; try done.
  destruct (Js.blank (jc_groupName d)); [done|]. simpl.
  by destruct (validMembersOf (m0 :: ms)) as [|v vs].
Qed.

Lemma onJoinChat_rejected_state now sid d st :
  groupAccepted d = false →
  (onJoinChat now sid d st).1
  = if negb (jc_isGroup d) && Js.includes "-"%char (jc_chatId d)
    then joinDirectPeers (jc_chatId d) (roomOpened now sid d st)
    else roomOpened now sid d st.
Proof.
  unfold groupAccepted, onJoinChat, roomOpened.
  destruct (jc_isGroup d); [|done]. simpl.
  destruct (jc_members d) as [[|m0 ms]|]; try done.
  destruct (Js.blank (jc_groupName d)); [done|]. simpl.
  by destruct (validMembersOf (m0 :: ms)) as [|v vs].
Qed.

Lemma roomOpened_groupChats now sid d st :
  groupChats (roomOpened now sid d st) = groupChats st.
Proof. unfold roomOpened. by destruct (JsMap.has _ _). Qed.

Lemma roomOpened_registry now sid d st :
  registry (roomOpened now sid d st) = registry st.
Proof. unfold roomOpened. by destruct (JsMap.has _ _). Qed.

Lemma extends_roomOpened now sid d st :
  sid ∈ sockets st → extends st (roomOpened now sid d st).
Proof.
  intros Hsid.
  eapply extends_trans; [by apply (extends_joinRoom sid (jc_chatId d))|].
  unfold roomOpened. destruct (JsMap.has _ _); [apply extends_refl|].
  by apply extends_same_rooms.
Qed.

Lemma onJoinChat_rejected_groupChats now sid d st :
  groupAccepted d = false →
  groupChats (onJoinChat now sid d st).1 = groupChats st.
Proof.
  intros Hrej. rewrite onJoinChat_rejected_state by done.
  destruct (_ && _);
    rewrite ?(proj1 (joinDirectPeers_directories _ _));
    apply roomOpened_groupChats.
Qed.

Lemma converged_onJoinChat now sid d st :
  wellFormed st → sid ∈ sockets st →
  converged st → converged (onJoinChat now sid d st).1.
Proof.
  intros Hwf Hsid Hst.
  pose proof (extends_onJoinChat now sid d st Hsid) as Hext.
  destruct (groupAccepted d) eqn:Hacc.
  2: { apply (converged_extends st); [done| |done].
       by rewrite onJoinChat_rejected_groupChats. }
  intros chatId group member s Hget Hin Hreg.
  apply (registeredOn_registry st) in Hreg; [|apply onJoinChat_registry].
  revert Hget. rewrite onJoinChat_accepted_state by done.
  set (st3 := with_groupChats _ _).
  rewrite addMembersToRoom_groupChats. simpl.
  assert (registry st3 = registry st) as Hreg3 by apply roomOpened_registry.
  assert (wellFormed st3) as Hwf3 by (by apply (wellFormed_registry st)).
  rewrite get_set. case_decide as Hk.
  - intros [= <-]. simpl in Hin. subst chatId.
    apply list_elem_of_fmap in Hin as (m & -> & Hm').
    apply (addMembersToRoom_subscribes _ _ st3 (md_id m) s Hwf3).
    + apply list_elem_of_fmap. by exists m.
    + by apply (registeredOn_registry st st3).
  - rewrite roomOpened_groupChats. intros Hget.
    apply addMembersToRoom_mono.
    destruct (extends_roomOpened now sid d st Hsid) as (_ & Hgrow & _).
    apply (Hgrow chatId s). by apply (Hst chatId group member s).
Qed.

Lemma converged_step e st :
  wellFormed st → converged st → converged (step e st).1.
Proof.
  intros Hwf Hst.
  destruct e as [sid|sid|now sid d|now sid d|now sid d|sid d|now sid d
                |sid chatId|sid d|task]; simpl;
    unfold whenConnected; try (case_bool_decide; [|done]).
  - destruct (_ && _); [|done]. simpl.
    intros chatId group member ms Hget Hin Hreg.
    unfold addSocket. rewrite subscribersOf_joinRoom.
    assert (ms ∈ subscribersOf chatId st) as Hms
      by (by apply (Hst chatId group member ms)).
    case_decide; [apply elem_of_union; by right|done].
  - rewrite onDisconnect_connectedUsers. exact (converged_dropSocket sid st Hst).
  - by apply converged_onJoin.
  - by apply converged_onJoinChat.
  - apply (converged_extends st); [apply extends_onMessage| |done].
    unfold onMessage. destruct (repairSender _ _ _ _); [|done].
    by rewrite routeMessage_groupChats.
  - apply (converged_extends st); [apply extends_onTyping| |done].
    by rewrite (proj1 (onTyping_directories sid d st)).
  - destruct (onUsernameChange_directories now sid d st) as (Hg & _ & Hr & _).
    intros chatId group member ms Hget Hin (u & Hu & Hid).
    unfold subscribersOf. rewrite Hr. rewrite Hg in Hget.
    apply (Hst chatId group member ms); [done..|].
    revert Hu. unfold onUsernameChange.
    destruct (Js.blank _); [by exists u|]. simpl.
    destruct (JsMap.get sid (connectedUsers st)) as [user|] eqn:Huser;
      [|by exists u].
    simpl. rewrite get_set. case_decide as Hs; [|by exists u].
    intros [= <-]. subst ms. by exists user.
  - apply (converged_extends st); [by apply extends_onGetGroupInfo| |done].
    by rewrite (proj1 (onGetGroupInfo_directories sid chatId st)).
  - apply (converged_extends st); [apply extends_onDeleteGroup| |done].
    unfold onDeleteGroup. destruct (JsMap.get _ _); [|done].
    case_decide; [|done]. simpl. intros k g'. rewrite get_delete.
    by case_decide.
  - apply (converged_extends st); [apply extends_runDeferred| |done].
    by rewrite (proj1 (runDeferred_directories task st)).
Qed.

Lemma run_converged evs : converged (run evs initialState).
Proof.
  induction evs as [|e evs IH] using rev_ind.
  - intros chatId group member ms Hget. done.
  - rewrite run_snoc. apply converged_step; [apply run_wellFormed|done].
Qed.

(** ** Registered names *)

Lemma takeOver_connectedUsers userId sid st s u :
  JsMap.get s (connectedUsers (takeOver userId sid st).1) = Some u →
  JsMap.get s (connectedUsers st) = Some u.
Proof.
  destruct (takeOver_cases userId sid st) as [->|(old & _ & [->| ->])];
    [done|..]; simpl; rewrite get_delete; by case_decide.
Qed.

Lemma namesStored_step e st : namesStored st → namesStored (step e st).1.
Proof.
  intros Hst.
  destruct (writesRegistry e) eqn:He.
  2: { intros s u. rewrite step_connectedUsers by done. apply Hst. }
  destruct e as [sid|sid|now sid d|now sid d|now sid d|sid d|now sid d
                |sid chatId|sid d|task]; try done; simpl;
    unfold whenConnected; (case_bool_decide; [|done]).
  - rewrite onDisconnect_connectedUsers. intros s u. simpl.
    rewrite get_delete. case_decide; [done|]. apply Hst.
  - destruct (match j_userId d, j_username d with
              | Some userId, Some username =>
                  negb (Js.truthy userId) || Js.blank (Some username)
              | _, _ => true
              end) eqn:Hvalid.
    { by rewrite onJoin_invalid_registry. }
    destruct d as [[userId|] [username|]]; simpl in Hvalid; try done.
    apply orb_false_iff in Hvalid as [Hu%negb_false_iff Hn].
    destruct (onJoin_registry now sid userId username st Hu Hn) as [Hreg _].
    unfold registry in Hreg. injection Hreg as Hcu _.
    intros s u. rewrite Hcu, get_set. case_decide.
    + intros [= <-]. simpl. by apply storedName_trim.
    + intros Hget. eapply Hst. by eapply takeOver_connectedUsers.
  - unfold onUsernameChange.
    destruct (Js.blank (uc_newUsername d)) eqn:Hb; [done|]. simpl.
    destruct (JsMap.get sid (connectedUsers st)) as [user|]; [|done].
    destruct (uc_newUsername d) as [newName|]; [|done].
    intros s u. simpl. rewrite get_set. case_decide; [|apply Hst].
    intros [= <-]. simpl. by apply storedName_trim.
Qed.

Lemma run_namesStored evs : namesStored (run evs initialState).
Proof.
  induction evs as [|e evs IH] using rev_ind; [done|].
  rewrite run_snoc. by apply namesStored_step.
Qed.

Lemma filter_all {A} (P : A → Prop) `{∀ x, Decision (P x)} (l : list A) :
  (∀ x, x ∈ l → P x) → filter P l = l.
Proof.
  induction l as [|x l IH]; intros Hall; [done|].
  rewrite filter_cons_True by (apply Hall; left).
  f_equal. apply IH. intros y Hy. apply Hall. by right.
Qed.

Lemma onlineUsers_registry st :
  wellFormed st → namesStored st →
  onlineUsers st
  = (fun kv => mkOnlineUser (u_id kv.2) (u_username kv.2)) <$> connectedUsers st.
Proof.
  intros Hwf Hnames. unfold onlineUsers, JsMap.values.
  assert (∀ u, u ∈ (connectedUsers st).*2 → storedName (u_username u)) as Hall.
  { intros u ([s u'] & -> & Hin)%list_elem_of_fmap. simpl.
    apply (Hnames s). apply elem_of_get; [by apply wf_keys|done]. }
  rewrite filter_all.
  - rewrite <- list_fmap_compose. apply list_fmap_ext.
    intros i [s u] Hi. simpl. f_equal.
    apply (Hall u). apply list_elem_of_fmap. exists (s, u). split; [done|].
    by eapply list_elem_of_lookup_2.
  - intros u Hu. by apply storedName_not_blank, Hall.
Qed.

Lemma registry_ids_distinct st :
  wellFormed st → NoDup ((fun kv => u_id kv.2) <$> connectedUsers st).
Proof.
  intros Hwf. apply NoDup_fmap_2_strong.
  - intros [s1 u1] [s2 u2] H1 H2 Hid. simpl in Hid.
    apply elem_of_get in H1; [|by apply wf_keys].
    apply elem_of_get in H2; [|by apply wf_keys].
    assert (s1 = s2) as -> by (eapply wf_unique; eauto). congruence.
  - eapply NoDup_fmap_1. by apply wf_keys.
Qed.

(** X1.  Whatever events the server has handled, the [onlineUsers] list
    it sends has exactly one entry per registered session, in registry
    order, carrying the session's user id and name; no registered user
    is filtered out, and no user id occurs twice. *)
Theorem presence_list_is_the_registry (evs : list Event) :
  let st := run evs initialState in
  onlineUsers st
  = (fun kv => mkOnlineUser (u_id kv.2) (u_username kv.2)) <$> connectedUsers st ∧
  NoDup (ou_id <$> onlineUsers st).
Proof.
  intros st.
  pose proof (onlineUsers_registry st (run_wellFormed evs) (run_namesStored evs))
    as Hlist.
  split; [done|]. rewrite Hlist, <- list_fmap_compose.
  apply registry_ids_distinct, run_wellFormed.
Qed.

(** X2.  Whatever events the server has handled, every member of a
    recorded group who is registered is subscribed to the group's room:
    [join] puts a user into the rooms of the groups that list the user,
    and [joinChat] puts the registered members into the room of the group
    it stores. *)
Theorem registered_members_are_subscribed
    (evs : list Event) (chatId : string) (group : Group) (member : Member)
    (ms : string) :
  let st := run evs initialState in
  JsMap.get chatId (groupChats st) = Some group →
  member ∈ g_members group →
  registeredOn st (m_id member) ms →
  ms ∈ subscribersOf chatId st.
Proof. intros st. apply (run_converged evs). Qed.

(** Ann creates the group while Bob is away; Bob connects and registers
    afterwards and is in the room. *)
Lemma registered_members_are_subscribed_witness :
  let st := run [Connect "sA";
                 Join 10 "sA" (mkJoinData (Some "uA") (Some "Ann"));
                 Scenario.createTeam "group-1";
                 Connect "sB";
                 Join 30 "sB" (mkJoinData (Some "uB") (Some "Bob"))]
                initialState in
  "sB" ∈ subscribersOf "group-1" st.
Proof.
  intros st.
  apply (registered_members_are_subscribed _ "group-1"
           (mkGroup "group-1" "Team" (Some "uA") 20
              [mkMember "uA" "Ann"; mkMember "uB" "Bob"])
           (mkMember "uB" "Bob") "sB").
  - reflexivity.
  - right. left.
  - exists (mkUser "uB" "Bob" "sB" 30). split; reflexivity.
Defined.

(** X3.  Whatever events the server has handled, every subscriber of
    every room is a connected socket: the handlers add to a room only
    the caller's socket and sockets found in the table of connected
    sockets, and a socket that disconnects leaves its rooms. *)
Theorem subscribers_are_connected (evs : list Event) (room s : string) :
  let st := run evs initialState in
  s ∈ subscribersOf room st → s ∈ sockets st.
Proof. intros st. apply (run_subscribersConnected evs). Qed.

(** Bob was subscribed to the group's room and then reconnected on a new
    socket: the room holds the new socket, which is connected. *)
Lemma subscribers_are_connected_witness :
  let st := run (Scenario.online
                 ++ [Scenario.createTeam "group-1"; Connect "sB2";
                     Join 12 "sB2" (mkJoinData (Some "uB") (Some "Bob"))])
                initialState in
  "sB2" ∈ sockets st.
Proof.
  intros st. apply (subscribers_are_connected _ "group-1" "sB2").
  by vm_compute.
Defined.

(** ** Group records *)

Lemma onJoinChat_accepted_groupChats now sid d st :
  groupAccepted d = true →
  groupChats (onJoinChat now sid d st).1
  = JsMap.set (jc_chatId d) (groupOf now d) (groupChats st).
Proof.
  intros Hacc. rewrite onJoinChat_accepted_state by done.
  rewrite addMembersToRoom_groupChats. simpl.
  by rewrite roomOpened_groupChats.
Qed.

Lemma onJoinChat_chatRooms now sid d st :
  chatRooms (onJoinChat now sid d st).1 = chatRooms (roomOpened now sid d st).
Proof.
  destruct (groupAccepted d) eqn:Hacc.
  - rewrite onJoinChat_accepted_state by done.
    by rewrite addMembersToRoom_chatRooms.
  - rewrite onJoinChat_rejected_state by done.
    destruct (_ && _); [|done]. apply joinDirectPeers_directories.
Qed.

Lemma validMember_named m members :
  m ∈ validMembersOf members →
  ∃ name, md_username m = Some name ∧ Js.blank (Some name) = false.
Proof.
  unfold validMembersOf. intros [Hb _]%list_elem_of_filter.
  destruct (md_username m) as [name|]; [by exists name|done].
Qed.

Lemma groupOf_valid now d :
  groupAccepted d = true → groupValid (jc_chatId d) (groupOf now d).
Proof.
  unfold groupAccepted, groupOf, groupValid. simpl.
  destruct (jc_isGroup d); [|done]. simpl.
  destruct (jc_members d) as [[|m0 ms]|]; try done. simpl.
  destruct (jc_groupName d) as [name|] eqn:Hname; [|done]. simpl.
  destruct (Js.blank (Some name)) eqn:Hb; [done|]. simpl.
  destruct (validMembersOf (m0 :: ms)) as [|v vs] eqn:Hv; [done|]. intros _.
  split; [done|]. split; [by apply storedName_trim|]. split; [done|].
  intros m (md & -> & Hin)%list_elem_of_fmap.
  rewrite <- Hv in Hin.
  destruct (validMember_named _ _ Hin) as (n & Hn & Hnb).
  unfold storedMember. simpl. rewrite Hn. simpl. by apply storedName_trim.
Qed.

Lemma onDeleteGroup_groupChats sid d st k g :
  JsMap.get k (groupChats (onDeleteGroup sid d st).1) = Some g →
  JsMap.get k (groupChats st) = Some g.
Proof.
  unfold onDeleteGroup. destruct (JsMap.get (dg_chatId d) _); [|done].
  case_decide; [|done]. simpl. rewrite get_delete. by case_decide.
Qed.

Lemma groupsValid_step e st :
  (∀ k g, JsMap.get k (groupChats st) = Some g → groupValid k g) →
  ∀ k g, JsMap.get k (groupChats (step e st).1) = Some g → groupValid k g.
Proof.
  intros Hst k g.
  destruct (writesGroups e) eqn:He.
  2: { rewrite step_groupChats by done. apply Hst. }
  destruct e as [sid|sid|now sid d|now sid d|now sid d|sid d|now sid d
                |sid chatId|sid d|task]; try done; simpl;
    unfold whenConnected; (case_bool_decide; [|apply Hst]).
  - destruct (groupAccepted d) eqn:Hacc.
    + rewrite onJoinChat_accepted_groupChats by done.
      rewrite get_set. case_decide as Hk; [|apply Hst].
      intros [= <-]. subst k. by apply groupOf_valid.
    + rewrite onJoinChat_rejected_groupChats by done. apply Hst.
  - intros Hget. by eapply Hst, onDeleteGroup_groupChats.
Qed.

(** X4.  Whatever events the server has handled, every group record is
    filed under its own id, has a trimmed, non-empty name and at least
    one member, and every member it lists has a trimmed, non-empty name:
    a member sent with a blank name is never stored. *)
Theorem group_records_are_valid
    (evs : list Event) (chatId : string) (group : Group) :
  JsMap.get chatId (groupChats (run evs initialState)) = Some group →
  groupValid chatId group.
Proof.
  revert chatId group. induction evs as [|e evs IH] using rev_ind; [done|].
  rewrite run_snoc. by apply groupsValid_step.
Qed.

(** Ann creates a group whose payload lists Bob and a member without a
    name; the record keeps Ann and Bob only. *)
Lemma group_records_are_valid_witness :
  let d := mkJoinChatData "group-1" (Some "uA") (Some "Ann") true (Some " Team ")
             (Some [Scenario.ann; mkMemberData "uC" (Some "  "); Scenario.bob]) in
  let group := mkGroup "group-1" "Team" (Some "uA") 20
                 [mkMember "uA" "Ann"; mkMember "uB" "Bob"] in
  JsMap.get "group-1"
    (groupChats (run (Scenario.online ++ [JoinChat 20 "sA" d]) initialState))
  = Some group ∧
  groupValid "group-1" group.
Proof.
  intros d group. split; [reflexivity|].
  apply (group_records_are_valid (Scenario.online ++ [JoinChat 20 "sA" d])).
  reflexivity.
Defined.

(** ** Forwarded messages *)

Lemma blank_false_truthy o : Js.blank o = false → Js.truthy_opt o = true.
Proof.
  destruct o as [s|]; [|done]. unfold Js.blank. simpl.
  intros [Ht _]%orb_false_iff. by apply negb_false_iff in Ht.
Qed.

Lemma withPlaceholder_named now md :
  Js.truthy_opt (msg_username (withPlaceholder now md)) = true.
Proof.
  unfold withPlaceholder. simpl.
  by destruct (Js.truthy_opt (msg_username md)) eqn:Hn.
Qed.

(** The repair changes the sender's name and id only, and leaves a
    name that is not empty. *)
Lemma repairSender_fields now sid md st m :
  repairSender now sid md st = Some m →
  Js.truthy_opt (msg_username m) = true ∧
  msg_id m = msg_id md ∧ msg_text m = msg_text md ∧
  msg_timestamp m = msg_timestamp md ∧ msg_type m = msg_type md ∧
  msg_chatId m = msg_chatId md ∧ msg_platform m = msg_platform md.
Proof.
  unfold repairSender.
  destruct (Js.blank (msg_username md)) eqn:Hb.
  - destruct (JsMap.get sid (connectedUsers st)) as [user|].
    + destruct (Js.truthy (u_username user)) eqn:Hname.
      * by intros [= <-].
      * destruct (Js.truthy_opt (msg_chatId md)); [|done]. intros [= <-].
        split; [apply withPlaceholder_named|done].
    + destruct (Js.truthy_opt (msg_chatId md)); [|done]. intros [= <-].
      split; [apply withPlaceholder_named|done].
  - intros [= <-]. split; [by apply blank_false_truthy|done].
Qed.

Lemma unicastToMembers_payload m members st e :
  e ∈ unicastToMembers m members st → payloadOf e = Some (PMessage m).
Proof.
  unfold unicastToMembers. rewrite list_elem_of_In, in_flat_map.
  intros (member & _ & He). case_decide; [done|].
  destruct (memberSocket (m_id member) st); [|done].
  by destruct He as [<-|[]].
Qed.

Lemma routeMessage_payload sid chatId m st e :
  e ∈ (routeMessage sid chatId m st).2 → payloadOf e = Some (PMessage m).
Proof.
  unfold routeMessage.
  destruct chatId as [chatId|]; [|by intros ->%list_elem_of_singleton].
  destruct (Js.truthy chatId); [|by intros ->%list_elem_of_singleton].
  simpl. destruct (JsMap.get chatId _) as [group|];
    [|by intros ->%list_elem_of_singleton].
  destruct (Js.startsWith _ _); [|by intros ->%list_elem_of_singleton].
  apply unicastToMembers_payload.
Qed.

(** X5.  Every emission of the [message] handler carries the message it
    received with at most the sender's name and id replaced, and the
    name it carries is never absent or empty. *)
Theorem forwarded_message_is_named
    (now : N) (sid : string) (md : MessageData) (st : State) (e : Effect) :
  e ∈ (onMessage now sid md st).2 →
  ∃ m, payloadOf e = Some (PMessage m) ∧
       Js.truthy_opt (msg_username m) = true ∧
       msg_id m = msg_id md ∧ msg_text m = msg_text md ∧
       msg_timestamp m = msg_timestamp md ∧ msg_type m = msg_type md ∧
       msg_chatId m = msg_chatId md ∧ msg_platform m = msg_platform md.
Proof.
  unfold onMessage.
  destruct (repairSender now sid md st) as [m|] eqn:Hm;
    [|by intros ?%elem_of_nil].
  intros He. exists m. split; [by eapply routeMessage_payload|].
  by eapply repairSender_fields.
Qed.

(** A socket that never registered sends a nameless message to a room. *)
Lemma forwarded_message_is_named_witness :
  let st := run (Scenario.online ++ [Connect "sC"]) initialState in
  let md := Scenario.text (Some "lobby") None None in
  ∃ m, payloadOf (ToRoom "sC" "lobby"
                    (PMessage (Scenario.text (Some "lobby") (Some "Unknown User")
                                 (Some "unknown-40"))))
       = Some (PMessage m) ∧
       Js.truthy_opt (msg_username m) = true ∧ msg_text m = Some "hi".
Proof.
  intros st md.
  destruct (forwarded_message_is_named 40 "sC" md st
              (ToRoom "sC" "lobby"
                 (PMessage (Scenario.text (Some "lobby") (Some "Unknown User")
                              (Some "unknown-40")))))
    as (m & Hp & Hn & _ & Ht & _).
  - left.
  - exists m. split; [exact Hp|]. split; [exact Hn|exact Ht].
Defined.

(** ** Chat rooms and their histories *)

Lemma storeMessage_chatRooms chatId m st :
  chatRooms (storeMessage chatId m st)
  = match JsMap.get chatId (chatRooms st) with
    | Some chatRoom =>
        JsMap.set chatId
          (mkChatRoom (r_id chatRoom) (r_isGroup chatRoom) (r_name chatRoom)
             (r_createdAt chatRoom) (r_members chatRoom)
             (Some (default [] (r_messages chatRoom) ++ [m])))
          (chatRooms st)
    | None => chatRooms st
    end.
Proof. unfold storeMessage. by destruct (JsMap.get _ _). Qed.

Lemma routeMessage_chatRooms sid chatId m st :
  chatRooms (routeMessage sid chatId m st).1
  = match chatId with
    | Some c => if Js.truthy c then chatRooms (storeMessage c m st)
                else chatRooms st
    | None => chatRooms st
    end.
Proof.
  unfold routeMessage. destruct chatId as [c|]; [|done].
  destruct (Js.truthy c); [|done]. simpl.
  rewrite !storeMessage_chatRooms.
  assert (∀ s, chatRooms s = chatRooms st →
               match JsMap.get c (chatRooms s) with
               | Some chatRoom =>
                   JsMap.set c
                     (mkChatRoom (r_id chatRoom) (r_isGroup chatRoom)
                        (r_name chatRoom) (r_createdAt chatRoom)
                        (r_members chatRoom)
                        (Some (default [] (r_messages chatRoom) ++ [m])))
                     (chatRooms s)
               | None => chatRooms s
               end
               = match JsMap.get c (chatRooms st) with
                 | Some chatRoom =>
                     JsMap.set c
                       (mkChatRoom (r_id chatRoom) (r_isGroup chatRoom)
                          (r_name chatRoom) (r_createdAt chatRoom)
                          (r_members chatRoom)
                          (Some (default [] (r_messages chatRoom) ++ [m])))
                       (chatRooms st)
                 | None => chatRooms st
                 end) as Hsame by (by intros s ->).
  apply Hsame.
  destruct (Js.startsWith _ _); [|done].
  destruct (rooms st !! c);
    [|destruct (JsMap.has _ _); [|done]];
    apply ensureGroupMembersInRoom_chatRooms.
Qed.

Lemma roomOpened_chatRooms now sid d st :
  chatRooms (roomOpened now sid d st)
  = if JsMap.has (jc_chatId d) (chatRooms st) then chatRooms st
    else JsMap.set (jc_chatId d)
           (mkChatRoom (jc_chatId d) (jc_isGroup d)
              (if jc_isGroup d then jc_groupName d else Some "Direct Chat")
              now (if jc_isGroup d then jc_members d else Some []) None)
           (chatRooms st).
Proof. unfold roomOpened. simpl. by destruct (JsMap.has _ _). Qed.

(** Events other than [joinChat], [message] and [deleteGroup] leave the
    chat-room records alone. *)
Lemma step_chatRooms e st :
  match e with
  | JoinChat _ _ _ | Message _ _ _ | DeleteGroup _ _ => False
  | _ => True
  end →
  chatRooms (step e st).1 = chatRooms st.
Proof.
  destruct e as [sid|sid|now sid d|now sid d|now sid d|sid d|now sid d
                |sid chatId|sid d|task]; simpl; try done; intros _;
    unfold whenConnected; try (case_bool_decide; [|done]).
  - by destruct (_ && _).
  - by rewrite onDisconnect_connectedUsers.
  - apply onJoin_directories.
  - apply onTyping_directories.
  - apply onUsernameChange_directories.
  - apply onGetGroupInfo_directories.
  - apply runDeferred_directories.
Qed.

Lemma directoriesOk_same st st' :
  groupChats st' = groupChats st → chatRooms st' = chatRooms st →
  directoriesOk st → directoriesOk st'.
Proof. intros Hg Hr [H1 H2 H3 H4]. split; rewrite ?Hg, ?Hr; done. Qed.

Lemma directoriesOk_step e st : directoriesOk st → directoriesOk (step e st).1.
Proof.
  intros Hst.
  destruct e as [sid|sid|now sid d|now sid d|now sid d|sid d|now sid d
                |sid chatId|sid d|task];
    try (apply (directoriesOk_same st);
         [apply step_groupChats; reflexivity
         |apply step_chatRooms; exact I
         |exact Hst]);
    simpl; unfold whenConnected; (case_bool_decide; [|exact Hst]);
    destruct Hst as [H1 H2 H3 H4].
  - (* joinChat *)
    assert (is_Some (JsMap.get (jc_chatId d)
                       (chatRooms (roomOpened now sid d st)))) as Hopened.
    { rewrite roomOpened_chatRooms.
      destruct (JsMap.has _ _) eqn:Hhas; [by apply has_true|].
      rewrite get_set, decide_True by done. by eexists. }
    assert (∀ k, is_Some (JsMap.get k (chatRooms st)) →
                 is_Some (JsMap.get k (chatRooms (roomOpened now sid d st))))
      as Hkept.
    { intros k Hk. rewrite roomOpened_chatRooms.
      destruct (JsMap.has _ _); [done|]. rewrite get_set.
      case_decide; [by eexists|done]. }
    split; rewrite ?onJoinChat_chatRooms.
    + destruct (groupAccepted d) eqn:Hacc.
      * rewrite onJoinChat_accepted_groupChats by done.
        by apply NoDup_keys_set.
      * by rewrite onJoinChat_rejected_groupChats.
    + rewrite roomOpened_chatRooms. destruct (JsMap.has _ _); [done|].
      by apply NoDup_keys_set.
    + intros k g. destruct (groupAccepted d) eqn:Hacc.
      * rewrite onJoinChat_accepted_groupChats by done. rewrite get_set.
        case_decide as Hk; [by subst|]. intros Hg. by eapply Hkept, H3.
      * rewrite onJoinChat_rejected_groupChats by done.
        intros Hg. by eapply Hkept, H3.
    + intros k r. rewrite roomOpened_chatRooms.
      destruct (JsMap.has _ _); [apply H4|]. rewrite get_set.
      case_decide; [by intros [= <-]|apply H4].
  - (* message *)
    unfold onMessage.
    destruct (repairSender now sid d st) as [m|]; [|by split].
    split; rewrite ?routeMessage_groupChats, ?routeMessage_chatRooms; try done.
    + destruct (msg_chatId d) as [c|]; [|done].
      destruct (Js.truthy c); [|done]. rewrite storeMessage_chatRooms.
      destruct (JsMap.get c (chatRooms st)); [|done]. by apply NoDup_keys_set.
    + intros k g Hg. specialize (H3 k g Hg).
      destruct (msg_chatId d) as [c|]; [|done].
      destruct (Js.truthy c); [|done]. rewrite storeMessage_chatRooms.
      destruct (JsMap.get c (chatRooms st)); [|done]. rewrite get_set.
      case_decide; [by eexists|done].
    + intros k r. destruct (msg_chatId d) as [c|]; [|apply H4].
      destruct (Js.truthy c); [|apply H4]. rewrite storeMessage_chatRooms.
      destruct (JsMap.get c (chatRooms st)) as [room|] eqn:Hroom; [|apply H4].
      rewrite get_set. case_decide as Hk; [|apply H4].
      intros [= <-]. simpl. subst k. by apply H4.
  - (* deleteGroup *)
    unfold onDeleteGroup.
    destruct (JsMap.get (dg_chatId d) (groupChats st)); [|by split].
    case_decide; [|by split]. split; simpl.
    + by apply NoDup_keys_delete.
    + by apply NoDup_keys_delete.
    + intros k g'. rewrite !get_delete. case_decide; [done|]. apply H3.
    + intros k r. rewrite get_delete. case_decide; [done|]. apply H4.
Qed.

Lemma run_directoriesOk evs : directoriesOk (run evs initialState).
Proof.
  induction evs as [|e evs IH] using rev_ind.
  - split; simpl; try done; apply NoDup_nil_2.
  - rewrite run_snoc. by apply directoriesOk_step.
Qed.

Lemma keys_elem {V} k (m : list (string * V)) :
  k ∈ m.*1 ↔ is_Some (JsMap.get k m).
Proof.
  split.
  - intros Hk. destruct (JsMap.get k m) eqn:Hget; [by eexists|].
    by apply get_None_keys in Hget.
  - intros [v Hv]. apply list_elem_of_fmap. exists (k, v).
    split; [done|]. by apply get_elem_of.
Qed.

(** X6.  Whatever events the server has handled, the health endpoint
    never reports more group chats than chat rooms, because every group
    record has a chat-room record, nor more connected users than there
    are connected sockets. *)
Theorem health_counts_are_consistent (evs : list Event) (now : N) :
  let st := run evs initialState in
  let h := healthCheck now st in
  h_groupChats h ≤ h_chatRooms h ∧
  h_connectedUsers h ≤ size (sockets st) ∧
  (∀ k, is_Some (JsMap.get k (groupChats st)) →
        is_Some (JsMap.get k (chatRooms st))).
Proof.
  intros st h. destruct (run_directoriesOk evs) as [Hg Hr Hpaired _].
  fold st in Hg, Hr, Hpaired.
  pose proof (run_wellFormed evs) as Hwf. fold st in Hwf.
  split; [|split].
  - subst h. simpl.
    rewrite <- (length_fmap fst (groupChats st)),
            <- (length_fmap fst (chatRooms st)).
    apply submseteq_length, NoDup_submseteq; [done|].
    intros k [g Hk]%keys_elem. apply keys_elem. by eapply Hpaired.
  - subst h. simpl. rewrite <- (length_fmap fst (connectedUsers st)).
    unfold size, set_size. simpl.
    apply submseteq_length, NoDup_submseteq; [by apply wf_keys|].
    intros k [u Hk]%keys_elem. apply elem_of_elements. by eapply wf_live.
  - intros k [g Hk]. by eapply Hpaired.
Qed.

Lemma health_counts_are_consistent_witness :
  let st := run (Scenario.online ++ [Scenario.createTeam "group-1"])
                initialState in
  h_groupChats (healthCheck 50 st) ≤ h_chatRooms (healthCheck 50 st) ∧
  is_Some (JsMap.get "group-1" (chatRooms st)).
Proof.
  intros st.
  destruct (health_counts_are_consistent
              (Scenario.online ++ [Scenario.createTeam "group-1"]) 50)
    as (Hle & _ & Hpaired).
  split; [exact Hle|].
  apply Hpaired. eexists. reflexivity.
Defined.


Lemma historyAddressed_step e st :
  historyAddressed st → historyAddressed (step e st).1.
Proof.
  intros Hst.
  destruct e as [sid|sid|now sid d|now sid d|now sid d|sid d|now sid d
                |sid chatId|sid d|task];
    try (unfold historyAddressed; rewrite step_chatRooms by exact I;
         exact Hst);
    simpl; unfold whenConnected; (case_bool_decide; [|exact Hst]).
  - intros k r msgs m. rewrite onJoinChat_chatRooms, roomOpened_chatRooms.
    destruct (JsMap.has _ _); [apply Hst|]. rewrite get_set.
    case_decide; [by intros [= <-]|apply Hst].
  - unfold onMessage.
    destruct (repairSender now sid d st) as [m0|] eqn:Hm0; [|exact Hst].
    destruct (repairSender_fields _ _ _ _ _ Hm0) as (Hname & _ & _ & _ & _ & Hc & _).
    intros k r msgs m. rewrite routeMessage_chatRooms.
    destruct (msg_chatId d) as [c|]; [|apply Hst].
    destruct (Js.truthy c); [|apply Hst]. rewrite storeMessage_chatRooms.
    destruct (JsMap.get c (chatRooms st)) as [room|] eqn:Hroom; [|apply Hst].
    rewrite get_set. case_decide as Hk; [|apply Hst].
    intros [= <-]. simpl. intros [= <-]. subst k.
    intros [Hold|Hnew]%elem_of_app;
      [|apply list_elem_of_singleton in Hnew; by subst m].
    destruct (r_messages room) as [old|] eqn:Hmsgs;
      [|by apply elem_of_nil in Hold].
    by apply (Hst c room old m).
  - intros k r msgs m. unfold onDeleteGroup.
    destruct (JsMap.get (dg_chatId d) (groupChats st)); [|apply Hst].
    case_decide; [|apply Hst]. simpl. rewrite get_delete.
    case_decide; [done|apply Hst].
Qed.

(** X7.  Whatever events the server has handled, the stored history of
    a chat room holds only messages that name that room as their chat,
    each with a sender name that is not empty. *)
Theorem history_is_addressed
    (evs : list Event) (k : string) (r : ChatRoom) (msgs : list MessageData)
    (m : MessageData) :
  JsMap.get k (chatRooms (run evs initialState)) = Some r →
  r_messages r = Some msgs → m ∈ msgs →
  msg_chatId m = Some k ∧ Js.truthy_opt (msg_username m) = true.
Proof.
  revert k r msgs m. induction evs as [|e evs IH] using rev_ind; [done|].
  rewrite run_snoc. by apply historyAddressed_step.
Qed.

(** Ann writes to the group, Bob answers without a name. *)
Lemma history_is_addressed_witness :
  let evs := Scenario.online
             ++ [Scenario.createTeam "group-1";
                 Message 40 "sA" (Scenario.text (Some "group-1") (Some "Ann") (Some "uA"));
                 Message 41 "sB" (Scenario.text (Some "group-1") None None)] in
  let answer := Scenario.text (Some "group-1") (Some "Bob") (Some "uB") in
  msg_chatId answer = Some "group-1" ∧ Js.truthy_opt (msg_username answer) = true.
Proof.
  intros evs answer.
  apply (history_is_addressed evs "group-1"
           (mkChatRoom "group-1" true (Some "Team") 20
              (Some [Scenario.ann; Scenario.bob])
              (Some [Scenario.text (Some "group-1") (Some "Ann") (Some "uA");
                     answer]))
           [Scenario.text (Some "group-1") (Some "Ann") (Some "uA"); answer]).
  - reflexivity.
  - reflexivity.
  - right. left.
Defined.

(** X8.  When a message names a chat that has a chat-room record, the
    repaired message is appended at the end of that room's history and
    nothing else in the room's record changes; the records of the other
    rooms stay as they were, and for a chat without a record nothing is
    stored. *)
Theorem message_is_appended_to_history
    (now : N) (sid : string) (md m : MessageData) (c : string) (st : State) :
  repairSender now sid md st = Some m →
  msg_chatId md = Some c → Js.truthy c = true →
  let st' := (onMessage now sid md st).1 in
  (∀ room, JsMap.get c (chatRooms st) = Some room →
     JsMap.get c (chatRooms st')
     = Some (mkChatRoom (r_id room) (r_isGroup room) (r_name room)
               (r_createdAt room) (r_members room)
               (Some (default [] (r_messages room) ++ [m])))) ∧
  (JsMap.get c (chatRooms st) = None → chatRooms st' = chatRooms st) ∧
  (∀ k, k ≠ c → JsMap.get k (chatRooms st') = JsMap.get k (chatRooms st)).
Proof.
  intros Hm Hc Ht st'. subst st'. unfold onMessage. rewrite Hm.
  rewrite routeMessage_chatRooms, Hc, Ht, storeMessage_chatRooms.
  split; [|split].
  - intros room ->. by rewrite get_set, decide_True.
  - by intros ->.
  - intros k Hk. destruct (JsMap.get c (chatRooms st)); [|done].
    by rewrite get_set, decide_False.
Qed.

(** Ann's second message to the group. *)
Lemma message_is_appended_to_history_witness :
  let first := Scenario.text (Some "group-1") (Some "Ann") (Some "uA") in
  let second := mkMessageData (Some "m2") (Some "again") (Some "uA") (Some "Ann")
                  (Some 41%N) (Some "text") (Some "group-1") None in
  let st := run (Scenario.online
                 ++ [Scenario.createTeam "group-1"; Message 40 "sA" first])
                initialState in
  r_messages <$> JsMap.get "group-1" (chatRooms (onMessage 41 "sA" second st).1)
  = Some (Some [first; second]).
Proof.
  intros first second st.
  destruct (message_is_appended_to_history 41 "sA" second second "group-1" st)
    as (Happend & _ & _); [reflexivity..|].
  rewrite (Happend (mkChatRoom "group-1" true (Some "Team") 20
                      (Some [Scenario.ann; Scenario.bob]) (Some [first])));
    reflexivity.
Defined.

(** X9.  Once its creator has deleted a group, a message that names the
    group's chat id is no longer delivered member by member and is not
    recorded: the handler changes nothing and makes one room broadcast,
    which reaches the sockets still subscribed to the room. *)
Theorem message_after_delete_is_room_broadcast
    (sid : string) (d : DeleteGroupData) (group : Group) (st : State)
    (now : N) (sender : string) (md m : MessageData) :
  JsMap.get (dg_chatId d) (groupChats st) = Some group →
  g_createdBy group = dg_userId d →
  let st' := (onDeleteGroup sid d st).1 in
  msg_chatId md = Some (dg_chatId d) → Js.truthy (dg_chatId d) = true →
  repairSender now sender md st' = Some m →
  onMessage now sender md st'
  = (st', [ToRoom sender (dg_chatId d) (PMessage m)]) ∧
  subscribersOf (dg_chatId d) st' = subscribersOf (dg_chatId d) st.
Proof.
  intros Hget Hcreator st' Hc Ht Hm.
  assert (st' = with_chatRooms (JsMap.delete (dg_chatId d) (chatRooms st))
                  (with_groupChats (JsMap.delete (dg_chatId d) (groupChats st)) st))
    as Hst'.
  { subst st'. unfold onDeleteGroup. rewrite Hget. by rewrite decide_True. }
  assert (JsMap.get (dg_chatId d) (groupChats st') = None) as Hgone.
  { rewrite Hst'. simpl. by rewrite get_delete, decide_True. }
  assert (JsMap.get (dg_chatId d) (chatRooms st') = None) as Hroom.
  { rewrite Hst'. simpl. by rewrite get_delete, decide_True. }
  split; [|by rewrite Hst'].
  unfold onMessage. rewrite Hm. unfold routeMessage. rewrite Hc, Ht.
  assert (ensureGroupMembersInRoom (dg_chatId d) st' = st') as Hensure.
  { unfold ensureGroupMembersInRoom. rewrite Hgone.
    by destruct (Js.startsWith _ _). }
  assert (JsMap.has (dg_chatId d) (groupChats st') = false) as Hhas
    by (by apply has_false).
  rewrite Hhas, Hensure.
  assert ((if Js.startsWith "group-" (dg_chatId d)
           then match rooms st' !! dg_chatId d with
                | Some _ => st'
                | None => st'
                end
           else st') = st') as ->.
  { destruct (Js.startsWith _ _); [|done]. by destruct (rooms st' !! _). }
  rewrite Hgone. unfold storeMessage. by rewrite Hroom.
Qed.

(** Ann deletes the group; Bob, still subscribed, writes to it. *)
Lemma message_after_delete_is_room_broadcast_witness :
  let st := run (Scenario.online ++ [Scenario.createTeam "group-1"]) initialState in
  let st' := (onDeleteGroup "sA" (Scenario.annDeletes "group-1") st).1 in
  let md := Scenario.text (Some "group-1") (Some "Bob") (Some "uB") in
  (onMessage 40 "sB" md st').2 = [ToRoom "sB" "group-1" (PMessage md)] ∧
  "sA" ∈ subscribersOf "group-1" st'.
Proof.
  intros st st' md.
  destruct (message_after_delete_is_room_broadcast "sA"
              (Scenario.annDeletes "group-1")
              (mkGroup "group-1" "Team" (Some "uA") 20
                 [mkMember "uA" "Ann"; mkMember "uB" "Bob"])
              st 40 "sB" md md) as [Hmsg Hsubs]; [reflexivity..|].
  split.
  - fold st' in Hmsg. by rewrite Hmsg.
  - by vm_compute.
Defined.

(** X10.  A group payload that [joinChat] accepts can be read back at
    once: [getGroupInfo] for its chat id answers any requester with the
    trimmed name, the members that had a usable name (names trimmed), the
    caller as [createdBy] and the time of the call as [createdAt]. *)
Theorem created_group_is_read_back
    (now : N) (sid requester : string) (d : JoinChatData) (st : State) :
  groupAccepted d = true →
  (onGetGroupInfo requester (jc_chatId d) (onJoinChat now sid d st).1).2
  = [Emit requester
       (PGroupInfo (jc_chatId d)
          (Js.trim (default EmptyString (jc_groupName d)))
          (storedMember <$> validMembersOf (default [] (jc_members d)))
          (jc_userId d) now)].
Proof.
  intros Hacc. unfold onGetGroupInfo.
  rewrite onJoinChat_accepted_groupChats by done.
  by rewrite get_set, decide_True.
Qed.

(** Ann creates the group; Bob asks for its record. *)
Lemma created_group_is_read_back_witness :
  let st := run Scenario.online initialState in
  (onGetGroupInfo "sB" "group-1"
     (onJoinChat 20 "sA" (Scenario.teamPayload "group-1" "uA" "Ann") st).1).2
  = [Emit "sB"
       (PGroupInfo "group-1" "Team" [mkMember "uA" "Ann"; mkMember "uB" "Bob"]
          (Some "uA") 20)].
Proof.
  intros st.
  apply (created_group_is_read_back 20 "sA" "sB"
           (Scenario.teamPayload "group-1" "uA" "Ann") st).
  reflexivity.
Defined.

(** X11.  Group records are written by [joinChat] and [deleteGroup]
    only, and registry entries by [join], [usernameChange] and a closing
    connection only: no other event changes them.  In particular a
    rename does not reach the member names kept in group records. *)
Theorem writers_of_groups_and_registry (e : Event) (st : State) :
  (writesGroups e = false → groupChats (step e st).1 = groupChats st) ∧
  (writesRegistry e = false → connectedUsers (step e st).1 = connectedUsers st).
Proof. split; [apply step_groupChats|apply step_connectedUsers]. Qed.

(** Bob renames himself: the group he is in still lists him as Bob. *)
Lemma writers_of_groups_and_registry_witness :
  let st := run (Scenario.online ++ [Scenario.createTeam "group-1"]) initialState in
  let e := UsernameChange 30 "sB" (mkUsernameChangeData (Some "Bob") (Some "Rob")) in
  g_members <$> JsMap.get "group-1" (groupChats (step e st).1)
  = Some [mkMember "uA" "Ann"; mkMember "uB" "Bob"].
Proof.
  intros st e.
  rewrite (proj1 (writers_of_groups_and_registry e st)); reflexivity.
Defined.

(** ** Typing indicators *)

(** X12.  The [typing] handler makes exactly one emission, to the room
    named by the event or to everybody else under the chat id [global]
    when it names none.  The user name it carries is the one sent when
    that is not blank and not the placeholder [Unknown User]; otherwise
    it is the name registered for the socket when there is one and it is
    not empty, and else [User-] followed by the first five characters of
    the socket id; it is never empty.  The platform is the one sent, or
    [unknown] when none or an empty one was sent.  No record of the
    server changes. *)
Theorem typing_is_named (sid : string) (d : TypingData) (st : State) :
  ∃ name platform,
    Js.truthy name = true ∧ Js.truthy platform = true ∧
    (Js.blank (t_username d) = false → t_username d ≠ Some "Unknown User" →
     t_username d = Some name) ∧
    (Js.blank (t_username d) = true ∨ t_username d = Some "Unknown User" →
     (∀ user, JsMap.get sid (connectedUsers st) = Some user →
              Js.truthy (u_username user) = true →
              name = u_username user) ∧
     (∀ user, JsMap.get sid (connectedUsers st) = Some user →
              Js.truthy (u_username user) = false →
              name = "User-" +:+ Js.take 5 sid) ∧
     (JsMap.get sid (connectedUsers st) = None →
      name = "User-" +:+ Js.take 5 sid)) ∧
    (Js.truthy_opt (t_platform d) = true → t_platform d = Some platform) ∧
    (Js.truthy_opt (t_platform d) = false → platform = "unknown") ∧
    (onTyping sid d st).2
    = [if Js.truthy_opt (t_chatId d)
       then ToRoom sid (default EmptyString (t_chatId d))
              (PUserTyping name (t_isTyping d)
                 (default EmptyString (t_chatId d)) platform)
       else Broadcast sid (PUserTyping name (t_isTyping d) "global" platform)] ∧
    registry (onTyping sid d st).1 = registry st ∧
    groupChats (onTyping sid d st).1 = groupChats st ∧
    chatRooms (onTyping sid d st).1 = chatRooms st.
Proof.
  set (name :=
         if Js.blank (t_username d)
            || bool_decide (t_username d = Some "Unknown User")
         then match JsMap.get sid (connectedUsers st) with
              | Some user =>
                  if Js.truthy (u_username user) then u_username user
                  else "User-" +:+ Js.take 5 sid
              | None => "User-" +:+ Js.take 5 sid
              end
         else default EmptyString (t_username d)).
  set (platform :=
         if Js.truthy_opt (t_platform d)
         then default EmptyString (t_platform d) else "unknown").
  exists name, platform.
  split; [|split; [|split; [|split; [|split; [|split; [|split;
    [|split; [apply onTyping_registry|apply onTyping_directories]]]]]]]].
  - subst name. destruct (Js.blank (t_username d)) eqn:Hb; simpl.
    + destruct (JsMap.get sid (connectedUsers st)) as [user|]; [|done].
      by destruct (Js.truthy (u_username user)) eqn:Hn.
    + case_bool_decide as Hu; simpl.
      * destruct (JsMap.get sid (connectedUsers st)) as [user|]; [|done].
        by destruct (Js.truthy (u_username user)) eqn:Hn.
      * apply blank_false_truthy in Hb.
        by destruct (t_username d) as [n|].
  - subst platform. destruct (Js.truthy_opt (t_platform d)) eqn:Hp; [|done].
    by destruct (t_platform d).
  - intros Hb Hu. subst name. rewrite Hb. simpl.
    rewrite bool_decide_eq_false_2 by done.
    apply blank_false_truthy in Hb. by destruct (t_username d).
  - intros Hrepair.
    assert (Js.blank (t_username d)
            || bool_decide (t_username d = Some "Unknown User") = true) as Hcond.
    { destruct Hrepair as [->|Hu]; [done|].
      rewrite (bool_decide_eq_true_2 _ Hu). apply orb_true_r. }
    subst name. rewrite Hcond. split; [|split].
    + intros user -> Hn. by rewrite Hn.
    + intros user -> Hn. by rewrite Hn.
    + by intros ->.
  - intros Hp. subst platform. rewrite Hp. by destruct (t_platform d).
  - intros Hp. subst platform. by rewrite Hp.
  - unfold onTyping. fold name. fold platform.
    destruct (t_chatId d) as [c|]; [|done]. simpl.
    by destruct (Js.truthy c).
Qed.

(** Ann, registered on [sA], sends a typing event without a name. *)
Lemma typing_is_named_witness :
  let st := run Scenario.online initialState in
  let d := mkTypingData None true (Some "uA-uB") None in
  (onTyping "sA" d st).2
  = [ToRoom "sA" "uA-uB" (PUserTyping "Ann" true "uA-uB" "unknown")].
Proof.
  intros st d.
  destruct (typing_is_named "sA" d st)
    as (name & platform & _ & _ & _ & Hname & _ & Hplatform & Hfx & _).
  rewrite Hfx. simpl.
  destruct (Hname (or_introl eq_refl)) as (Hreg & _ & _).
  rewrite (Hreg (mkUser "uA" "Ann" "sA" 10) eq_refl eq_refl).
  by rewrite (Hplatform eq_refl).
Defined.

(** ** Direct chats *)

Lemma includes_app c s t :
  Js.includes c (s +:+ t) = Js.includes c s || Js.includes c t.
Proof.
  induction s as [|a s IH]; [done|].
  rewrite app_cons. unfold Js.includes. fold Js.includes.
  by rewrite IH, orb_assoc.
Qed.

Lemma includes_rev c s : Js.includes c (String.rev s) = Js.includes c s.
Proof.
  induction s as [|a s IH]; [done|].
  rewrite rev_cons, includes_app, IH.
  unfold Js.includes. fold Js.includes. simpl.
  rewrite orb_false_r. apply orb_comm.
Qed.

(** No piece of a split contains the separator. *)
Lemma split_go_pieces c cur s p :
  Js.includes c cur = false → p ∈ Js.split_go c cur s → Js.includes c p = false.
Proof.
  revert cur. induction s as [|a s IH]; intros cur Hcur; simpl.
  - intros ->%list_elem_of_singleton. by rewrite includes_rev.
  - destruct (Ascii.eqb a c) eqn:Ha.
    + intros [->|Hp]%elem_of_cons; [by rewrite includes_rev|].
      by apply (IH EmptyString).
    + apply IH. unfold Js.includes. fold Js.includes. by rewrite Ha, Hcur.
Qed.

Lemma split_pieces c s p : p ∈ Js.split c s → Js.includes c p = false.
Proof. by apply split_go_pieces. Qed.

Lemma split_go_whole c cur a :
  Js.includes c a = false →
  Js.split_go c cur a = [String.rev cur +:+ a].
Proof.
  revert cur. induction a as [|x a IH]; intros cur Ha; simpl.
  - by rewrite app_empty_r.
  - unfold Js.includes in Ha. fold Js.includes in Ha.
    apply orb_false_iff in Ha as [Hx Ha]. rewrite Hx.
    rewrite (IH (String x cur) Ha), rev_cons, app_assoc_string. done.
Qed.

Lemma split_go_first c cur a rest :
  Js.includes c a = false →
  Js.split_go c cur (a +:+ String c rest)
  = (String.rev cur +:+ a) :: Js.split_go c EmptyString rest.
Proof.
  revert cur. induction a as [|x a IH]; intros cur Ha.
  - simpl. rewrite Ascii.eqb_refl. by rewrite app_empty_r.
  - unfold Js.includes in Ha. fold Js.includes in Ha.
    apply orb_false_iff in Ha as [Hx Ha].
    rewrite app_cons. simpl. rewrite Hx.
    rewrite (IH (String x cur) Ha), rev_cons, app_assoc_string. done.
Qed.

(** Splitting what was joined gives the two pieces back when neither
    contains the separator. *)
Lemma split_join_pair c a b :
  Js.includes c a = false → Js.includes c b = false →
  Js.split c (a +:+ String c b) = [a; b].
Proof.
  intros Ha Hb. unfold Js.split.
  rewrite split_go_first by done. by rewrite split_go_whole by done.
Qed.

Lemma directChatId_cases a b :
  directChatId a b = a +:+ String "-" b ∨ directChatId a b = b +:+ String "-" a.
Proof.
  unfold directChatId. rewrite sort_pair.
  destruct (Js.before b a); [by right|by left].
Qed.

Lemma extends_joinSockets chatId (l : list string) st :
  extends st
    (foldl (fun s sid' =>
              if bool_decide (sid' ∈ sockets s) then joinRoom sid' chatId s else s)
           st l).
Proof.
  revert st. induction l as [|x l IH]; intros st; simpl; [apply extends_refl|].
  eapply extends_trans; [|apply IH].
  case_bool_decide; [by apply extends_joinRoom|apply extends_refl].
Qed.

Lemma joinSockets_subscribes chatId (l : list string) st s :
  s ∈ l → s ∈ sockets st →
  s ∈ subscribersOf chatId
        (foldl (fun s sid' =>
                  if bool_decide (sid' ∈ sockets s) then joinRoom sid' chatId s
                  else s) st l).
Proof.
  revert st. induction l as [|x l IH]; intros st Hin Hs;
    [by apply elem_of_nil in Hin|]. simpl.
  apply elem_of_cons in Hin as [->|Hin].
  - destruct (extends_joinSockets chatId l
                (if bool_decide (x ∈ sockets st) then joinRoom x chatId st else st))
      as (_ & Hgrow & _).
    apply Hgrow. rewrite bool_decide_eq_true_2 by done.
    rewrite subscribersOf_joinRoom, decide_True by done.
    apply elem_of_union. left. by apply elem_of_singleton.
  - apply IH; [done|]. by case_bool_decide.
Qed.

(** X13.  When a registered user opens the direct chat of two users
    whose ids contain no [-], under the id the client builds for them,
    the sockets of both users join the room if they are registered,
    whoever of the two made the call, and so does the caller's socket. *)
Theorem direct_chat_joins_both_users
    (evs : list Event) (now : N) (sid : string) (d : JoinChatData)
    (a b uid s : string) :
  let st := run evs initialState in
  jc_isGroup d = false →
  jc_chatId d = directChatId a b →
  Js.includes "-"%char a = false → Js.includes "-"%char b = false →
  uid = a ∨ uid = b →
  registeredOn st uid s →
  let st' := (onJoinChat now sid d st).1 in
  s ∈ subscribersOf (directChatId a b) st' ∧
  sid ∈ subscribersOf (directChatId a b) st'.
Proof.
  intros st Hg Hc Ha Hb Huid (u & Hget & Hid) st'.
  pose proof (run_wellFormed evs) as Hwf. fold st in Hwf.
  assert (groupAccepted d = false) as Hrej by (unfold groupAccepted; by rewrite Hg).
  assert (Js.includes "-"%char (directChatId a b) = true) as Hdash.
  { destruct (directChatId_cases a b) as [-> | ->];
      rewrite includes_app; apply orb_true_iff; right; done. }
  assert (uid ∈ Js.split "-"%char (directChatId a b)) as Hpiece.
  { destruct (directChatId_cases a b) as [-> | ->];
      rewrite split_join_pair by done;
      destruct Huid as [-> | ->]; set_solver. }
  subst st'. rewrite onJoinChat_rejected_state by done.
  rewrite Hg, Hc, Hdash. simpl.
  set (opened := roomOpened now sid d st).
  assert (registry opened = registry st) as Hreg by apply roomOpened_registry.
  assert (sid ∈ subscribersOf (directChatId a b) opened) as Hsid.
  { subst opened. unfold roomOpened. rewrite Hc.
    assert (sid ∈ subscribersOf (directChatId a b)
                    (joinRoom sid (directChatId a b) st)) as Hj.
    { rewrite subscribersOf_joinRoom, decide_True by done.
      apply elem_of_union. left. by apply elem_of_singleton. }
    by destruct (JsMap.has _ _). }
  split.
  - unfold joinDirectPeers. apply joinSockets_subscribes.
    + apply list_elem_of_fmap. exists (s, u). split; [done|].
      apply list_elem_of_filter. simpl. split; [by rewrite Hid|].
      unfold registry in Hreg. injection Hreg as -> _. by apply get_elem_of.
    + unfold registry in Hreg. injection Hreg as _ ->. by eapply wf_live.
  - destruct (extends_joinDirectPeers (directChatId a b) opened) as (_ & Hgrow & _).
    by apply Hgrow.
Qed.

(** Ann and Bob have ids without a dash; Ann opens the direct chat and
    Bob's socket is put into the room as well. *)
Lemma direct_chat_joins_both_users_witness :
  let st := run Scenario.online initialState in
  let d := mkJoinChatData (directChatId "uA" "uB") (Some "uA") (Some "Ann")
             false None None in
  "sB" ∈ subscribersOf "uA-uB" (onJoinChat 20 "sA" d st).1.
Proof.
  intros st d.
  apply (direct_chat_joins_both_users Scenario.online 20 "sA" d "uA" "uB" "uB" "sB").
  - reflexivity.
  - reflexivity.
  - reflexivity.
  - reflexivity.
  - by right.
  - exists (mkUser "uB" "Bob" "sB" 11). split; reflexivity.
Defined.

(** X14.  The direct-chat branch of [joinChat] looks users up by the
    pieces of the chat id between dashes, so it can only find a user
    whose id contains no [-]: when every registered user id contains a
    [-] (as the ids of the client, which are UUIDs, do), a [joinChat]
    without group payload subscribes the caller's socket and nobody
    else. *)
Theorem direct_chat_misses_dashed_ids
    (now : N) (sid : string) (d : JoinChatData) (st : State) :
  jc_isGroup d = false →
  (∀ s u, (s, u) ∈ connectedUsers st → Js.includes "-"%char (u_id u) = true) →
  rooms (onJoinChat now sid d st).1 = rooms (joinRoom sid (jc_chatId d) st).
Proof.
  intros Hg Hdashed.
  assert (groupAccepted d = false) as Hrej by (unfold groupAccepted; by rewrite Hg).
  rewrite onJoinChat_rejected_state by done.
  assert (rooms (roomOpened now sid d st) = rooms (joinRoom sid (jc_chatId d) st))
    as Hopened by (unfold roomOpened; by destruct (JsMap.has _ _)).
  destruct (_ && _); [|done].
  unfold joinDirectPeers.
  assert (filter (fun kv : string * User =>
                    u_id kv.2 ∈ Js.split "-"%char (jc_chatId d))
                 (connectedUsers (roomOpened now sid d st)) = []) as ->; [|done].
  assert (connectedUsers (roomOpened now sid d st) = connectedUsers st) as ->.
  { pose proof (roomOpened_registry now sid d st) as Hr.
    unfold registry in Hr. by injection Hr. }
  induction (connectedUsers st) as [|[s u] cu IH]; [done|].
  rewrite filter_cons_False.
  - apply IH. intros s' u' Hin. apply (Hdashed s' u'). by right.
  - simpl. intros Hpiece%split_pieces.
    rewrite (Hdashed s u) in Hpiece; [done|left].
Qed.

(** Two users whose ids contain dashes: one opens their direct chat and
    the other's socket is not put into the room. *)
Lemma direct_chat_misses_dashed_ids_witness :
  let st := run [Connect "sA"; Connect "sB";
                 Join 10 "sA" (mkJoinData (Some "a-1") (Some "Ann"));
                 Join 11 "sB" (mkJoinData (Some "b-2") (Some "Bob"))]
                initialState in
  let d := mkJoinChatData (directChatId "a-1" "b-2") (Some "a-1") (Some "Ann")
             false None None in
  rooms (onJoinChat 20 "sA" d st).1 = rooms (joinRoom "sA" "a-1-b-2" st).
Proof.
  intros st d.
  apply (direct_chat_misses_dashed_ids 20 "sA" d st); [reflexivity|].
  intros s u Hin.
  assert (connectedUsers st
          = [("sA", mkUser "a-1" "Ann" "sA" 10);
             ("sB", mkUser "b-2" "Bob" "sB" 11)]) as Hcu by reflexivity.
  rewrite Hcu in Hin.
  apply elem_of_cons in Hin as [[= -> ->]|Hin]; [reflexivity|].
  apply elem_of_cons in Hin as [[= -> ->]|Hin]; [reflexivity|].
  by apply elem_of_nil in Hin.
Defined.

(** ** Renaming, leaving and registering *)

Lemma onlineUsers_connectedUsers st st' :
  connectedUsers st' = connectedUsers st → onlineUsers st' = onlineUsers st.
Proof. unfold onlineUsers. by intros ->. Qed.

(** X15.  A [usernameChange] with a blank new name changes nothing and
    answers the caller alone with an error.  Otherwise, on a server that
    has handled any events, a registered caller keeps its user id, socket
    and place in the registry and gets the trimmed new name, the other
    sessions stay as they were, and the presence list sent to everybody
    shows the caller's user id under the new name only. *)
Theorem rename_keeps_identity
    (evs : list Event) (now : N) (sid : string) (d : UsernameChangeData) :
  let st := run evs initialState in
  let res := onUsernameChange now sid d st in
  (Js.blank (uc_newUsername d) = true →
   res = (st, [Emit sid (PError "Invalid username" None)])) ∧
  (∀ newName user,
     uc_newUsername d = Some newName → Js.blank (Some newName) = false →
     JsMap.get sid (connectedUsers st) = Some user →
     JsMap.get sid (connectedUsers res.1)
     = Some (mkUser (u_id user) (Js.trim newName) (u_socketId user)
               (u_joinedAt user)) ∧
     (∀ s, s ≠ sid →
           JsMap.get s (connectedUsers res.1) = JsMap.get s (connectedUsers st)) ∧
     EmitAll (POnlineUsers (onlineUsers res.1)) ∈ res.2 ∧
     mkOnlineUser (u_id user) (Js.trim newName) ∈ onlineUsers res.1 ∧
     (∀ o, o ∈ onlineUsers res.1 → ou_id o = u_id user →
           ou_username o = Js.trim newName)).
Proof.
  intros st res. split.
  { intros Hb. subst res. unfold onUsernameChange. by rewrite Hb. }
  intros newName user Hnew Hb Huser.
  assert (sid ∈ sockets st) as Hsid.
  { eapply wf_live; [apply run_wellFormed|done]. }
  set (e := UsernameChange now sid d).
  assert (res.1 = run (evs ++ [e]) initialState) as Hrun.
  { rewrite run_snoc. simpl. unfold whenConnected.
    by rewrite bool_decide_eq_true_2. }
  assert (connectedUsers res.1
          = JsMap.set sid
              (mkUser (u_id user) (Js.trim newName) (u_socketId user)
                 (u_joinedAt user)) (connectedUsers st)) as Hcu.
  { subst res. unfold onUsernameChange. rewrite Hnew, Hb. simpl.
    by rewrite Huser. }
  assert (onlineUsers res.1
          = (fun kv => mkOnlineUser (u_id kv.2) (u_username kv.2))
              <$> connectedUsers res.1) as Hlist.
  { rewrite Hrun.
    apply onlineUsers_registry; [apply run_wellFormed|apply run_namesStored]. }
  assert (wellFormed res.1) as Hwf' by (rewrite Hrun; apply run_wellFormed).
  assert (JsMap.get sid (connectedUsers res.1)
          = Some (mkUser (u_id user) (Js.trim newName) (u_socketId user)
                    (u_joinedAt user))) as Hsidget.
  { by rewrite Hcu, get_set, decide_True. }
  split; [done|]. split.
  { intros s Hs. by rewrite Hcu, get_set, decide_False. }
  split.
  { subst res. unfold onUsernameChange. rewrite Hnew, Hb. simpl.
    right. left. }
  split.
  - rewrite Hlist. apply list_elem_of_fmap.
    exists (sid, mkUser (u_id user) (Js.trim newName) (u_socketId user)
                   (u_joinedAt user)).
    split; [done|]. by apply get_elem_of.
  - intros o. rewrite Hlist.
    intros ([s u] & -> & Hin)%list_elem_of_fmap Hid. simpl in *.
    apply elem_of_get in Hin; [|by apply wf_keys].
    assert (s = sid) as -> by (eapply wf_unique; eauto).
    rewrite Hsidget in Hin. by injection Hin as <-.
Qed.

(** Bob renames himself to Rob. *)
Lemma rename_keeps_identity_witness :
  let st := run Scenario.online initialState in
  let res := onUsernameChange 30 "sB"
               (mkUsernameChangeData (Some "Bob") (Some " Rob ")) st in
  JsMap.get "sB" (connectedUsers res.1) = Some (mkUser "uB" "Rob" "sB" 11) ∧
  mkOnlineUser "uB" "Rob" ∈ onlineUsers res.1.
Proof.
  intros st res.
  destruct (rename_keeps_identity Scenario.online 30 "sB"
              (mkUsernameChangeData (Some "Bob") (Some " Rob "))) as [_ Hok].
  destruct (Hok " Rob " (mkUser "uB" "Bob" "sB" 11))
    as (Hget & _ & _ & Hin & _); [reflexivity..|].
  split; [exact Hget|exact Hin].
Defined.

(** X16.  When a connection closes, on a server that has handled any
    events, its socket is no longer registered, no longer connected and
    in no room, while the other sessions and the other sockets'
    subscriptions stay; everybody else is told that the user left and
    is sent the new presence list exactly when the socket was
    registered. *)
Theorem close_removes_the_session (evs : list Event) (sid : string) :
  let st := run evs initialState in
  sid ∈ sockets st →
  let res := step (Close sid) st in
  JsMap.get sid (connectedUsers res.1) = None ∧
  (sid ∉ sockets res.1) ∧
  (∀ room, sid ∉ subscribersOf room res.1) ∧
  (∀ s, s ≠ sid →
        JsMap.get s (connectedUsers res.1) = JsMap.get s (connectedUsers st) ∧
        ∀ room, s ∈ subscribersOf room res.1 ↔ s ∈ subscribersOf room st) ∧
  res.2 = match JsMap.get sid (connectedUsers st) with
          | Some user => [Broadcast sid (PUserLeft (u_username user));
                          EmitAll (POnlineUsers (onlineUsers res.1))]
          | None => []
          end.
Proof.
  intros st Hsid res.
  assert (res = onDisconnect sid (dropSocket sid st)) as Hres.
  { subst res. simpl. unfold whenConnected. by rewrite bool_decide_eq_true_2. }
  assert (res.1 = with_connectedUsers (JsMap.delete sid (connectedUsers st))
                    (dropSocket sid st)) as Hst'.
  { rewrite Hres. exact (onDisconnect_connectedUsers sid (dropSocket sid st)). }
  split; [rewrite Hst'; simpl; by rewrite get_delete, decide_True|].
  split.
  { rewrite Hst'. simpl. intros [_ Hn]%elem_of_difference.
    apply Hn. by apply elem_of_singleton. }
  split.
  { intros room. rewrite Hst'.
    intros [_ Hn]%(subscribersOf_dropSocket sid room st sid). done. }
  split.
  { intros s Hs. rewrite Hst'. split.
    - simpl. by rewrite get_delete, decide_False.
    - intros room. split.
      + by intros [? _]%(subscribersOf_dropSocket sid room st s).
      + intros Hin. by apply (subscribersOf_dropSocket sid room st s). }
  rewrite Hres. unfold onDisconnect. simpl.
  destruct (JsMap.get sid (connectedUsers st)) as [user|] eqn:Huser; [|done].
  destruct (run_namesStored evs sid user Huser) as [Htrim Hne].
  rewrite (storedName_not_blank (u_username user)) by done.
  by rewrite Htrim.
Qed.

(** Bob's connection closes. *)
Lemma close_removes_the_session_witness :
  let st := run (Scenario.online ++ [Scenario.createTeam "group-1"]) initialState in
  let res := step (Close "sB") st in
  JsMap.get "sB" (connectedUsers res.1) = None ∧
  ("sB" ∉ subscribersOf "group-1" res.1) ∧
  "sA" ∈ subscribersOf "group-1" res.1.
Proof.
  intros st res.
  destruct (close_removes_the_session
              (Scenario.online ++ [Scenario.createTeam "group-1"]) "sB")
    as (Hgone & _ & Hrooms & Hothers & _); [by vm_compute|].
  split; [exact Hgone|]. split; [apply Hrooms|].
  apply (Hothers "sA"); [discriminate|]. by vm_compute.
Defined.

Lemma takeOver_effects userId sid st :
  (takeOver userId sid st).2 = [] ∨
  ∃ old, old ≠ sid ∧ (takeOver userId sid st).2 = [ForceDisconnect old].
Proof.
  unfold takeOver. destruct (findSocketId _ _) as [old|]; [|by left].
  destruct (Js.truthy old); simpl; [|by left].
  case_bool_decide as Hold; simpl; [by left|].
  case_bool_decide; [|by left]. right. exists old. split; [done|].
  unfold forceDisconnect, onDisconnect. simpl.
  by rewrite get_delete, decide_True.
Qed.

Lemma onJoin_valid_effects now sid userId username st :
  Js.truthy userId = true → Js.blank (Some username) = false →
  let res := onJoin now sid (mkJoinData (Some userId) (Some username)) st in
  res.2 = (takeOver userId sid st).2
          ++ [Broadcast sid (PUserJoined (Some (Js.trim username)) None);
              EmitAll (POnlineUsers (onlineUsers res.1))]
          ++ match userGroupsOf userId (groupChats st) with
             | [] => []
             | _ :: _ =>
                 [Emit sid (PAvailableGroups
                              (userGroupsOf userId (groupChats st)))]
             end ∧
  sockets res.1 = sockets (takeOver userId sid st).1.
Proof.
  intros Hu Hn res.
  pose proof (onJoin_valid_state now sid userId username st Hu Hn) as Hstate.
  simpl in Hstate. fold res in Hstate.
  destruct (takeOver_directories userId sid st) as [Hg _].
  rewrite Hg in Hstate.
  pose proof (joinGroupRooms_registry sid (userGroupsOf userId (groupChats st))
                (with_connectedUsers
                   (JsMap.set sid (mkUser userId (Js.trim username) sid now)
                      (connectedUsers (takeOver userId sid st).1))
                   (takeOver userId sid st).1)) as Hr.
  rewrite <- Hstate in Hr. unfold registry in Hr. injection Hr as Hcu Hss.
  split; [|done].
  assert (onlineUsers res.1
          = onlineUsers
              (with_connectedUsers
                 (JsMap.set sid (mkUser userId (Js.trim username) sid now)
                    (connectedUsers (takeOver userId sid st).1))
                 (takeOver userId sid st).1)) as ->
    by (apply onlineUsers_connectedUsers; exact Hcu).
  subst res. unfold onJoin. simpl. rewrite Hu, Hn. simpl.
  destruct (takeOver userId sid st) as [st1 fx1]. simpl in *. rewrite Hg.
  by destruct (userGroupsOf userId (groupChats st)).
Qed.

(** X17.  A valid [join] emits, after the takeover of an older session
    if there is one, the [userJoined] notice to everybody else and the
    new presence list to everybody, and then hands the caller its group
    list exactly when some group record lists the caller's user id.  The
    list holds every recorded group that lists the user and no other,
    and the caller's socket is subscribed to the room of each of them. *)
Theorem join_hands_over_the_groups
    (now : N) (sid userId username : string) (st : State) :
  Js.truthy userId = true → Js.blank (Some username) = false →
  let res := onJoin now sid (mkJoinData (Some userId) (Some username)) st in
  let groups := userGroupsOf userId (groupChats st) in
  res.2 = (takeOver userId sid st).2
          ++ [Broadcast sid (PUserJoined (Some (Js.trim username)) None);
              EmitAll (POnlineUsers (onlineUsers res.1))]
          ++ match groups with
             | [] => []
             | _ :: _ => [Emit sid (PAvailableGroups groups)]
             end ∧
  (∀ chatId group member,
     JsMap.get chatId (groupChats st) = Some group →
     member ∈ g_members group → m_id member = userId →
     chatId ∈ gs_chatId <$> groups) ∧
  (∀ g, g ∈ groups →
        sid ∈ subscribersOf (gs_chatId g) res.1 ∧
        ∃ group member, (gs_chatId g, group) ∈ groupChats st ∧
                        member ∈ g_members group ∧ m_id member = userId).
Proof.
  intros Hu Hn res groups.
  pose proof (onJoin_valid_state now sid userId username st Hu Hn) as Hstate.
  simpl in Hstate. fold res in Hstate.
  destruct (takeOver_directories userId sid st) as [Hg _].
  rewrite Hg in Hstate. fold groups in Hstate.
  split; [|split].
  - apply (onJoin_valid_effects now sid userId username st Hu Hn).
  - intros chatId group member Hget Hin Hid. by eapply userGroupsOf_elem.
  - intros g Hgin. split.
    + rewrite Hstate. apply subscribersOf_joinGroupRooms. right.
      split; [done|]. apply list_elem_of_fmap. by exists g.
    + destruct (userGroupsOf_member _ _ _ Hgin)
        as (group & Hin & _ & _ & member & Hm & Hid).
      by exists group, member.
Qed.

(** Bob, a member of Ann's group, comes back on a new socket. *)
Lemma join_hands_over_the_groups_witness :
  let st := run (Scenario.online
                 ++ [Scenario.createTeam "group-1"; Close "sB"; Connect "sB2"])
                initialState in
  let res := onJoin 30 "sB2" (mkJoinData (Some "uB") (Some "Bob")) st in
  Emit "sB2"
    (PAvailableGroups
       [mkGroupSummary "group-1" "Team"
          [mkMember "uA" "Ann"; mkMember "uB" "Bob"] (Some "uA")]) ∈ res.2 ∧
  "sB2" ∈ subscribersOf "group-1" res.1.
Proof.
  intros st res.
  destruct (join_hands_over_the_groups 30 "sB2" "uB" "Bob" st)
    as (Hfx & _ & Hsub); [reflexivity..|].
  split.
  - fold res in Hfx. rewrite Hfx. right. right. left.
  - apply (Hsub (mkGroupSummary "group-1" "Team"
                   [mkMember "uA" "Ann"; mkMember "uB" "Bob"] (Some "uA"))).
    left.
Defined.

(** ** Unicasts go to connected sockets *)

Lemma notifyOthers_target userId p members st to q :
  Emit to q ∈ notifyOthers userId p members st → to ∈ sockets st.
Proof.
  unfold notifyOthers. rewrite list_elem_of_In, in_flat_map.
  intros (m & _ & He). case_decide; [done|].
  destruct (memberSocket (md_id m) st) as [ms|] eqn:Hms; [|done].
  destruct He as [[= <- _]|[]]. by eapply memberSocket_connected.
Qed.

Lemma unicastToMembers_target m members st to q :
  Emit to q ∈ unicastToMembers m members st → to ∈ sockets st.
Proof.
  unfold unicastToMembers. rewrite list_elem_of_In, in_flat_map.
  intros (member & _ & He). case_decide; [done|].
  destruct (memberSocket (m_id member) st) as [ms|] eqn:Hms; [|done].
  destruct He as [[= <- _]|[]]. by eapply memberSocket_connected.
Qed.

Lemma notifyDeleted_target p members st to q :
  Emit to q ∈ notifyDeleted p members st → to ∈ sockets st.
Proof.
  unfold notifyDeleted. rewrite list_elem_of_In, in_flat_map.
  intros (member & _ & He).
  destruct (memberSocket (m_id member) st) as [ms|] eqn:Hms; [|done].
  destruct He as [[= <- _]|[]]. by eapply memberSocket_connected.
Qed.

Lemma registry_sockets st st' : registry st' = registry st → sockets st' = sockets st.
Proof. unfold registry. by intros [= _ ->]. Qed.

Lemma onJoinChat_targets now sid d st to q :
  sid ∈ sockets st →
  Emit to q ∈ (onJoinChat now sid d st).2 → to ∈ sockets st.
Proof.
  intros Hsid. unfold onJoinChat.
  set (st2 := if JsMap.has _ _ then _ else _).
  assert (sockets st2 = sockets st) as H2.
  { subst st2. by destruct (JsMap.has _ _). }
  assert (∀ s (fx : list Effect),
    (Emit to q ∈ fx → to ∈ sockets st) →
    Emit to q ∈ (if negb (jc_isGroup d) && Js.includes "-"%char (jc_chatId d)
                 then joinDirectPeers (jc_chatId d) s else s,
                 fx ++ [ToRoom sid (jc_chatId d)
                          (PUserJoined (jc_username d) (Some (jc_chatId d)))]).2 →
    to ∈ sockets st) as Htail.
  { intros s fx Hfx. simpl.
    intros [?|Hin%list_elem_of_singleton]%elem_of_app; [by apply Hfx|done]. }
  destruct (jc_isGroup d); [|apply Htail; by intros ?%elem_of_nil].
  destruct (jc_members d) as [[|m0 ms]|];
    try (apply Htail; by intros ?%elem_of_nil).
  destruct (Js.blank (jc_groupName d)).
  { simpl. by intros [= <- _]%list_elem_of_singleton. }
  destruct (validMembersOf (m0 :: ms)) as [|v vs].
  { simpl. by intros [= <- _]%list_elem_of_singleton. }
  apply Htail. rewrite <- H2.
  destruct (negb (JsMap.has (jc_chatId d) (groupChats st2)));
    intros [Hin|[Hin|Hin]%elem_of_app]%elem_of_app;
    try (by apply elem_of_nil in Hin);
    try (by apply list_elem_of_singleton in Hin).
  - by apply notifyOthers_target in Hin.
  - apply notifyOthers_target in Hin.
    by rewrite (registry_sockets _ _ (addMembersToRoom_registry _ _ _)) in Hin.
Qed.

(** X18.  Whatever events the server has handled, an emission addressed
    to a single socket always goes to a socket that is connected when
    the handler returns: the caller's own socket, or a member's socket
    found in the table of connected sockets. *)
Theorem unicast_targets_are_connected
    (evs : list Event) (e : Event) (to : string) (p : Payload) :
  let st := run evs initialState in
  Emit to p ∈ (step e st).2 → to ∈ sockets (step e st).1.
Proof.
  intros st. pose proof (run_wellFormed evs) as Hwf. fold st in Hwf.
  destruct e as [sid|sid|now sid d|now sid d|now sid d|sid d|now sid d
                |sid chatId|sid d|task]; simpl;
    unfold whenConnected; try (case_bool_decide as Hsid; [|by intros ?%elem_of_nil]).
  - destruct (_ && _); by intros ?%elem_of_nil.
  - unfold onDisconnect. simpl.
    destruct (JsMap.get sid (connectedUsers st)) as [user|];
      [|by intros ?%elem_of_nil].
    destruct (Js.blank _); [by intros ?%elem_of_nil|]. simpl.
    intros [Heq|[Heq|Hin%elem_of_nil]%elem_of_cons]%elem_of_cons; done.
  - destruct (match j_userId d, j_username d with
              | Some userId, Some username =>
                  negb (Js.truthy userId) || Js.blank (Some username)
              | _, _ => true
              end) eqn:Hvalid.
    { rewrite onJoin_invalid_registry by done. simpl.
      by intros [= <- _]%list_elem_of_singleton. }
    destruct d as [[userId|] [username|]]; simpl in Hvalid; try done.
    apply orb_false_iff in Hvalid as [Hu%negb_false_iff Hn].
    destruct (onJoin_valid_effects now sid userId username st Hu Hn)
      as [Hfx Hsock].
    rewrite Hfx, Hsock.
    destruct (takeOver_spec st userId sid Hwf Hsid) as (_ & Hsid1 & _).
    intros [Hin|[Hin|Hin]%elem_of_app]%elem_of_app.
    + destruct (takeOver_effects userId sid st) as [Hnil|(old & _ & Hone)].
      * rewrite Hnil in Hin. by apply elem_of_nil in Hin.
      * rewrite Hone in Hin. by apply list_elem_of_singleton in Hin.
    + apply elem_of_cons in Hin as [Hin|Hin]; [done|].
      by apply list_elem_of_singleton in Hin.
    + destruct (userGroupsOf _ _); [by apply elem_of_nil in Hin|].
      by apply list_elem_of_singleton in Hin as [= <- _].
  - rewrite (registry_sockets _ _ (onJoinChat_registry now sid d st)).
    by apply onJoinChat_targets.
  - rewrite (registry_sockets _ _ (onMessage_registry now sid d st)).
    unfold onMessage. destruct (repairSender _ _ _ _) as [m|];
      [|by intros ?%elem_of_nil].
    unfold routeMessage. destruct (msg_chatId d) as [c|];
      [|by intros ?%list_elem_of_singleton].
    destruct (Js.truthy c); [|by intros ?%list_elem_of_singleton]. simpl.
    destruct (JsMap.get c _); [|by intros ?%list_elem_of_singleton].
    destruct (Js.startsWith "group-" c) eqn:Hp;
      [|by intros ?%list_elem_of_singleton].
    intros Hin%unicastToMembers_target.
    assert (∀ s, registry s = registry st → sockets s = sockets st) as Hs
      by (intros s; apply registry_sockets).
    revert Hin.
    destruct (rooms st !! c);
      [|assert (JsMap.has c (groupChats st) = true ∨
                JsMap.has c (groupChats st) = false) as [-> | ->]
          by (destruct (JsMap.has c (groupChats st)); auto)];
      rewrite ?(Hs _ (ensureGroupMembersInRoom_registry c st)); done.
  - rewrite (registry_sockets _ _ (onTyping_registry sid d st)).
    unfold onTyping. destruct (t_chatId d) as [c|];
      [|by intros ?%list_elem_of_singleton].
    destruct (Js.truthy c); by intros ?%list_elem_of_singleton.
  - destruct (onUsernameChange_directories now sid d st) as (_ & _ & _ & ->).
    unfold onUsernameChange. destruct (Js.blank _).
    + simpl. by intros [= <- _]%list_elem_of_singleton.
    + simpl.
      intros [Heq|[Heq|Hin%elem_of_nil]%elem_of_cons]%elem_of_cons; done.
  - rewrite (registry_sockets _ _ (onGetGroupInfo_registry sid chatId st)).
    unfold onGetGroupInfo. destruct (JsMap.get _ _); [|by intros ?%elem_of_nil].
    simpl. by intros [= <- _]%list_elem_of_singleton.
  - rewrite (registry_sockets _ _ (onDeleteGroup_registry sid d st)).
    unfold onDeleteGroup. destruct (JsMap.get _ _) as [group|].
    + case_decide; simpl.
      * intros [Hin|Hin]%elem_of_app.
        -- by apply notifyDeleted_target in Hin.
        -- by apply list_elem_of_singleton in Hin as [= <- _].
      * by intros [= <- _]%list_elem_of_singleton.
    + simpl. by intros [= <- _]%list_elem_of_singleton.
  - destruct task as [c vm]. simpl. destruct (rooms st !! c);
      [|by intros ?%elem_of_nil].
    case_bool_decide; by intros ?%elem_of_nil.
Qed.

Lemma unicast_targets_are_connected_witness :
  let st := run (Scenario.online ++ [Scenario.createTeam "group-1"])
                initialState in
  let e := Message 40 "sA"
             (Scenario.text (Some "group-1") (Some "Ann") (Some "uA")) in
  "sB" ∈ sockets (step e st).1.
Proof.
  intros st e.
  apply (unicast_targets_are_connected
           (Scenario.online ++ [Scenario.createTeam "group-1"]) e "sB"
           (PMessage (Scenario.text (Some "group-1") (Some "Ann") (Some "uA")))).
  vm_compute. left.
Defined.

(** ** Routing a message to a group *)

Lemma joinRoom_subscribed sid room st :
  sid ∈ subscribersOf room st → joinRoom sid room st = st.
Proof.
  unfold subscribersOf, joinRoom.
  destruct (rooms st !! room) as [S|] eqn:HS; simpl; [|by intros ?%elem_of_empty].
  intros Hin.
  assert ({[sid]} ∪ S = S) as ->
    by (apply subseteq_union_1_L; by apply singleton_subseteq_l).
  rewrite insert_id by done. by destruct st.
Qed.

Lemma addMembersToRoom_settled chatId uids st :
  wellFormed st →
  (∀ uid ms, uid ∈ uids → registeredOn st uid ms →
             ms ∈ subscribersOf chatId st) →
  addMembersToRoom chatId uids st = st.
Proof.
  intros Hwf. induction uids as [|uid uids IH]; intros Hall; [done|].
  rewrite addMembersToRoom_cons.
  destruct (memberSocket uid st) as [ms|] eqn:Hms.
  - rewrite joinRoom_subscribed.
    + apply IH. intros uid' ms' Hin. apply Hall. by right.
    + apply (Hall uid ms); [left|]. by apply memberSocket_Some.
  - apply IH. intros uid' ms' Hin. apply Hall. by right.
Qed.

(** On a state in which the registered members of every group are
    subscribed already, [ensureGroupMembersInRoom] changes nothing. *)
Lemma ensureGroupMembersInRoom_settled chatId st :
  wellFormed st → converged st → ensureGroupMembersInRoom chatId st = st.
Proof.
  intros Hwf Hconv. unfold ensureGroupMembersInRoom.
  destruct (negb _); [done|].
  destruct (JsMap.get chatId (groupChats st)) as [group|] eqn:Hget; [|done].
  apply addMembersToRoom_settled; [done|].
  intros uid ms (member & -> & Hin)%list_elem_of_fmap Hreg.
  by apply (Hconv chatId group member ms).
Qed.

(** C5, as the code has it.  A message that names a chat is routed with
    the identity left by the repair, which for a name that is not blank
    is the message as sent.  When the chat id starts with [group-] and
    has a group record, the handler first runs
    [ensureGroupMembersInRoom], after which every registered member is
    subscribed (on a state the server reaches the pass finds them
    subscribed and changes no subscription), and then emits the message
    to the socket of each member of the record who is registered and
    whose id differs from the user id carried by the message; it emits
    nothing else, so no room broadcast is made.  When the chat id does
    not start with [group-], or has no group record, the handler makes
    one room broadcast and no reconciliation changes the state. *)
Theorem group_message_unicast
    (now : N) (sid : string) (md : MessageData) (chatId : string) (st : State) :
  wellFormed st →
  msg_chatId md = Some chatId →
  Js.truthy chatId = true →
  let res := onMessage now sid md st in
  ∃ m, repairSender now sid md st = Some m ∧
       (Js.blank (msg_username md) = false → m = md) ∧
       (∀ group,
          Js.startsWith "group-" chatId = true →
          JsMap.get chatId (groupChats st) = Some group →
          res.1 = storeMessage chatId m (ensureGroupMembersInRoom chatId st) ∧
          (∀ member ms, member ∈ g_members group →
                        registeredOn st (m_id member) ms →
                        ms ∈ subscribersOf chatId res.1) ∧
          (∀ e, e ∈ res.2 ↔
                ∃ member ms, member ∈ g_members group ∧
                             Some (m_id member) ≠ msg_userId m ∧
                             registeredOn st (m_id member) ms ∧
                             e = Emit ms (PMessage m)) ∧
          (∀ evs, st = run evs initialState → rooms res.1 = rooms st)) ∧
       (Js.startsWith "group-" chatId = false
        ∨ JsMap.get chatId (groupChats st) = None →
        res = (storeMessage chatId m st, [ToRoom sid chatId (PMessage m)])).
Proof.
  intros Hwf Hchat Htruthy res.
  destruct (repairSender_routed now sid md st) as [m Hm].
  { by rewrite Hchat. }
  exists m. split; [done|]. split; [|split].
  - intros Hb. unfold repairSender in Hm. rewrite Hb in Hm. congruence.
  - intros group Hprefix Hget.
    set (st1 := ensureGroupMembersInRoom chatId st).
    assert (res = (storeMessage chatId m st1,
                   unicastToMembers m (g_members group) st1)) as Hres.
    { subst res. unfold onMessage. rewrite Hm. unfold routeMessage.
      rewrite Hchat, Htruthy, Hprefix.
      assert (JsMap.has chatId (groupChats st) = true) as ->
        by (apply has_true; by rewrite Hget).
      assert ((match rooms st !! chatId with
               | Some _ => ensureGroupMembersInRoom chatId st
               | None => ensureGroupMembersInRoom chatId st
               end) = st1) as -> by (by destruct (rooms st !! chatId)).
      subst st1. by rewrite ensureGroupMembersInRoom_groupChats, Hget. }
    assert (wellFormed st1) as Hwf1.
    { apply (wellFormed_registry st st1); [|done].
      apply ensureGroupMembersInRoom_registry. }
    rewrite Hres. simpl. split; [done|]. split; [|split].
    + intros member ms Hin Hreg.
      unfold subscribersOf. rewrite storeMessage_rooms.
      subst st1. unfold ensureGroupMembersInRoom. rewrite Hprefix, Hget. simpl.
      apply (addMembersToRoom_subscribes chatId _ st (m_id member) ms Hwf);
        [|done].
      apply list_elem_of_fmap. by exists member.
    + intros e. rewrite (unicastToMembers_elem st1 m _ e Hwf1).
      split; intros (member & ms & Hin & Hsender & Hreg & ->);
        exists member, ms; repeat split; try done;
        by apply (registeredOn_registry st st1
                    (m_id member) ms (ensureGroupMembersInRoom_registry chatId st)).
    + intros evs Hrun. rewrite storeMessage_rooms. subst st1 st.
      by rewrite ensureGroupMembersInRoom_settled
        by (apply run_wellFormed || apply run_converged).
  - intros Hcase. subst res. unfold onMessage. rewrite Hm. unfold routeMessage.
    rewrite Hchat, Htruthy.
    destruct (Js.startsWith "group-" chatId) eqn:Hprefix.
    + destruct Hcase as [?|Hnone]; [done|].
      assert (JsMap.has chatId (groupChats st) = false) as ->
        by (by apply has_false).
      assert ((match rooms st !! chatId with
               | Some _ => ensureGroupMembersInRoom chatId st
               | None => st
               end) = st) as ->.
      { unfold ensureGroupMembersInRoom. rewrite Hprefix, Hnone. simpl.
        by destruct (rooms st !! chatId). }
      by rewrite Hnone.
    + by destruct (JsMap.get chatId (groupChats st)).
Qed.

(** Ann writes to the group she created: Bob is the one recipient when
    the message carries her user id, and her own socket is served as
    well when it carries none. *)
Lemma group_message_unicast_witness :
  let st := run (Scenario.online ++ [Scenario.createTeam "group-1"]) initialState in
  let md := Scenario.text (Some "group-1") (Some "Ann") (Some "uA") in
  let md' := Scenario.text (Some "group-1") (Some "Ann") None in
  let res := onMessage 40 "sA" md st in
  "sB" ∈ subscribersOf "group-1" res.1 ∧
  Emit "sB" (PMessage md) ∈ res.2 ∧
  ¬ (Emit "sA" (PMessage md) ∈ res.2) ∧
  ¬ (ToRoom "sA" "group-1" (PMessage md) ∈ res.2) ∧
  rooms res.1 = rooms st ∧
  Emit "sA" (PMessage md') ∈ (onMessage 40 "sA" md' st).2.
Proof.
  intros st md md' res.
  assert (registeredOn st "uA" "sA") as Hann.
  { exists (mkUser "uA" "Ann" "sA" 10). split; reflexivity. }
  assert (registeredOn st "uB" "sB") as Hbob.
  { exists (mkUser "uB" "Bob" "sB" 11). split; reflexivity. }
  destruct (group_message_unicast 40 "sA" md "group-1" st)
    as (m & _ & Hsent & Hgroup & _);
    [apply run_wellFormed|reflexivity|reflexivity|].
  destruct (group_message_unicast 40 "sA" md' "group-1" st)
    as (m' & _ & Hsent' & Hgroup' & _);
    [apply run_wellFormed|reflexivity|reflexivity|].
  rewrite (Hsent eq_refl) in Hgroup. rewrite (Hsent' eq_refl) in Hgroup'.
  destruct (Hgroup (mkGroup "group-1" "Team" (Some "uA") 20
                      [mkMember "uA" "Ann"; mkMember "uB" "Bob"])
              eq_refl eq_refl) as (_ & Hsub & Hfx & Hrooms).
  destruct (Hgroup' (mkGroup "group-1" "Team" (Some "uA") 20
                       [mkMember "uA" "Ann"; mkMember "uB" "Bob"])
              eq_refl eq_refl) as (_ & _ & Hfx' & _).
  split; [|split; [|split; [|split; [|split]]]].
  - apply (Hsub (mkMember "uB" "Bob") "sB"); [right; left|exact Hbob].
  - apply Hfx. exists (mkMember "uB" "Bob"), "sB".
    split; [right; left|]. split; [discriminate|]. split; [exact Hbob|].
    reflexivity.
  - intros Hself. apply Hfx in Hself as (member & ms & Hin & Hne & Hreg & Heq).
    injection Heq as <-.
    destruct Hreg as (u & Hget & Hid).
    assert (JsMap.get "sA" (connectedUsers st)
            = Some (mkUser "uA" "Ann" "sA" 10)) as Hget' by reflexivity.
    rewrite Hget' in Hget. injection Hget as <-. simpl in Hid.
    apply Hne. by rewrite <- Hid.
  - intros Hroom. apply Hfx in Hroom as (member & ms & _ & _ & _ & Heq).
    discriminate Heq.
  - apply (Hrooms (Scenario.online ++ [Scenario.createTeam "group-1"])).
    reflexivity.
  - apply Hfx'. exists (mkMember "uA" "Ann"), "sA".
    split; [left|]. split; [discriminate|]. split; [exact Hann|].
    reflexivity.
Defined.

(** C5, as the specification states it, fails for a group record whose
    chat id does not start with [group-]: the message goes out as one
    room broadcast, no reconciliation is run, and the room holds the
    socket of Cy, who is not a member of the group. *)
Lemma group_without_prefix_is_broadcast :
  let st := run (Scenario.online
                 ++ [Connect "sC";
                     Join 12 "sC" (mkJoinData (Some "uC") (Some "Cy"));
                     Scenario.createTeam "team";
                     JoinChat 25 "sC"
                       (mkJoinChatData "team" (Some "uC") (Some "Cy") false
                          None None)])
                initialState in
  let md := Scenario.text (Some "team") (Some "Ann") (Some "uA") in
  let res := onMessage 40 "sA" md st in
  g_members <$> JsMap.get "team" (groupChats st)
  = Some [mkMember "uA" "Ann"; mkMember "uB" "Bob"] ∧
  res.2 = [ToRoom "sA" "team" (PMessage md)] ∧
  "sC" ∈ subscribersOf "team" st.
Proof. repeat split; by vm_compute. Qed.


(** * Properties of the client screens *)

(** ** The list of online users *)

Lemma uniqueUsers_snoc users u :
  Client.uniqueUsers (users ++ [u])
  = if existsb (fun user => bool_decide (Client.c_id user = Client.c_id u))
                (Client.uniqueUsers users)
    then Client.uniqueUsers users
    else Client.uniqueUsers users ++ [u].
Proof. unfold Client.uniqueUsers. by rewrite foldl_snoc. Qed.

Lemma existsb_id_elem {A} (f : A → string) (x : string) (l : list A) :
  existsb (fun a => bool_decide (f a = x)) l = true ↔ x ∈ f <$> l.
Proof.
  rewrite existsb_exists, list_elem_of_fmap. split.
  - intros (a & Hin%list_elem_of_In & Heq%bool_decide_eq_true). by exists a.
  - intros (a & Heq & Hin). exists a. split; [by apply list_elem_of_In|].
    by apply bool_decide_eq_true.
Qed.

Lemma existsb_id_not_elem {A} (f : A → string) (x : string) (l : list A) :
  existsb (fun a => bool_decide (f a = x)) l = false ↔ x ∉ f <$> l.
Proof.
  rewrite <- existsb_id_elem. by destruct (existsb _ l).
Qed.

Lemma find_append {A} (f : A → bool) (l1 l2 : list A) :
  find f (l1 ++ l2)
  = match find f l1 with Some x => Some x | None => find f l2 end.
Proof.
  induction l1 as [|x l1 IH]; [done|]. simpl. by destruct (f x).
Qed.

Lemma uniqueUsers_ids users id :
  id ∈ Client.c_id <$> Client.uniqueUsers users ↔ id ∈ Client.c_id <$> users.
Proof.
  induction users as [|u users IH] using rev_ind; [done|].
  rewrite uniqueUsers_snoc, (fmap_app _ users), (elem_of_app _ _ id), <- IH.
  destruct (existsb _ _) eqn:Hex.
  - apply existsb_id_elem in Hex. split; [by left|].
    intros [H|[->|[]%elem_of_nil]%elem_of_cons]; done.
  - by rewrite fmap_app, elem_of_app.
Qed.

Lemma uniqueUsers_fixed users :
  NoDup (Client.c_id <$> users) → Client.uniqueUsers users = users.
Proof.
  induction users as [|u users IH] using rev_ind; [done|].
  rewrite fmap_app, NoDup_app. intros (Hnd & Hdisj & _).
  rewrite uniqueUsers_snoc, IH by done.
  destruct (existsb _ users) eqn:Hex; [|done].
  apply existsb_id_elem in Hex. exfalso.
  apply (Hdisj _ Hex). simpl. left.
Qed.

(** X19.  The list the users screen keeps from an [onlineUsers] event
    lists every user id of the event exactly once, each with the entry
    of its first occurrence; and on a list the server sends, whatever
    events the server has handled, the filter removes nothing. *)
Theorem uniqueUsers_keeps_first_entries
    (users : list Client.ClientUser) (evs : list Event) :
  NoDup (Client.c_id <$> Client.uniqueUsers users) ∧
  (∀ id, id ∈ Client.c_id <$> Client.uniqueUsers users
         ↔ id ∈ Client.c_id <$> users) ∧
  (∀ u, u ∈ Client.uniqueUsers users →
        find (fun user => bool_decide (Client.c_id user = Client.c_id u)) users
        = Some u) ∧
  Client.uniqueUsers
    (Client.ofOnlineUser <$> onlineUsers (run evs initialState))
  = Client.ofOnlineUser <$> onlineUsers (run evs initialState).
Proof.
  split; [|split; [|split]].
  - induction users as [|u users IH] using rev_ind; [constructor|].
    rewrite uniqueUsers_snoc.
    destruct (existsb _ _) eqn:Hex; [done|].
    apply existsb_id_not_elem in Hex.
    rewrite fmap_app. apply NoDup_app. split; [done|]. split.
    + intros id Hid [->|[]%elem_of_nil]%elem_of_cons. done.
    + simpl. apply NoDup_singleton.
  - intros id. apply uniqueUsers_ids.
  - induction users as [|u users IH] using rev_ind.
    { by intros u' ?%elem_of_nil. }
    intros u'. rewrite uniqueUsers_snoc.
    assert (∀ v, v ∈ Client.uniqueUsers users →
                 find (fun user => bool_decide (Client.c_id user = Client.c_id v))
                      (users ++ [u]) = Some v) as Hold.
    { intros v Hv. by rewrite find_append, (IH v Hv). }
    destruct (existsb _ _) eqn:Hex; [exact (Hold u')|].
    intros [Hin|Hin%list_elem_of_singleton]%elem_of_app; [by apply Hold|].
    subst u'. rewrite find_append.
    apply existsb_id_not_elem in Hex.
    destruct (find _ users) as [v|] eqn:Hfind.
    + apply find_some in Hfind as [Hv%list_elem_of_In Heq%bool_decide_eq_true].
      exfalso. apply Hex. apply uniqueUsers_ids. rewrite <- Heq.
      apply list_elem_of_fmap. eauto.
    + simpl. by rewrite bool_decide_eq_true_2.
  - apply uniqueUsers_fixed.
    pose proof (run_wellFormed evs) as Hwf.
    pose proof (run_namesStored evs) as Hnames.
    rewrite onlineUsers_registry by done.
    rewrite <- !list_fmap_compose.
    exact (registry_ids_distinct _ Hwf).
Qed.

Lemma uniqueUsers_keeps_first_entries_witness :
  let ann := Client.mkClientUser "uA" "Ann" true in
  let bob := Client.mkClientUser "uB" "Bob" true in
  let ann2 := Client.mkClientUser "uA" "Anna" false in
  Client.uniqueUsers [ann; bob; ann2] = [ann; bob] ∧
  find (fun user => bool_decide (Client.c_id user = "uA")) [ann; bob; ann2]
  = Some ann.
Proof.
  intros ann bob ann2. split; [reflexivity|].
  destruct (uniqueUsers_keeps_first_entries [ann; bob; ann2] [])
    as (_ & _ & Hfirst & _).
  apply (Hfirst ann). left.
Defined.


(** ** The selection of users for a new group *)

Lemma filter_ne_absent (x : string) (l : list string) :
  x ∉ l → filter (fun y => y ≠ x) l = l.
Proof.
  intros Hx. apply filter_all. intros y Hy ->. done.
Qed.

Lemma filter_ne_snoc (x : string) (l : list string) :
  x ∉ l → filter (fun y => y ≠ x) (l ++ [x]) = l.
Proof.
  intros Hx. rewrite filter_app, filter_ne_absent by done.
  rewrite filter_cons_False by (intros H; by apply H).
  by rewrite filter_nil, app_nil_r.
Qed.

(** X20.  [toggleUserSelection] flips the membership of the toggled id
    and of no other id, never lists an id twice, and toggling an
    unselected id twice gives back the selection as it was. *)
Theorem toggleUserSelection_flips
    (userId other : string) (prev : list string) :
  NoDup prev →
  NoDup (Client.toggleUserSelection userId prev) ∧
  (userId ∈ Client.toggleUserSelection userId prev ↔ userId ∉ prev) ∧
  (other ≠ userId →
   (other ∈ Client.toggleUserSelection userId prev ↔ other ∈ prev)) ∧
  (userId ∉ prev →
   Client.toggleUserSelection userId
     (Client.toggleUserSelection userId prev) = prev).
Proof.
  intros Hnd. unfold Client.toggleUserSelection at 1 2 3.
  case_bool_decide as Hin.
  - split; [by apply NoDup_filter|]. split; [|split].
    + rewrite list_elem_of_filter. split; [by intros [? _]|done].
    + intros Hne. rewrite list_elem_of_filter. tauto.
    + done.
  - split; [|split; [|split]].
    + apply NoDup_app. split; [done|]. split; [|apply NoDup_singleton].
      by intros x Hx ->%list_elem_of_singleton.
    + rewrite elem_of_app, list_elem_of_singleton. tauto.
    + intros Hne. rewrite elem_of_app, list_elem_of_singleton. tauto.
    + intros _. unfold Client.toggleUserSelection.
      rewrite (bool_decide_eq_false_2 (userId ∈ prev)) by done.
      rewrite bool_decide_eq_true_2
        by (apply elem_of_app; right; by apply list_elem_of_singleton).
      by apply filter_ne_snoc.
Qed.

Lemma toggleUserSelection_flips_witness :
  Client.toggleUserSelection "uB" ["uA"; "uB"; "uC"] = ["uA"; "uC"] ∧
  ("uB" ∈ Client.toggleUserSelection "uB" ["uA"; "uB"; "uC"]
   ↔ "uB" ∉ ["uA"; "uB"; "uC"]).
Proof.
  split; [reflexivity|].
  apply (toggleUserSelection_flips "uB" "uA" ["uA"; "uB"; "uC"]).
  apply (bool_decide_unpack _). vm_compute. exact I.
Defined.

(** ** The list of groups *)

Lemma NoDup_fmap_filter {A B} (f : A → B) (P : A → Prop)
    `{∀ x, Decision (P x)} (l : list A) :
  NoDup (f <$> l) → NoDup (f <$> filter P l).
Proof.
  induction l as [|x l IH]; [done|].
  rewrite fmap_cons, NoDup_cons. intros [Hx Hnd].
  rewrite filter_cons. case_decide; [|by apply IH].
  rewrite fmap_cons. apply NoDup_cons. split; [|by apply IH].
  intros (y & Heq & [_ Hin]%list_elem_of_filter)%list_elem_of_fmap.
  apply Hx. apply list_elem_of_fmap. by exists y.
Qed.

(** X21.  The three listeners that maintain [availableGroups] never
    list a chat id twice; a group announced by both [newGroupChat] and
    [groupChatCreated] is listed once, whichever event comes first; and
    [groupDeleted] removes the group of that chat id and no other. *)
Theorem availableGroups_lists_a_group_once
    (userId chatId groupName : string) (members : list Client.ClientUser)
    (createdBy : option string) (deleted : string)
    (prev : list Client.GroupChat) :
  let g := Client.mkGroupChat chatId groupName members createdBy in
  NoDup (Client.gc_chatId <$> prev) →
  NoDup (Client.gc_chatId <$> Client.onNewGroupChat g prev) ∧
  NoDup (Client.gc_chatId <$>
         Client.onGroupChatCreated userId chatId groupName members createdBy prev) ∧
  NoDup (Client.gc_chatId <$> Client.onGroupDeleted deleted prev) ∧
  (userId ∈ Client.c_id <$> members →
   Client.onGroupChatCreated userId chatId groupName members createdBy
     (Client.onNewGroupChat g prev)
   = Client.onNewGroupChat g prev ∧
   Client.onNewGroupChat g
     (Client.onGroupChatCreated userId chatId groupName members createdBy prev)
   = Client.onNewGroupChat g prev) ∧
  (∀ h, h ∈ Client.onGroupDeleted deleted prev
        ↔ h ∈ prev ∧ Client.gc_chatId h ≠ deleted).
Proof.
  intros g Hnd.
  assert (∀ h, chatId ∉ Client.gc_chatId <$> prev →
               Client.gc_chatId h = chatId →
               NoDup (Client.gc_chatId <$> prev ++ [h])) as Hsnoc.
  { intros h Hfresh Hh. rewrite fmap_app. apply NoDup_app.
    split; [done|]. split; [|apply NoDup_singleton].
    intros x Hx [->|[]%elem_of_nil]%elem_of_cons. by rewrite Hh in Hx. }
  assert (∀ l : list Client.GroupChat,
            existsb (fun h => bool_decide (Client.gc_chatId h = chatId))
                    (l ++ [g]) = true) as Hlast.
  { intros l. apply existsb_id_elem. rewrite fmap_app.
    apply elem_of_app. right. left. }
  split; [|split; [|split; [|split]]].
  - unfold Client.onNewGroupChat. simpl.
    destruct (existsb _ prev) eqn:Hex; [done|].
    apply existsb_id_not_elem in Hex. by apply Hsnoc.
  - unfold Client.onGroupChatCreated.
    destruct (existsb _ prev) eqn:Hex; [done|].
    apply existsb_id_not_elem in Hex.
    destruct (existsb _ members); [|done]. by apply Hsnoc.
  - by apply NoDup_fmap_filter.
  - intros Hmember%(existsb_id_elem Client.c_id).
    unfold Client.onNewGroupChat, Client.onGroupChatCreated. simpl.
    destruct (existsb _ prev) eqn:Hex.
    + by rewrite Hex.
    + rewrite Hlast, Hmember. fold g. by rewrite Hlast.
  - intros h. unfold Client.onGroupDeleted. by rewrite list_elem_of_filter, (comm and).
Qed.

Lemma availableGroups_lists_a_group_once_witness :
  let ann := Client.mkClientUser "uA" "Ann" true in
  let bob := Client.mkClientUser "uB" "Bob" true in
  let g := Client.mkGroupChat "group-1" "Team" [ann; bob] (Some "uA") in
  Client.onGroupChatCreated "uB" "group-1" "Team" [ann; bob] (Some "uA")
    (Client.onNewGroupChat g []) = [g] ∧
  Client.onNewGroupChat g
    (Client.onGroupChatCreated "uB" "group-1" "Team" [ann; bob] (Some "uA") [])
  = [g].
Proof.
  intros ann bob g.
  destruct (availableGroups_lists_a_group_once "uB" "group-1" "Team"
              [ann; bob] (Some "uA") "group-2" [])
    as (_ & _ & _ & Hboth & _); [constructor|].
  apply Hboth. vm_compute. right. left.
Defined.

(** ** A group created on the users screen *)

Lemma blank_trim_truthy s :
  Js.truthy (Js.trim s) = true → Js.blank (Some s) = false.
Proof.
  intros Ht. unfold Js.blank. apply orb_false_iff. split.
  - by destruct s.
  - apply bool_decide_eq_false. intros Heq. by rewrite Heq in Ht.
Qed.

Lemma memberFor_id userId username onlineUsers id :
  Client.c_id (Client.memberFor userId username onlineUsers id) = id.
Proof.
  unfold Client.memberFor.
  destruct (find _ onlineUsers); [done|]. by case_bool_decide.
Qed.

Lemma memberFor_named userId username onlineUsers id :
  Js.blank (Some username) = false →
  (∀ u, u ∈ onlineUsers → Js.blank (Some (Client.c_username u)) = false) →
  Js.blank (Some (Client.c_username
                    (Client.memberFor userId username onlineUsers id))) = false.
Proof.
  intros Hname Hall. unfold Client.memberFor.
  destruct (find _ onlineUsers) as [user|] eqn:Hfind.
  - apply find_some in Hfind as [Hin%list_elem_of_In _]. simpl. by apply Hall.
  - case_bool_decide; simpl; [done|reflexivity].
Qed.

(** X22.  A group that [handleCreateGroup] creates for a creator with a
    user id that is not empty (with names that are not blank in the list
    of online users and for the creator) makes the chat screen send,
    whatever the storage holds, a [joinChat] payload that the server
    accepts: the chat id is the one put in the list of groups and starts
    with ["group-"], and the record the server stores carries the
    trimmed name shown in the list, the creator's user id, and as
    members exactly the selected users and the creator. *)
Theorem created_group_is_accepted_by_the_server
    (now : N) (rnd userId username groupName : string)
    (selectedUsers : list string) (onlineUsers : list Client.ClientUser)
    (newGroup : Client.GroupChat) (params : Client.ChatParams)
    (opened : N) (rnd' : string) (stored : option string * option string)
    (received : N) (sid : string) (st : State) :
  Client.handleCreateGroup now rnd userId username groupName selectedUsers
    onlineUsers = Client.CreateGroupDone newGroup params →
  Js.truthy userId = true →
  Js.blank (Some username) = false →
  (∀ u, u ∈ onlineUsers → Js.blank (Some (Client.c_username u)) = false) →
  sid ∈ sockets st →
  ∃ d g,
    Client.joinChatPayload opened rnd' stored params = Some d ∧
    jc_chatId d = Client.gc_chatId newGroup ∧
    Js.startsWith "group-" (jc_chatId d) = true ∧
    groupAccepted d = true ∧
    JsMap.get (jc_chatId d) (groupChats (step (JoinChat received sid d) st).1)
    = Some g ∧
    g_name g = Client.gc_name newGroup ∧
    0 < String.length (g_name g) ≤ 50 ∧
    g_createdBy g = Some userId ∧
    m_id <$> g_members g = Client.c_id <$> Client.gc_members newGroup ∧
    (∀ id, id ∈ m_id <$> g_members g ↔ id ∈ selectedUsers ∨ id = userId).
Proof.
  intros Hdone Huid Hname Hall Hsid. unfold Client.handleCreateGroup in Hdone.
  destruct (Js.truthy (Js.trim groupName)) eqn:Htrim; [|done]. simpl in Hdone.
  destruct selectedUsers as [|s0 sel]; [done|].
  case_bool_decide as Hlen; [done|].
  set (groupMembers := if bool_decide (userId ∈ s0 :: sel) then s0 :: sel
                       else (s0 :: sel) ++ [userId]) in *.
  set (members := Client.memberFor userId username onlineUsers <$> groupMembers)
    in *.
  set (chatId := Client.newGroupChatId now rnd (Client.slug groupName)) in *.
  injection Hdone as <- <-.
  assert (Js.blank (Some groupName) = false) as Hgn
    by by apply blank_trim_truthy.
  set (d := mkJoinChatData chatId (Some userId) (Some username) true
              (Some groupName) (Some (Client.toMemberData <$> members))).
  assert (validMembersOf (Client.toMemberData <$> members)
          = Client.toMemberData <$> members) as Hvalid.
  { unfold validMembersOf. apply filter_all.
    intros m (u & -> & (id & -> & _)%list_elem_of_fmap)%list_elem_of_fmap.
    simpl. by apply memberFor_named. }
  assert (m_id <$> (storedMember <$> (Client.toMemberData <$> members))
          = groupMembers) as Hids.
  { unfold members. rewrite <- !list_fmap_compose.
    rewrite <- (list_fmap_id groupMembers) at 2.
    apply list_fmap_ext. intros i id _. simpl. apply memberFor_id. }
  assert (groupAccepted d = true) as Hacc.
  { unfold groupAccepted, d. simpl. unfold members, groupMembers.
    destruct (bool_decide (userId ∈ s0 :: sel)); simpl; rewrite Hgn; simpl.
    - fold (Client.toMemberData <$> (Client.memberFor userId username onlineUsers <$> sel)).
      unfold validMembersOf. rewrite filter_cons_True; [done|].
      simpl. by apply memberFor_named.
    - unfold validMembersOf. rewrite filter_cons_True; [done|].
      simpl. by apply memberFor_named. }
  exists d, (groupOf received d).
  split; [|split; [|split; [|split; [|split; [|split; [|split; [|split; [|split]]]]]]]].
  - unfold Client.joinChatPayload. simpl. rewrite Huid.
    apply blank_false_truthy in Hname. simpl in Hname. by rewrite Hname.
  - done.
  - done.
  - exact Hacc.
  - simpl. unfold whenConnected. rewrite bool_decide_eq_true_2 by done.
    rewrite onJoinChat_accepted_groupChats by done.
    rewrite get_set. by rewrite decide_True.
  - done.
  - simpl. split; [|lia].
    destruct (Js.trim groupName); [done|simpl; lia].
  - done.
  - simpl. rewrite Hvalid, Hids. unfold members.
    rewrite <- list_fmap_compose.
    rewrite <- (list_fmap_id groupMembers) at 1.
    apply list_fmap_ext. intros i id _. simpl. by rewrite memberFor_id.
  - intros id. simpl. rewrite Hvalid, Hids. unfold groupMembers.
    case_bool_decide as Hin.
    + split; [by left|]. by intros [?| ->].
    + by rewrite elem_of_app, list_elem_of_singleton.
Qed.

Lemma created_group_is_accepted_by_the_server_witness :
  let st := run Scenario.online initialState in
  let users := [Client.mkClientUser "uA" "Ann" true;
                Client.mkClientUser "uB" "Bob" true] in
  let chatId := Client.newGroupChatId 100 "k3x" (Client.slug " My Team ") in
  let members := Client.memberFor "uA" "Ann" users <$> ["uB"; "uA"] in
  let params := Client.mkChatParams "uA" "Ann" None false true
                  (Some " My Team ") (Some members) (Some chatId) in
  ∃ d g,
    Client.joinChatPayload 101 "q7p" (None, None) params = Some d ∧
    JsMap.get (jc_chatId d) (groupChats (step (JoinChat 20 "sA" d) st).1)
    = Some g ∧
    g_name g = "My Team" ∧
    g_createdBy g = Some "uA" ∧
    (∀ id, id ∈ m_id <$> g_members g ↔ id ∈ ["uB"] ∨ id = "uA").
Proof.
  intros st users chatId members params.
  destruct (created_group_is_accepted_by_the_server 100 "k3x" "uA" "Ann"
              " My Team " ["uB"] users
              (Client.mkGroupChat chatId "My Team" members (Some "Ann"))
              params 101 "q7p" (None, None) 20 "sA" st)
    as (d & g & Hd & _ & _ & _ & Hget & Hname & _ & Hby & _ & Hids).
  - reflexivity.
  - reflexivity.
  - reflexivity.
  - intros u [->|[->|[]%elem_of_nil]%elem_of_cons]%elem_of_cons; reflexivity.
  - apply (bool_decide_unpack _). vm_compute. exact I.
  - exists d, g. split; [exact Hd|]. split; [exact Hget|].
    split; [exact Hname|]. split; [exact Hby|exact Hids].
Defined.

(** ** The typing indicator of the chat screen *)

(** X23.  The [userTyping] listener never lists a name twice in
    [typingUsers].  An event of another chat changes nothing; after a
    start-typing event of this chat the name is listed, after a
    stop-typing event it is not, and the other names are listed as
    before. *)
Theorem typingUsers_lists_a_name_once
    (chatId username other : string) (isTyping : bool)
    (dataChatId : option string) (prev : list string) :
  NoDup prev →
  NoDup (Client.onUserTyping chatId username isTyping dataChatId prev) ∧
  (dataChatId ≠ Some chatId →
   Client.onUserTyping chatId username isTyping dataChatId prev = prev) ∧
  (dataChatId = Some chatId →
   (username ∈ Client.onUserTyping chatId username isTyping dataChatId prev
    ↔ isTyping = true)) ∧
  (other ≠ username →
   (other ∈ Client.onUserTyping chatId username isTyping dataChatId prev
    ↔ other ∈ prev)).
Proof.
  intros Hnd. unfold Client.onUserTyping.
  case_bool_decide as Hchat; [|done].
  destruct isTyping.
  - case_bool_decide as Hin.
    + split; [done|]. split; [done|]. split; [|done]. done.
    + split; [|split; [done|split]].
      * apply NoDup_app. split; [done|]. split; [|apply NoDup_singleton].
        by intros x Hx ->%list_elem_of_singleton.
      * intros _. split; [done|]. intros _. apply elem_of_app. right.
        by apply list_elem_of_singleton.
      * intros Hne. rewrite elem_of_app, list_elem_of_singleton. tauto.
  - split; [by apply NoDup_filter|]. split; [done|]. split.
    + intros _. rewrite list_elem_of_filter. split; [by intros [? _]|done].
    + intros Hne. rewrite list_elem_of_filter. tauto.
Qed.

Lemma typingUsers_lists_a_name_once_witness :
  Client.onUserTyping "group-1" "Ann" true (Some "group-1") ["Bob"]
  = ["Bob"; "Ann"] ∧
  NoDup (Client.onUserTyping "group-1" "Ann" true (Some "group-1") ["Bob"]).
Proof.
  split; [reflexivity|].
  apply (typingUsers_lists_a_name_once "group-1" "Ann" "Bob" true
           (Some "group-1") ["Bob"]).
  apply (bool_decide_unpack _). vm_compute. exact I.
Defined.

(** ** A direct chat opened from the users screen *)

Lemma roomOpened_subscribes now sid d st :
  sid ∈ subscribersOf (jc_chatId d) (roomOpened now sid d st).
Proof.
  assert (sid ∈ subscribersOf (jc_chatId d) (joinRoom sid (jc_chatId d) st))
    as Hjoin.
  { rewrite subscribersOf_joinRoom, decide_True by done.
    apply elem_of_union. left. by apply elem_of_singleton. }
  unfold roomOpened. by destruct (JsMap.has _ _).
Qed.

Lemma onJoinChat_subscribes_caller now sid d st :
  sid ∈ subscribersOf (jc_chatId d) (onJoinChat now sid d st).1.
Proof.
  pose proof (roomOpened_subscribes now sid d st) as Hopen.
  destruct (groupAccepted d) eqn:Hacc.
  - rewrite onJoinChat_accepted_state by done.
    by apply extends_addMembersToRoom.
  - rewrite onJoinChat_rejected_state by done.
    destruct (_ && _); [|done]. by apply extends_joinDirectPeers.
Qed.

Lemma handleStartChat_payload opened rnd stored userId username target :
  Js.truthy userId = true → Js.truthy username = true →
  Js.truthy (Client.c_id target) = true →
  Client.joinChatPayload opened rnd stored
    (Client.handleStartChat userId username target)
  = Some (mkJoinChatData (directChatId userId (Client.c_id target))
            (Some userId) (Some username) false None None).
Proof.
  intros Hu Hn Ht. unfold Client.joinChatPayload, Client.chatIdOf. simpl.
  by rewrite Hu, Hn, Ht.
Qed.

(** X24.  Two users who start a direct chat with each other from the
    users screen (with user ids and user names that are not empty) send,
    whatever the storage holds, [joinChat] for one and the same room and
    without a group payload; once the server has handled both calls,
    the sockets of both are subscribed to that room, whatever the user
    ids look like, and no group record has been written. *)
Theorem direct_chat_opened_by_both_users
    (a b : Client.ClientUser) (openedA openedB : N) (rndA rndB : string)
    (storedA storedB : option string * option string)
    (nowA nowB : N) (sA sB : string) (st : State) :
  Js.truthy (Client.c_id a) = true → Js.truthy (Client.c_id b) = true →
  Js.truthy (Client.c_username a) = true →
  Js.truthy (Client.c_username b) = true →
  sA ∈ sockets st → sB ∈ sockets st →
  ∃ dA dB,
    Client.joinChatPayload openedA rndA storedA
      (Client.handleStartChat (Client.c_id a) (Client.c_username a) b)
    = Some dA ∧
    Client.joinChatPayload openedB rndB storedB
      (Client.handleStartChat (Client.c_id b) (Client.c_username b) a)
    = Some dB ∧
    jc_chatId dA = directChatId (Client.c_id a) (Client.c_id b) ∧
    jc_chatId dB = jc_chatId dA ∧
    jc_isGroup dA = false ∧ jc_isGroup dB = false ∧
    let st' := (step (JoinChat nowB sB dB)
                  (step (JoinChat nowA sA dA) st).1).1 in
    sA ∈ subscribersOf (jc_chatId dA) st' ∧
    sB ∈ subscribersOf (jc_chatId dA) st' ∧
    groupChats st' = groupChats st.
Proof.
  intros Ha Hb Hna Hnb HsA HsB.
  eexists _, _. split; [by apply handleStartChat_payload|].
  split; [by apply handleStartChat_payload|].
  set (dA := mkJoinChatData (directChatId (Client.c_id a) (Client.c_id b)) _ _ _ _ _).
  set (dB := mkJoinChatData (directChatId (Client.c_id b) (Client.c_id a)) _ _ _ _ _).
  assert (jc_chatId dB = jc_chatId dA) as Hsame.
  { simpl. unfold directChatId. rewrite !sort_pair.
    unfold Js.before, String.ltb.
    rewrite (String.compare_antisym (Client.c_id b) (Client.c_id a)).
    destruct (String.compare (Client.c_id a) (Client.c_id b)) eqn:Hab;
      simpl; try reflexivity.
    apply String.compare_eq_iff in Hab. by rewrite Hab. }
  split; [done|]. split; [exact Hsame|]. split; [done|]. split; [done|].
  simpl. unfold whenConnected. rewrite (bool_decide_eq_true_2 _ HsA).
  pose proof (extends_onJoinChat nowA sA dA st HsA) as HextA.
  rewrite (extends_sockets _ _ HextA), (bool_decide_eq_true_2 _ HsB).
  pose proof (extends_onJoinChat nowB sB dB (onJoinChat nowA sA dA st).1) as HextB.
  rewrite (extends_sockets _ _ HextA) in HextB. specialize (HextB HsB).
  split; [|split].
  - apply HextB.
    exact (onJoinChat_subscribes_caller nowA sA dA st).
  - change (directChatId (Client.c_id a) (Client.c_id b)) with (jc_chatId dA).
    rewrite <- Hsame.
    exact (onJoinChat_subscribes_caller nowB sB dB _).
  - rewrite !onJoinChat_rejected_groupChats; done.
Qed.

Lemma direct_chat_opened_by_both_users_witness :
  let st := run [Connect "sA"; Connect "sB";
                 Join 10 "sA" (mkJoinData (Some "a-1") (Some "Ann"));
                 Join 11 "sB" (mkJoinData (Some "b-2") (Some "Bob"))]
                initialState in
  let dA := mkJoinChatData "a-1-b-2" (Some "a-1") (Some "Ann") false None None in
  let dB := mkJoinChatData "a-1-b-2" (Some "b-2") (Some "Bob") false None None in
  let st' := (step (JoinChat 21 "sB" dB) (step (JoinChat 20 "sA" dA) st).1).1 in
  "sA" ∈ subscribersOf "a-1-b-2" st' ∧ "sB" ∈ subscribersOf "a-1-b-2" st'.
Proof.
  intros st dA dB st'.
  destruct (direct_chat_opened_by_both_users
              (Client.mkClientUser "a-1" "Ann" true)
              (Client.mkClientUser "b-2" "Bob" true)
              1 2 "x" "y" (None, None) (None, None) 20 21 "sA" "sB" st)
    as (dA' & dB' & HA & HB & Hid & _ & _ & _ & HsA & HsB & _).
  - reflexivity.
  - reflexivity.
  - reflexivity.
  - reflexivity.
  - apply (bool_decide_unpack _). vm_compute. exact I.
  - apply (bool_decide_unpack _). vm_compute. exact I.
  - rewrite handleStartChat_payload in HA by reflexivity.
    rewrite handleStartChat_payload in HB by reflexivity.
    injection HA as <-. injection HB as <-. split; [exact HsA|exact HsB].
Defined.
